(** * Multi-pass research orchestrator: a shallow embedding and its properties

    The development follows the Python sources:
    - [database.py]: the five tables of the relational store;
    - [query_classification_decomposition.py]: [normalize_sub_questions],
      [research_decomposition_pipeline];
    - [query_search.py]: [tavily_search], [analyze_sub_questions],
      [generate_final_answer], [run_pipeline];
    - [llm_as_a_judge.py]: [run_judge];
    - [pipeline.py]: [ResearchPipeline.run];
    - [report_generation.py]: the markdown text of [generate_report];
    - [app.py]: [extract_sources].

    The store is an explicit record of tables.  Every call that leaves the
    process (uuid generator, semantic memory, completion capability, search
    capability, report renderer) is answered by an oracle of the environment
    and logged in a trace, so that "how many calls were issued, and for
    what" is a property of the final state.  A Python exception is a
    [Raise] result; the state reached before the exception is kept. *)

From Stdlib Require Import String Ascii ZArith Floats DecimalString.
From stdpp Require Import base list strings gmap sorting.

#[local] Set Warnings "-clear-no-such-hyp".

Local Open Scope string_scope.
Local Open Scope list_scope.
Local Open Scope stdpp_scope.

(** ** Python strings *)

Module Py.

Definition nl : string := String (ascii_of_nat 10) EmptyString.

(** [sep.join(parts)] *)
Fixpoint join (sep : string) (parts : list string) : string :=
  match parts with
  | [] => ""
  | [p] => p
  | p :: rest => p +:+ sep +:+ join sep rest
  end.

(** [s.split(c)] for a one-character separator: the result is never empty,
    [''.split(c) = ['']]. *)
Fixpoint split_on (c : ascii) (s : string) : list string :=
  match s with
  | EmptyString => [""]
  | String a s' =>
      if Ascii.eqb a c then "" :: split_on c s'
      else match split_on c s' with
           | [] => [String a ""]
           | w :: ws => String a w :: ws
           end
  end.

(** Truth value of a string: [bool(s)]. *)
Definition truthy (s : string) : bool :=
  match s with EmptyString => false | _ => true end.

(** Truth value of an optional string ([None] or a [str]). *)
Definition truthy_opt (o : option string) : bool :=
  match o with Some s => truthy s | None => false end.

(** [filter(None, s.split('\n'))] *)
Definition nonempty_lines (s : string) : list string :=
  List.filter truthy (split_on (ascii_of_nat 10) s).

(** [c.upper()] on the ASCII letters. *)
Definition upper_ascii (a : ascii) : ascii :=
  let n := nat_of_ascii a in
  if (97 <=? n)%nat && (n <=? 122)%nat then ascii_of_nat (n - 32) else a.

Fixpoint upper (s : string) : string :=
  match s with
  | EmptyString => EmptyString
  | String a s' => String (upper_ascii a) (upper s')
  end.

(** *** Dictionaries

    A Python [dict] iterates in insertion order, and assigning to a key
    that is present keeps the key's place.  The dictionaries that are
    iterated ([search_results], [analyzed], ...) are association lists
    with that discipline. *)

Definition dict (V : Type) : Type := list (string * V).

Fixpoint dict_get {V} (d : dict V) (k : string) : option V :=
  match d with
  | [] => None
  | (k', v) :: d' => if decide (k' = k) then Some v else dict_get d' k
  end.

(** [d[k] = v] *)
Fixpoint dict_set {V} (k : string) (v : V) (d : dict V) : dict V :=
  match d with
  | [] => [(k, v)]
  | (k', v') :: d' =>
      if decide (k' = k) then (k, v) :: d' else (k', v') :: dict_set k v d'
  end.

(** [{**d1, **d2}] *)
Definition dict_merge {V} (d1 d2 : dict V) : dict V :=
  foldl (λ d kv, dict_set kv.1 kv.2 d) d1 d2.

Definition keys {V} (d : dict V) : list string := d.*1.

(** [list(dict.fromkeys(l))]: the first occurrence of each element, in
    order. *)
Fixpoint fromkeys (seen : list string) (l : list string) : list string :=
  match l with
  | [] => []
  | x :: l' =>
      if decide (x ∈ seen) then fromkeys seen l'
      else x :: fromkeys (x :: seen) l'
  end.

Definition dedup_keys (l : list string) : list string := fromkeys [] l.

End Py.

(** ** The relational store ([database.py]) *)

(** Timestamps are seconds; identifiers of the AUTOINCREMENT tables are
    naturals, allocated as one more than the largest identifier present. *)

Record research_runs_row := {
  rr_id : string;                        (* id TEXT PRIMARY KEY *)
  run_original_query : string;
  run_classification : string;
  run_primary_intent : string;
  run_relationship : string;
  run_difficulty_level : string;
  run_final_answer : option string;      (* NULL until the orchestrator writes it *)
  run_markdown_path : option string;
  run_html_path : option string;
  run_created_at : nat
}.

Record sub_questions_row := {
  sq_id : nat;
  sq_research_run_id : string;
  sq_sub_question : string;
  sq_position : nat;
  sq_created_at : nat
}.

Record search_results_row := {
  sr_id : nat;
  sr_sub_question_id : nat;
  sr_search_query : string;
  sr_search_type : string;               (* depth / breadth *)
  sr_url : option string;
  sr_title : option string;
  sr_snippet : option string;
  sr_score : option float;
  sr_source_engine : string;
  sr_fetched_at : nat
}.

Record sub_question_summaries_row := {
  sm_id : nat;
  sm_sub_question_id : nat;              (* UNIQUE *)
  sm_summary_json : list string;         (* the bullet list that json.dumps stores *)
  sm_created_at : nat
}.

Record JudgeResult := {
  overall_status : string;
  confidence_score : float;
  coverage_assessment : list (string * string);
  detected_gaps : list string;
  recommended_follow_up : list string;
  termination_reasoning : string
}.

Record judge_evaluations_row := {
  je_id : nat;
  je_research_run_id : string;
  je_result : JudgeResult;
  je_evaluated_at : nat
}.

(** ** What the external capabilities exchange with the program *)

(** One entry of the [sub_questions] list the decomposition chain returns:
    a plain string, or a dictionary of tagged questions. *)
Inductive SubQEntry :=
| QText (s : string)
| QDict (items : list (string * string)).

Record Decomposition := {
  d_sub_questions : list string;
  d_primary_intent : string;
  d_relationship : string;
  d_difficulty_level : string
}.

Record RawDecomposition := {
  raw_sub_questions : list SubQEntry;
  raw_primary_intent : string;
  raw_relationship : string;
  raw_difficulty_level : string
}.

(** One element of a search response's [results]. *)
Inductive TavilyItem :=
| ItemDict (score : float) (url : option string) (title content : string)
| ItemOther.

Record JudgeInput := {
  ji_original_query : string;
  ji_sub_questions : string;
  ji_final_answer : string
}.

(** ** The trace of external calls *)

Inductive Event :=
| EvUuid (u : string)
| EvRetrieveContext (query : string) (r : option string)
| EvClassify (query : string) (r : option string)
| EvDecompose (query query_type : string) (r : option RawDecomposition)
| EvSearch (query : string) (max_results : nat) (r : option (list TavilyItem))
| EvSummarize (question snippets : string) (r : option string)
| EvSynthesize (prompt : string) (r : option string)
| EvJudge (i : JudgeInput) (r : option JudgeResult)
| EvPassBanner (pass_idx : nat)
| EvReport (run : string) (r : option string)
| EvStoreVector (run text : string) (ok : bool).

(** The completion capability is invoked by five kinds of event. *)
Definition is_completion_call (e : Event) : bool :=
  match e with
  | EvClassify _ _ | EvDecompose _ _ _ | EvSummarize _ _ _
  | EvSynthesize _ _ | EvJudge _ _ => true
  | _ => false
  end.

Definition is_search_call_for (q : string) (e : Event) : bool :=
  match e with
  | EvSearch q' _ _ => bool_decide (q' = q)
  | _ => false
  end.

Definition is_pass_banner (e : Event) : bool :=
  match e with EvPassBanner _ => true | _ => false end.

(** ** The environment: one oracle per external collaborator

    The first argument of an oracle is the number of events logged so far,
    so two calls with the same input may be answered differently.  [None]
    is a call that raises; for a chain (prompt, model, parser) it also
    stands for an answer that lacks a key the caller reads from it.
    [extract_summary_from_response] is the parsing of the analyzer's reply
    (built on [json.loads]); it always returns a bullet list and is kept as
    a function of the reply text.  The clock is read when a row is
    inserted. *)

Record Env := {
  uuid4 : nat → string;
  current_timestamp : nat → nat;
  retrieve_context : nat → string → option string;
  classification_chain : nat → string → option string;
  decomposition_chain : nat → string → string → option RawDecomposition;
  tavily_client_search : nat → string → nat → option (list TavilyItem);
  analyzer_llm : nat → string → string → option string;
  extract_summary_from_response : string → list string;
  final_llm : nat → string → option string;
  judge_chain : nat → JudgeInput → option JudgeResult;
  generate_report : nat → string → option string;
  store_run_vector : nat → string → string → bool
}.

(** ** State and exceptions *)

Record World := {
  research_runs : list research_runs_row;
  sub_questions : list sub_questions_row;
  search_results : list search_results_row;
  sub_question_summaries : list sub_question_summaries_row;
  judge_evaluations : list judge_evaluations_row;
  trace : list Event                      (* oldest event first *)
}.

Inductive Exn :=
| IntegrityError (table : string)
| CapabilityError (what : string).

Inductive Result (A : Type) :=
| Ok (a : A)
| Raise (e : Exn).
Arguments Ok {A} a.
Arguments Raise {A} e.

Definition M (A : Type) : Type := World → Result A * World.

Definition ret {A} (a : A) : M A := λ w, (Ok a, w).

Definition bind {A B} (m : M A) (k : A → M B) : M B :=
  λ w, match m w with
       | (Ok a, w') => k a w'
       | (Raise e, w') => (Raise e, w')
       end.

Definition raise {A} (e : Exn) : M A := λ w, (Raise e, w).

Notation "'do' x <- c1 ; c2" := (bind c1 (λ x, c2))
  (at level 10, x name, c1 at level 100, c2 at level 200).
Notation "'do' ' p <- c1 ; c2" := (bind c1 (λ x, match x with p => c2 end))
  (at level 10, p pattern, c1 at level 100, c2 at level 200).
Notation "c1 ;;; c2" := (bind c1 (λ _, c2))
  (at level 100, c2 at level 200, right associativity).

Definition get_world : M World := λ w, (Ok w, w).

Definition log (e : Event) : M unit :=
  λ w, (Ok tt, {| research_runs := research_runs w;
                  sub_questions := sub_questions w;
                  search_results := search_results w;
                  sub_question_summaries := sub_question_summaries w;
                  judge_evaluations := judge_evaluations w;
                  trace := trace w ++ [e] |}).

Definition tick : M nat := λ w, (Ok (length (trace w)), w).

(** [for x in xs: body x] *)
Fixpoint for_each {A} (xs : list A) (body : A → M unit) : M unit :=
  match xs with
  | [] => ret tt
  | x :: xs' => body x ;;; for_each xs' body
  end.

(** The events added between two states. *)
Definition new_events (w w' : World) : list Event :=
  drop (length (trace w)) (trace w').

Definition count_events (p : Event → bool) (l : list Event) : nat :=
  length (List.filter p l).

(** ** Table access *)

Definition next_id (ids : list nat) : nat := S (foldr Nat.max 0 ids).

Definition set_research_runs (rows : list research_runs_row) (w : World) : World :=
  {| research_runs := rows;
     sub_questions := sub_questions w;
     search_results := search_results w;
     sub_question_summaries := sub_question_summaries w;
     judge_evaluations := judge_evaluations w;
     trace := trace w |}.

Definition set_sub_questions (rows : list sub_questions_row) (w : World) : World :=
  {| research_runs := research_runs w;
     sub_questions := rows;
     search_results := search_results w;
     sub_question_summaries := sub_question_summaries w;
     judge_evaluations := judge_evaluations w;
     trace := trace w |}.

Definition set_search_results (rows : list search_results_row) (w : World) : World :=
  {| research_runs := research_runs w;
     sub_questions := sub_questions w;
     search_results := rows;
     sub_question_summaries := sub_question_summaries w;
     judge_evaluations := judge_evaluations w;
     trace := trace w |}.

Definition set_sub_question_summaries
    (rows : list sub_question_summaries_row) (w : World) : World :=
  {| research_runs := research_runs w;
     sub_questions := sub_questions w;
     search_results := search_results w;
     sub_question_summaries := rows;
     judge_evaluations := judge_evaluations w;
     trace := trace w |}.

Definition set_judge_evaluations
    (rows : list judge_evaluations_row) (w : World) : World :=
  {| research_runs := research_runs w;
     sub_questions := sub_questions w;
     search_results := search_results w;
     sub_question_summaries := sub_question_summaries w;
     judge_evaluations := rows;
     trace := trace w |}.

(** [ORDER BY created_at DESC LIMIT 1].  SQL leaves the choice among rows
    of equal timestamp open; the earliest inserted is kept here. *)
Definition later_run (best : option research_runs_row) (r : research_runs_row)
    : option research_runs_row :=
  match best with
  | None => Some r
  | Some b => if (run_created_at b <? run_created_at r)%nat then Some r else Some b
  end.

Definition latest_run (rows : list research_runs_row) : option research_runs_row :=
  foldl later_run None rows.

(** [ORDER BY position]: a stable insertion sort. *)
Fixpoint insert_by_position (r : sub_questions_row) (l : list sub_questions_row)
    : list sub_questions_row :=
  match l with
  | [] => [r]
  | r' :: l' =>
      if (sq_position r <=? sq_position r')%nat then r :: l
      else r' :: insert_by_position r l'
  end.

Definition order_by_position (l : list sub_questions_row) : list sub_questions_row :=
  foldr insert_by_position [] l.

Definition rows_of_run (run : string) (w : World) : list sub_questions_row :=
  filter (λ r, sq_research_run_id r = run) (sub_questions w).

Section Program.

Context (env : Env).

Definition now : M nat := λ w, (Ok (current_timestamp env (length (trace w))), w).

(** [INSERT INTO research_runs]: the primary key must be new. *)
Definition insert_research_run
    (id query classification intent relationship difficulty : string) : M unit :=
  do w <- get_world;
  if decide (id ∈ rr_id <$> research_runs w) then raise (IntegrityError "research_runs")
  else
    do t <- now;
    λ w, (Ok tt,
          set_research_runs
            (research_runs w ++
               [{| rr_id := id; run_original_query := query;
                   run_classification := classification;
                   run_primary_intent := intent;
                   run_relationship := relationship;
                   run_difficulty_level := difficulty;
                   run_final_answer := None; run_markdown_path := None;
                   run_html_path := None; run_created_at := t |}]) w).

Definition insert_sub_question (run sub_q : string) (position : nat) : M unit :=
  do t <- now;
  λ w, (Ok tt,
        set_sub_questions
          (sub_questions w ++
             [{| sq_id := next_id (sq_id <$> sub_questions w);
                 sq_research_run_id := run; sq_sub_question := sub_q;
                 sq_position := position; sq_created_at := t |}]) w).

(** ** [query_classification_decomposition.py] *)

Definition normalize_entry (q : SubQEntry) : list string :=
  match q with
  | QDict items => (λ kv, "[" +:+ Py.upper kv.1 +:+ "] " +:+ kv.2) <$> items
  | QText s => [s]
  end.

Definition normalize_sub_questions (sub_qs : list SubQEntry) : list string :=
  concat (normalize_entry <$> sub_qs).

Record DecompositionOutput := {
  o_run_id : string;
  o_original_query : string;
  o_classification : string;
  o_decomposition : Decomposition
}.

Definition with_previous_context (query memory_context : string) : string :=
  query +:+ Py.nl +:+ Py.nl +:+ "PREVIOUS CONTEXT:" +:+ Py.nl +:+ memory_context.

(** Step 1.  The [try] block binds [memory_context] and then [query_type];
    when [retrieve_context] raises, [memory_context] stays unbound
    ([None]). *)
Definition classification_phase (query : string) : M (option string * string) :=
  do t <- tick;
  let ctx := retrieve_context env t query in
  log (EvRetrieveContext query ctx) ;;;
  match ctx with
  | None => ret (None, "ambiguous")
  | Some memory_context =>
      do t' <- tick;
      let input := with_previous_context query memory_context in
      let r := classification_chain env t' input in
      log (EvClassify input r) ;;;
      match r with
      | Some query_type => ret (Some memory_context, query_type)
      | None => ret (Some memory_context, "ambiguous")
      end
  end.

Definition fallback_decomposition (query : string) : Decomposition :=
  {| d_sub_questions := [query];
     d_primary_intent := "Answer the query directly";
     d_relationship := "parallel";
     d_difficulty_level := "moderate" |}.

(** Step 2.  Any exception inside the [try] block selects the fallback:
    a failing chain, or the unbound [memory_context] (a [NameError] raised
    before the chain is invoked). *)
Definition decomposition_phase
    (query : string) (memory_context : option string) (query_type : string)
    : M Decomposition :=
  match memory_context with
  | None => ret (fallback_decomposition query)
  | Some ctx =>
      do t <- tick;
      let input := with_previous_context query ctx in
      let r := decomposition_chain env t input query_type in
      log (EvDecompose input query_type r) ;;;
      match r with
      | Some raw =>
          ret {| d_sub_questions := normalize_sub_questions (raw_sub_questions raw);
                 d_primary_intent := raw_primary_intent raw;
                 d_relationship := raw_relationship raw;
                 d_difficulty_level := raw_difficulty_level raw |}
      | None => ret (fallback_decomposition query)
      end
  end.

(** [for idx, sub_q in enumerate(sub_questions, start=idx)] *)
Fixpoint insert_sub_questions (run : string) (idx : nat) (sub_qs : list string)
    : M unit :=
  match sub_qs with
  | [] => ret tt
  | sub_q :: rest =>
      insert_sub_question run sub_q idx ;;; insert_sub_questions run (S idx) rest
  end.

Definition research_decomposition_pipeline (query : string) : M DecompositionOutput :=
  do t <- tick;
  let run_id := uuid4 env t in
  log (EvUuid run_id) ;;;
  do w <- get_world;
  match latest_run (filter (λ r, run_original_query r = query) (research_runs w)) with
  | Some cached_run =>
      let cached_sub_questions :=
        sq_sub_question <$> order_by_position (rows_of_run (rr_id cached_run) w) in
      ret {| o_run_id := rr_id cached_run;
             o_original_query := query;
             o_classification := run_classification cached_run;
             o_decomposition :=
               {| d_sub_questions := cached_sub_questions;
                  d_primary_intent := run_primary_intent cached_run;
                  d_relationship := run_relationship cached_run;
                  d_difficulty_level := run_difficulty_level cached_run |} |}
  | None =>
      do '(memory_context, query_type) <- classification_phase query;
      do decomposition_result <- decomposition_phase query memory_context query_type;
      insert_research_run run_id query query_type
        (d_primary_intent decomposition_result)
        (d_relationship decomposition_result)
        (d_difficulty_level decomposition_result) ;;;
      insert_sub_questions run_id 1 (d_sub_questions decomposition_result) ;;;
      ret {| o_run_id := run_id;
             o_original_query := query;
             o_classification := query_type;
             o_decomposition := decomposition_result |}
  end.

(** ** [query_search.py] *)

Inductive SearchType := depth | breadth.

Record Evidence := { urls : list string; snippets : string }.

Record Analysis := { summary : list string; a_urls : list string }.

(** The loop over one response's items: an item counts when it is a
    dictionary with [score > 0.5]; its url is kept when truthy. *)
Fixpoint collect_items (results : list TavilyItem) : list string * list string :=
  match results with
  | [] => ([], [])
  | item :: rest =>
      let '(us, ss) := collect_items rest in
      match item with
      | ItemDict score url title content =>
          if PrimFloat.ltb 0x1p-1%float score then
            ((if Py.truthy_opt url then option_list url else []) ++ us,
             ("- " +:+ title +:+ " | " +:+ content) :: ss)
          else (us, ss)
      | ItemOther => (us, ss)
      end
  end.

(** [list(set(urls))]: the elements of a finite set, in the set's own
    order. *)
Definition list_set (l : list string) : list string :=
  elements (list_to_set l : gset string).

Definition evidence_of_response (results : list TavilyItem) : Evidence :=
  let '(us, ss) := collect_items results in
  {| urls := list_set us; snippets := Py.join Py.nl ss |}.

(** [asyncio.gather] over one [tavily_client.search] per query: every call
    is issued (here in list order); the batch raises when a call raised. *)
Fixpoint gather_search (queries : list string) (max_results : nat)
    : M (list (option (list TavilyItem))) :=
  match queries with
  | [] => ret []
  | q :: rest =>
      do t <- tick;
      let r := tavily_client_search env t q max_results in
      log (EvSearch q max_results r) ;;;
      do rs <- gather_search rest max_results;
      ret (r :: rs)
  end.

Fixpoint all_responses (rs : list (option (list TavilyItem)))
    : option (list (list TavilyItem)) :=
  match rs with
  | [] => Some []
  | None :: _ => None
  | Some r :: rest =>
      match all_responses rest with
      | Some l => Some (r :: l)
      | None => None
      end
  end.

Definition tavily_search (queries : list string) (search_type : SearchType)
    : M (Py.dict Evidence) :=
  let max_results := match search_type with depth => 5 | breadth => 10 end in
  do rs <- gather_search queries max_results;
  match all_responses rs with
  | None => raise (CapabilityError "search")
  | Some responses =>
      ret (foldl (λ results_by_question qr,
                    Py.dict_set qr.1 (evidence_of_response qr.2) results_by_question)
                 [] (zip queries responses))
  end.

(** [SELECT id FROM sub_questions WHERE sub_question = ?] with [fetchone]:
    the first matching row of the table, whatever its run. *)
Definition select_sub_question_id (question : string) (w : World) : option nat :=
  sq_id <$> head (filter (λ r, sq_sub_question r = question) (sub_questions w)).

Definition select_summary (sub_question_id : nat) (w : World) : option (list string) :=
  sm_summary_json <$>
    head (filter (λ r, sm_sub_question_id r = sub_question_id) (sub_question_summaries w)).

(** [INSERT INTO sub_question_summaries]: [sub_question_id] is UNIQUE. *)
Definition insert_summary (sub_question_id : nat) (bullets : list string) : M unit :=
  do w <- get_world;
  if decide (sub_question_id ∈ sm_sub_question_id <$> sub_question_summaries w)
  then raise (IntegrityError "sub_question_summaries")
  else
    do t <- now;
    λ w, (Ok tt,
          set_sub_question_summaries
            (sub_question_summaries w ++
               [{| sm_id := next_id (sm_id <$> sub_question_summaries w);
                   sm_sub_question_id := sub_question_id;
                   sm_summary_json := bullets;
                   sm_created_at := t |}]) w).

(** The summary of one question whose row is [sub_question_id]: the cached
    one, or a fresh one that is stored. *)
Definition summary_for (sub_question_id : nat) (question : string) (data : Evidence)
    : M (list string) :=
  do w <- get_world;
  match select_summary sub_question_id w with
  | Some cached => ret cached
  | None =>
      do t <- tick;
      let r := analyzer_llm env t question (snippets data) in
      log (EvSummarize question (snippets data) r) ;;;
      match r with
      | None => raise (CapabilityError "analyzer_llm")
      | Some response =>
          let summary := extract_summary_from_response env response in
          insert_summary sub_question_id summary ;;;
          ret summary
      end
  end.

Fixpoint analyze_items (items : list (string * Evidence)) (analyzed : Py.dict Analysis)
    : M (Py.dict Analysis) :=
  match items with
  | [] => ret analyzed
  | (question, data) :: rest =>
      do w <- get_world;
      match select_sub_question_id question w with
      | None => analyze_items rest analyzed
      | Some sub_question_id =>
          do summary <- summary_for sub_question_id question data;
          analyze_items rest
            (Py.dict_set question {| summary := summary; a_urls := urls data |} analyzed)
      end
  end.

Definition analyze_sub_questions (search_results : Py.dict Evidence)
    : M (Py.dict Analysis) :=
  analyze_items search_results [].

Definition FINAL_PROMPT (original_query summaries : string) : string :=
  Py.nl +:+ "ORIGINAL QUERY:" +:+ Py.nl +:+ original_query +:+ Py.nl +:+ Py.nl
  +:+ "SUB-QUESTION SUMMARIES:" +:+ Py.nl +:+ summaries +:+ Py.nl +:+ Py.nl
  +:+ "Write a clear, structured, comprehensive answer that synthesizes all the information above."
  +:+ Py.nl.

Definition summaries_block (analyzed : Py.dict Analysis) : list string :=
  (λ qd, qd.1 +:+ Py.nl +:+ Py.join Py.nl ((λ b, "  - " +:+ b) <$> summary qd.2))
    <$> analyzed.

Definition generate_final_answer (original_query : string) (analyzed : Py.dict Analysis)
    : M string :=
  let prompt :=
    FINAL_PROMPT original_query (Py.join (Py.nl +:+ Py.nl) (summaries_block analyzed)) in
  do t <- tick;
  let r := final_llm env t prompt in
  log (EvSynthesize prompt r) ;;;
  match r with
  | None => raise (CapabilityError "final_llm")
  | Some content => ret content
  end.

(** [{row["sub_question"]: row["id"] for row in rows}]: a later row of the
    same text replaces an earlier one. *)
Definition sub_q_map_of (rows : list sub_questions_row) : gmap string nat :=
  foldl (λ m r, <[sq_sub_question r := sq_id r]> m) ∅ rows.

(** [sub_q_map.get(question)], with [if not sub_question_id] folded in:
    an absent key and the identifier 0 are both "no row". *)
Definition known_id (sub_q_map : gmap string nat) (question : string) : option nat :=
  match sub_q_map !! question with
  | Some (S n) => Some (S n)
  | _ => None
  end.

Definition depth_rows (sub_question_id : nat) (stored : list search_results_row)
    : list search_results_row :=
  filter (λ r, sr_sub_question_id r = sub_question_id ∧ sr_search_type r = "depth") stored.

(** The evidence assembled from stored rows. *)
Fixpoint collect_rows (rows : list search_results_row) : list string * list string :=
  match rows with
  | [] => ([], [])
  | r :: rest =>
      let '(us, ss) := collect_rows rest in
      ((if Py.truthy_opt (sr_url r) then option_list (sr_url r) else []) ++ us,
       (if Py.truthy_opt (sr_snippet r) then option_list (sr_snippet r) else []) ++ ss)
  end.

Definition evidence_of_rows (rows : list search_results_row) : Evidence :=
  let '(us, ss) := collect_rows rows in
  {| urls := list_set us; snippets := Py.join Py.nl ss |}.

(** One iteration of the search-cache check. *)
Definition cache_check_step
    (sub_q_map : gmap string nat) (stored : list search_results_row)
    (acc : Py.dict Evidence * list string) (question : string)
    : Py.dict Evidence * list string :=
  let '(cached_search_results, missing_questions) := acc in
  match known_id sub_q_map question with
  | None => (cached_search_results, missing_questions ++ [question])
  | Some sub_question_id =>
      match depth_rows sub_question_id stored with
      | [] => (cached_search_results, missing_questions ++ [question])
      | rows =>
          (Py.dict_set question (evidence_of_rows rows) cached_search_results,
           missing_questions)
      end
  end.

Definition search_cache_check
    (sub_q_map : gmap string nat) (stored : list search_results_row)
    (all_questions : list string) : Py.dict Evidence * list string :=
  foldl (cache_check_step sub_q_map stored) ([], []) all_questions.

Definition insert_search_result
    (sub_question_id : nat) (search_query search_type : string)
    (url snippet : option string) : M unit :=
  do t <- now;
  λ w, (Ok tt,
        set_search_results
          (search_results w ++
             [{| sr_id := next_id (sr_id <$> search_results w);
                 sr_sub_question_id := sub_question_id;
                 sr_search_query := search_query;
                 sr_search_type := search_type;
                 sr_url := url; sr_title := None; sr_snippet := snippet;
                 sr_score := None; sr_source_engine := "tavily";
                 sr_fetched_at := t |}]) w).

(** The rows written for one freshly searched question. *)
Definition persist_question (sub_q_map : gmap string nat) (qd : string * Evidence)
    : M unit :=
  let '(question, data) := qd in
  match known_id sub_q_map question with
  | None => ret tt
  | Some sub_question_id =>
      for_each (Py.nonempty_lines (snippets data))
        (λ snippet_block,
           insert_search_result sub_question_id question "depth" None (Some snippet_block)) ;;;
      for_each (urls data)
        (λ url, insert_search_result sub_question_id question "depth" (Some url) None)
  end.

(** Lines 257-372 of [run_pipeline]: the search-cache check, the search of
    the missing questions and the storing of what they returned.  The
    value is the dictionary [search_results]. *)
Definition gather_evidence
    (base_sub_questions follow_up_questions : list string) (run_id : string)
    : M (Py.dict Evidence) :=
  do w <- get_world;
  let sub_q_map := sub_q_map_of (rows_of_run run_id w) in
  let all_questions := Py.dedup_keys (base_sub_questions ++ follow_up_questions) in
  let '(cached_search_results, missing_questions) :=
    search_cache_check sub_q_map (search_results w) all_questions in
  do fresh_results <-
    match missing_questions with
    | [] => ret []
    | _ => tavily_search missing_questions depth
    end;
  let search_results := Py.dict_merge cached_search_results fresh_results in
  for_each fresh_results (persist_question sub_q_map) ;;;
  ret search_results.

Definition run_pipeline
    (original_query : string) (base_sub_questions follow_up_questions : list string)
    (run_id : string) : M string :=
  do search_results <- gather_evidence base_sub_questions follow_up_questions run_id;
  do analyzed <- analyze_sub_questions search_results;
  generate_final_answer original_query analyzed.

(** ** [llm_as_a_judge.py] *)

Definition run_judge
    (original_query : string) (sub_questions : list string)
    (final_answer run_id : string) : M JudgeResult :=
  let input :=
    {| ji_original_query := original_query;
       ji_sub_questions := Py.join Py.nl ((λ q, "- " +:+ q) <$> sub_questions);
       ji_final_answer := final_answer |} in
  do t <- tick;
  let r := judge_chain env t input in
  log (EvJudge input r) ;;;
  match r with
  | None => raise (CapabilityError "judge_chain")
  | Some result =>
      do ts <- now;
      (λ w, (Ok tt,
             set_judge_evaluations
               (judge_evaluations w ++
                  [{| je_id := next_id (je_id <$> judge_evaluations w);
                      je_research_run_id := run_id;
                      je_result := result;
                      je_evaluated_at := ts |}]) w)) ;;;
      ret result
  end.

(** ** [pipeline.py] *)

Definition MAX_PASSES : nat := 3.

(** The binary64 value of the literal [0.85]. *)
Definition CONFIDENCE_THRESHOLD : float := 0x1.b333333333333p-1%float.

(** The loop's variables. *)
Record LoopState := {
  follow_up_questions : list string;
  final_answer : option string;
  judge_result : option JudgeResult
}.

(** The questions a pass hands to [run_pipeline]: (base_qs, follow_qs). *)
Definition pass_questions
    (pass_idx : nat) (base_sub_questions follow_up_questions : list string)
    : list string * list string :=
  if (pass_idx =? 0)%nat then (base_sub_questions, [])
  else ([], follow_up_questions).

(** Lines 78-84: the recommendations not in the list so far, appended. *)
Definition add_new_followups (follow_up_questions recommended : list string)
    : list string :=
  let new_followups := filter (λ q, q ∉ follow_up_questions) recommended in
  follow_up_questions ++ new_followups.

(** [for pass_idx in passes], with [break] as an early return. *)
Fixpoint pass_loop
    (query run_id : string) (base_sub_questions : list string)
    (passes : list nat) (st : LoopState) : M LoopState :=
  match passes with
  | [] => ret st
  | pass_idx :: rest =>
      log (EvPassBanner pass_idx) ;;;
      let '(base_qs, follow_qs) :=
        pass_questions pass_idx base_sub_questions (follow_up_questions st) in
      do answer <- run_pipeline query base_qs follow_qs run_id;
      do result <- run_judge query (base_sub_questions ++ follow_up_questions st)
                     answer run_id;
      if PrimFloat.leb CONFIDENCE_THRESHOLD (confidence_score result) then
        ret {| follow_up_questions := follow_up_questions st;
               final_answer := Some answer;
               judge_result := Some result |}
      else
        pass_loop query run_id base_sub_questions rest
          {| follow_up_questions :=
               add_new_followups (follow_up_questions st) (recommended_follow_up result);
             final_answer := Some answer;
             judge_result := Some result |}
  end.

(** [UPDATE research_runs SET final_answer = ? WHERE id = ?] *)
Definition update_final_answer (answer run_id : string) : M unit :=
  λ w, (Ok tt,
        set_research_runs
          ((λ r, if decide (rr_id r = run_id)
                 then {| rr_id := rr_id r;
                         run_original_query := run_original_query r;
                         run_classification := run_classification r;
                         run_primary_intent := run_primary_intent r;
                         run_relationship := run_relationship r;
                         run_difficulty_level := run_difficulty_level r;
                         run_final_answer := Some answer;
                         run_markdown_path := run_markdown_path r;
                         run_html_path := run_html_path r;
                         run_created_at := run_created_at r |}
                 else r) <$> research_runs w) w).

(** The block "SAVE FINAL ANSWER": [if final_answer:] guards the update. *)
Definition save_final_answer (final_answer : option string) (run_id : string) : M unit :=
  if Py.truthy_opt final_answer
  then update_final_answer (default "" final_answer) run_id
  else ret tt.

Record RunOutput := {
  out_query : string;
  out_run_id : string;
  out_final_answer : option string;
  out_judge_evaluation : option JudgeResult
}.

Definition initial_loop_state : LoopState :=
  {| follow_up_questions := []; final_answer := None; judge_result := None |}.

(** Decomposition, the pass loop and the save. *)
Definition run_passes (query : string) : M (string * LoopState) :=
  do decomposition_result <- research_decomposition_pipeline query;
  let run_id := o_run_id decomposition_result in
  let base_sub_questions := d_sub_questions (o_decomposition decomposition_result) in
  do st <- pass_loop query run_id base_sub_questions (seq 0 MAX_PASSES)
             initial_loop_state;
  save_final_answer (final_answer st) run_id ;;;
  ret (run_id, st).

(** [ResearchPipeline.run]: after the save, the report is rendered and
    stored in the vector store; both are external. *)
Definition run (query : string) : M RunOutput :=
  do '(run_id, st) <- run_passes query;
  do t <- tick;
  let report := generate_report env t run_id in
  log (EvReport run_id report) ;;;
  match report with
  | None => raise (CapabilityError "generate_report")
  | Some md_text =>
      let text := "QUERY:" +:+ Py.nl +:+ query +:+ Py.nl +:+ Py.nl
                  +:+ "FINAL REPORT:" +:+ Py.nl +:+ md_text in
      do t' <- tick;
      let ok := store_run_vector env t' run_id text in
      log (EvStoreVector run_id text ok) ;;;
      if ok then
        ret {| out_query := query; out_run_id := run_id;
               out_final_answer := final_answer st;
               out_judge_evaluation := judge_result st |}
      else raise (CapabilityError "store_run_vector")
  end.

End Program.

Arguments DecompositionOutput : clear implicits.

(** ** Sample environments and stores *)

Module Scenario.

Definition verdict (score : float) (follow_up : list string) : JudgeResult :=
  {| overall_status := "NEEDS_MORE_RESEARCH";
     confidence_score := score;
     coverage_assessment := [];
     detected_gaps := [];
     recommended_follow_up := follow_up;
     termination_reasoning := "" |}.

Definition two_questions : RawDecomposition :=
  {| raw_sub_questions := [QText "Q1"; QDict [("factual", "Q2")]];
     raw_primary_intent := "explain";
     raw_relationship := "parallel";
     raw_difficulty_level := "simple" |}.

(** Every capability answers; the judge scores 0.6 and recommends the
    given follow-ups on every pass. *)
Definition env_with (answer : string) (follow_up : list string) : Env :=
  {| uuid4 := λ _, "run-1";
     current_timestamp := λ t, t;
     retrieve_context := λ _ _, Some "";
     classification_chain := λ _ _, Some "factual";
     decomposition_chain := λ _ _ _, Some two_questions;
     tavily_client_search :=
       λ _ q _, Some [ItemDict 0x1.ccccccccccccdp-1%float (Some ("http://" +:+ q)) "T" "C";
                      ItemOther];
     analyzer_llm := λ _ _ _, Some "{}";
     extract_summary_from_response := λ _, ["b1"; "b2"];
     final_llm := λ _ _, Some answer;
     judge_chain := λ _ _, Some (verdict 0x1.3333333333333p-1%float follow_up);
     generate_report := λ _ _, Some "# Research Report";
     store_run_vector := λ _ _ _, true |}.

Definition env_low : Env := env_with "answer" ["F1"].

(** The judge repeats one question inside a single recommendation list. *)
Definition env_repeat : Env := env_with "answer" ["F1"; "F1"].

(** The synthesis returns the empty string. *)
Definition env_empty_answer : Env := env_with "" ["F1"].


Definition empty_store : World :=
  {| research_runs := []; sub_questions := []; search_results := [];
     sub_question_summaries := []; judge_evaluations := []; trace := [] |}.


(** Two runs that both own a sub-question of text "Q". *)
Definition shared_store : World :=
  {| research_runs := [];
     sub_questions :=
       [{| sq_id := 1; sq_research_run_id := "run-A"; sq_sub_question := "Q";
           sq_position := 1; sq_created_at := 0 |};
        {| sq_id := 2; sq_research_run_id := "run-B"; sq_sub_question := "Q";
           sq_position := 1; sq_created_at := 5 |}];
     search_results := [];
     sub_question_summaries := [];
     judge_evaluations := [];
     trace := [] |}.

End Scenario.

(** * Vocabulary of the statements

    Definitions used to state the properties: the shape of the states the
    program reaches, how the trace is read, and what single steps compute. *)

(** Everything the program does after decomposition appends rows to three
    tables and events to the trace. *)
Definition grow (w : World)
    (sr : list search_results_row) (sm : list sub_question_summaries_row)
    (je : list judge_evaluations_row) (evs : list Event) : World :=
  {| research_runs := research_runs w;
     sub_questions := sub_questions w;
     search_results := search_results w ++ sr;
     sub_question_summaries := sub_question_summaries w ++ sm;
     judge_evaluations := judge_evaluations w ++ je;
     trace := trace w ++ evs |}.

(** The events one batch of search calls logs. *)
Definition search_events (queries : list string) (max_results : nat)
    (rs : list (option (list TavilyItem))) : list Event :=
  zip_with (λ q r, EvSearch q max_results r) queries rs.

(** The rows written for the fresh results belong to questions that have a
    row in the run. *)
Definition row_of_known (sub_q_map : gmap string nat) (questions : list string)
    (r : search_results_row) : Prop :=
  sr_search_query r ∈ questions ∧
  known_id sub_q_map (sr_search_query r) = Some (sr_sub_question_id r) ∧
  sr_search_type r = "depth".

(** The dictionary [tavily_search] builds from the responses. *)
Definition results_by_question (queries : list string)
    (responses : list (list TavilyItem)) : Py.dict Evidence :=
  foldl (λ results_by_question qr,
           Py.dict_set qr.1 (evidence_of_response qr.2) results_by_question)
        [] (zip queries responses).

(** What the cache check finds for one question: the stored evidence, or
    nothing (no row of the run for this text, or no stored depth row). *)
Definition cache_hit (sub_q_map : gmap string nat) (stored : list search_results_row)
    (question : string) : option Evidence :=
  match known_id sub_q_map question with
  | None => None
  | Some sub_question_id =>
      match depth_rows sub_question_id stored with
      | [] => None
      | rows => Some (evidence_of_rows rows)
      end
  end.

(** The capability an event belongs to. *)
Inductive Kind :=
| KUuid | KContext | KClassify | KDecompose | KSearch | KSummarize
| KSynthesize | KJudge | KBanner | KReport | KStore.

Definition kind (e : Event) : Kind :=
  match e with
  | EvUuid _ => KUuid
  | EvRetrieveContext _ _ => KContext
  | EvClassify _ _ => KClassify
  | EvDecompose _ _ _ => KDecompose
  | EvSearch _ _ _ => KSearch
  | EvSummarize _ _ _ => KSummarize
  | EvSynthesize _ _ => KSynthesize
  | EvJudge _ _ => KJudge
  | EvPassBanner _ => KBanner
  | EvReport _ _ => KReport
  | EvStoreVector _ _ _ => KStore
  end.

(** A call of the search or completion capability that raised. *)
Definition is_failed_call (e : Event) : bool :=
  match e with
  | EvSearch _ _ None | EvSummarize _ _ None | EvSynthesize _ None
  | EvJudge _ None => true
  | _ => false
  end.

(** The answer a synthesis call returned, the verdict a judge call
    returned. *)
Definition synthesized (e : Event) : option string :=
  match e with EvSynthesize _ (Some a) => Some a | _ => None end.

Definition judged (e : Event) : option JudgeResult :=
  match e with EvJudge _ (Some j) => Some j | _ => None end.

(** The candidate answer and the evaluation of the last pass that
    produced one. *)
Definition last_candidate (evs : list Event) : option string :=
  last (omap synthesized evs).

Definition last_verdict (evs : list Event) : option JudgeResult :=
  last (omap judged evs).

(** What [run_judge] hands to the judge chain. *)
Definition judge_input (original_query : string) (sub_qs : list string)
    (answer : string) : JudgeInput :=
  {| ji_original_query := original_query;
     ji_sub_questions := Py.join Py.nl ((λ q, "- " +:+ q) <$> sub_qs);
     ji_final_answer := answer |}.

(** The questions the cache check leaves to the search capability. *)
Definition missing_questions (base fu : list string) (run : string) (w : World)
    : list string :=
  (search_cache_check (sub_q_map_of (rows_of_run run w)) (search_results w)
     (Py.dedup_keys (base ++ fu))).2.

(** The loop variables once a pass has been judged. *)
Definition after_pass (fu : list string) (answer : string) (result : JudgeResult)
    : LoopState :=
  {| follow_up_questions := fu; final_answer := Some answer; judge_result := Some result |}.

(** The question is a cache hit of the run in this store. *)
Definition hit (run q : string) (w : World) : Prop :=
  is_Some (cache_hit (sub_q_map_of (rows_of_run run w)) (search_results w) q).

(** The threshold test that breaks the loop. *)
Definition threshold_met (result : JudgeResult) : bool :=
  PrimFloat.leb CONFIDENCE_THRESHOLD (confidence_score result).

(** The reply of a cache hit: the latest run of that query, with its
    sub-questions in position order. *)
Definition cached_output (query : string) (cached_run : research_runs_row) (w : World)
    : DecompositionOutput :=
  {| o_run_id := rr_id cached_run;
     o_original_query := query;
     o_classification := run_classification cached_run;
     o_decomposition :=
       {| d_sub_questions :=
            sq_sub_question <$> order_by_position (rows_of_run (rr_id cached_run) w);
          d_primary_intent := run_primary_intent cached_run;
          d_relationship := run_relationship cached_run;
          d_difficulty_level := run_difficulty_level cached_run |} |}.

(** The row the UPDATE of the final answer leaves. *)
Definition with_final_answer (answer run : string) (r : research_runs_row)
    : research_runs_row :=
  if decide (rr_id r = run)
  then {| rr_id := rr_id r;
          run_original_query := run_original_query r;
          run_classification := run_classification r;
          run_primary_intent := run_primary_intent r;
          run_relationship := run_relationship r;
          run_difficulty_level := run_difficulty_level r;
          run_final_answer := Some answer;
          run_markdown_path := run_markdown_path r;
          run_html_path := run_html_path r;
          run_created_at := run_created_at r |}
  else r.

Section Vocabulary.

Context (env : Env).

(** Every response of a batch is an answer of the search oracle. *)
Definition from_search_oracle (n : nat) (r : option (list TavilyItem)) : Prop :=
  ∃ t q, r = tavily_client_search env t q n.

(** One iteration up to the judge's verdict. *)
Definition pass_body (query run : string) (base : list string)
    (pass_idx : nat) (fu : list string) : M (string * JudgeResult) :=
  log (EvPassBanner pass_idx) ;;;
  do answer <- run_pipeline env query (pass_questions pass_idx base fu).1
                 (pass_questions pass_idx base fu).2 run;
  do result <- run_judge env query (base ++ fu) answer run;
  ret (answer, result).

(** What steps 1 and 2 compute from the oracles, started at event number
    [t]: the bound [memory_context], the category, the decomposition, and
    the events logged. *)
Definition classify_outcome (query : string) (t : nat)
    : option string * string * list Event :=
  match retrieve_context env t query with
  | None => (None, "ambiguous", [EvRetrieveContext query None])
  | Some memory_context =>
      let input := with_previous_context query memory_context in
      let r := classification_chain env (S t) input in
      (Some memory_context, default "ambiguous" r,
       [EvRetrieveContext query (Some memory_context); EvClassify input r])
  end.

(** Step 2 alone, given what step 1 bound. *)
Definition decompose_outcome (query : string) (memory_context : option string)
    (query_type : string) (t : nat) : Decomposition * list Event :=
  match memory_context with
  | None => (fallback_decomposition query, [])
  | Some ctx =>
      let input := with_previous_context query ctx in
      let r := decomposition_chain env t input query_type in
      (match r with
       | Some raw =>
           {| d_sub_questions := normalize_sub_questions (raw_sub_questions raw);
              d_primary_intent := raw_primary_intent raw;
              d_relationship := raw_relationship raw;
              d_difficulty_level := raw_difficulty_level raw |}
       | None => fallback_decomposition query
       end, [EvDecompose input query_type r])
  end.

(** The state after a cache miss with a new identifier. *)
Record resolved (query : string) (w : World) (out : DecompositionOutput) (w1 : World)
    : Prop := {
  res_id : o_run_id out = uuid4 env (length (trace w));
  res_outcome :
    let c := classify_outcome query (S (length (trace w))) in
    let d := decompose_outcome query c.1.1 c.1.2
               (S (length (trace w)) + length c.2) in
    o_classification out = c.1.2 ∧ o_decomposition out = d.1 ∧
    trace w1 = trace w ++ EvUuid (o_run_id out) :: c.2 ++ d.2;
  res_run :
    ∃ row, research_runs w1 = research_runs w ++ [row] ∧
           rr_id row = o_run_id out ∧ run_original_query row = query ∧
           run_classification row = o_classification out ∧
           run_final_answer row = None;
  res_rows :
    ∃ rows, sub_questions w1 = sub_questions w ++ rows ∧
            sq_sub_question <$> rows = d_sub_questions (o_decomposition out) ∧
            Forall (λ r, sq_research_run_id r = o_run_id out) rows ∧
            sq_position <$> rows = seq 1 (length rows);
  res_frame :
    search_results w1 = search_results w ∧
    sub_question_summaries w1 = sub_question_summaries w ∧
    judge_evaluations w1 = judge_evaluations w
}.

End Vocabulary.

(** * The store's constraints and a program logic

    [database.py] declares primary keys, one UNIQUE column and foreign
    keys.  [store_ok] is their conjunction; [hoare] is the triple used to
    carry such invariants through the monadic code, with one postcondition
    for a normal return and one for an exception. *)

Record store_ok (w : World) : Prop := {
  pk_research_runs : NoDup (rr_id <$> research_runs w);
  pk_sub_questions : NoDup (sq_id <$> sub_questions w);
  pk_search_results : NoDup (sr_id <$> search_results w);
  pk_summaries : NoDup (sm_id <$> sub_question_summaries w);
  pk_evaluations : NoDup (je_id <$> judge_evaluations w);
  uq_summaries : NoDup (sm_sub_question_id <$> sub_question_summaries w);
  fk_sub_questions :
    ∀ r, r ∈ sub_questions w → sq_research_run_id r ∈ rr_id <$> research_runs w;
  fk_search_results :
    ∀ r, r ∈ search_results w → sr_sub_question_id r ∈ sq_id <$> sub_questions w;
  fk_summaries :
    ∀ r, r ∈ sub_question_summaries w →
         sm_sub_question_id r ∈ sq_id <$> sub_questions w;
  fk_evaluations :
    ∀ r, r ∈ judge_evaluations w → je_research_run_id r ∈ rr_id <$> research_runs w
}.

Definition hoare {A} (P : World → Prop) (m : M A)
    (Q : A → World → Prop) (E : Exn → World → Prop) : Prop :=
  ∀ w, P w →
       match m w with
       | (Ok a, w') => Q a w'
       | (Raise e, w') => E e w'
       end.

(** The exceptions a run can end with: a failed capability call, or the
    primary key of [research_runs] refusing the new identifier. *)
Definition expected_error (e : Exn) : Prop :=
  e = IntegrityError "research_runs" ∨ ∃ what, e = CapabilityError what.

(** Rows are only ever added: every table of [w] is a prefix of the same
    table of [w'], the runs up to their [final_answer]. *)
Definition forget_answer (r : research_runs_row) : research_runs_row :=
  {| rr_id := rr_id r;
     run_original_query := run_original_query r;
     run_classification := run_classification r;
     run_primary_intent := run_primary_intent r;
     run_relationship := run_relationship r;
     run_difficulty_level := run_difficulty_level r;
     run_final_answer := None;
     run_markdown_path := run_markdown_path r;
     run_html_path := run_html_path r;
     run_created_at := run_created_at r |}.

Record extends (w w' : World) : Prop := {
  ext_runs :
    (forget_answer <$> research_runs w) `prefix_of` (forget_answer <$> research_runs w');
  ext_sub_questions : sub_questions w `prefix_of` sub_questions w';
  ext_search_results : search_results w `prefix_of` search_results w';
  ext_summaries : sub_question_summaries w `prefix_of` sub_question_summaries w';
  ext_evaluations : judge_evaluations w `prefix_of` judge_evaluations w';
  ext_trace : trace w `prefix_of` trace w'
}.

(** One step of the program: rows are only added, and the constraints
    survive. *)
Definition good_step (w w' : World) : Prop :=
  extends w w' ∧ (store_ok w → store_ok w').

(** What holds when a step of a run started in [w0] raises. *)
Definition failing (w0 : World) (e : Exn) (w : World) : Prop :=
  good_step w0 w ∧ expected_error e.

(** The verdicts that did not stop the loop. *)
Definition below_threshold (result : JudgeResult) : Prop :=
  threshold_met result = false.

(** The follow-up list after the merges of a sequence of verdicts. *)
Definition merge_verdicts (fu : list string) (verdicts : list JudgeResult)
    : list string :=
  foldl (λ fu j, add_new_followups fu (recommended_follow_up j)) fu verdicts.

(** ** Further sample environments *)

Module Cases.



End Cases.

(** An item the loop of [tavily_search] keeps: a dictionary whose score
    exceeds 0.5. *)
Definition accepted (item : TavilyItem) : bool :=
  match item with
  | ItemDict score _ _ _ => PrimFloat.ltb 0x1p-1%float score
  | ItemOther => false
  end.

Definition item_url (item : TavilyItem) : option string :=
  match item with
  | ItemDict _ url _ _ => url
  | ItemOther => None
  end.

(** [max_results = 5 if search_type == "depth" else 10] *)
Definition max_results_of (search_type : SearchType) : nat :=
  match search_type with depth => 5 | breadth => 10 end.

(** The summaries table has only grown and the sub-questions are the
    same. *)
Definition summaries_added (w w' : World) : Prop :=
  sub_questions w' = sub_questions w ∧
  sub_question_summaries w `prefix_of` sub_question_summaries w'.

Definition is_search_call (e : Event) : bool :=
  match e with EvSearch _ _ _ => true | _ => false end.

(** ** [report_generation.py]

    [generate_report] reads the store and writes a markdown file and an
    HTML file.  What is modelled is the list [md] of the lines of the
    markdown text, and the [ValueError] of an unknown run ([None]); the
    directories and files themselves are left out. *)

Module Report.

(** The order of [sorted] on strings. *)
Definition string_le (s1 s2 : string) : Prop := String.leb s1 s2 = true.

#[global] Instance string_le_dec : RelDecision string_le.
Proof. intros s1 s2. unfold string_le. apply _. Defined.

(** [str(n)] for a natural number. *)
Definition decimal (n : nat) : string := NilZero.string_of_uint (Nat.to_uint n).

(** [SELECT * FROM research_runs WHERE id = ?] with [fetchone] *)
Definition fetch_run (run_id : string) (w : World) : option research_runs_row :=
  head (filter (λ r, rr_id r = run_id) (research_runs w)).

(** [SELECT id, sub_question, position FROM sub_questions
     WHERE research_run_id = ? ORDER BY position] *)
Definition fetch_sub_questions (run_id : string) (w : World) : list sub_questions_row :=
  order_by_position (rows_of_run run_id w).

(** [SELECT url FROM search_results WHERE sub_question_id = ? AND url IS
    NOT NULL], for every identifier, into the set [sources]. *)
Definition fetch_sources (sub_question_ids : list nat) (w : World) : gset string :=
  list_to_set
    (concat ((λ sq_id, omap sr_url (filter (λ r, sr_sub_question_id r = sq_id)
                                      (search_results w)))
               <$> sub_question_ids)).

(** [ORDER BY evaluated_at DESC LIMIT 1]; among rows of equal timestamp
    the earliest inserted is kept. *)
Definition later_evaluation (best : option judge_evaluations_row)
    (r : judge_evaluations_row) : option judge_evaluations_row :=
  match best with
  | None => Some r
  | Some b => if (je_evaluated_at b <? je_evaluated_at r)%nat then Some r else Some b
  end.

Definition fetch_judge (run_id : string) (w : World) : option judge_evaluations_row :=
  foldl later_evaluation None
    (filter (λ r, je_research_run_id r = run_id) (judge_evaluations w)).

(** The block [if judge:]. *)
Definition follow_up_lines (judge : option judge_evaluations_row) : list string :=
  match judge with
  | None => []
  | Some j =>
      match recommended_follow_up (je_result j) with
      | [] => []
      | followups =>
          "### Recommended Follow-Up Questions"
          :: ((λ fq, "- " +:+ fq) <$> followups) ++ [""]
      end
  end.

(** The list [md]. *)
Definition md_lines (run_id : string) (w : World) : option (list string) :=
  match fetch_run run_id w with
  | None => None
  | Some run =>
      let sub_questions := fetch_sub_questions run_id w in
      let sub_question_ids := sq_id <$> sub_questions in
      let sources := fetch_sources sub_question_ids w in
      let judge := fetch_judge run_id w in
      Some
        (["# Research Report" +:+ Py.nl;
          "## Original Query";
          run_original_query run +:+ Py.nl;
          "## Query Classification";
          "- Type: **" +:+ run_classification run +:+ "**";
          "- Difficulty: **" +:+ run_difficulty_level run +:+ "**";
          "- Relationship: **" +:+ run_relationship run +:+ "**" +:+ Py.nl;
          "## Decomposed Sub-Questions"]
         ++ ((λ row, decimal (sq_position row) +:+ ". " +:+ sq_sub_question row)
               <$> sub_questions)
         ++ [""; "## Final Answer";
             (if Py.truthy_opt (run_final_answer run)
              then default "" (run_final_answer run)
              else "Not available") +:+ Py.nl;
             "## Sources"]
         ++ ((λ url, "- " +:+ url) <$> merge_sort string_le (elements sources))
         ++ [""]
         ++ follow_up_lines judge)
  end.

(** [md_content = "\n".join(md)], the text of the markdown file. *)
Definition md_content (run_id : string) (w : World) : option string :=
  Py.join Py.nl <$> md_lines run_id w.

End Report.

(** The queries of the stored runs, in insertion order. *)
Definition stored_queries (w : World) : list string :=
  run_original_query <$> research_runs w.

(** ** [app.py]: the helper [extract_sources]

    Strings are taken as sequences of one-byte characters; [md_text.upper()]
    is [Py.upper], and the white space of [\S] is the ASCII white space of
    Python's [re] for [str] patterns. *)

Module App.

(** [s] without the prefix [p], when it has that prefix. *)
Fixpoint strip_prefix (p s : string) : option string :=
  match p, s with
  | EmptyString, _ => Some s
  | String a p', String b s' => if Ascii.eqb a b then strip_prefix p' s' else None
  | String _ _, EmptyString => None
  end.

(** [s.split(pat, 1)[1]] when [pat in s]: the text after the first
    occurrence of [pat]. *)
Fixpoint after_first (pat s : string) : option string :=
  match strip_prefix pat s with
  | Some rest => Some rest
  | None =>
      match s with
      | EmptyString => None
      | String _ s' => after_first pat s'
      end
  end.

(** The characters [\s] matches below 128: tab to carriage return, the
    four separators 28 to 31, and the space. *)
Definition is_space (a : ascii) : bool :=
  let n := nat_of_ascii a in
  ((9 <=? n)%nat && (n <=? 13)%nat) || ((28 <=? n)%nat && (n <=? 32)%nat).

(** The longest prefix [\S*] matches. *)
Fixpoint non_space_run (s : string) : string :=
  match s with
  | EmptyString => EmptyString
  | String a s' => if is_space a then EmptyString else String a (non_space_run s')
  end.

(** A match of [scheme\S+] at the start of [s]. *)
Definition match_scheme (scheme s : string) : option string :=
  match strip_prefix scheme s with
  | None => None
  | Some rest =>
      match non_space_run rest with
      | EmptyString => None
      | run => Some (scheme +:+ run)
      end
  end.

(** A match of [https?://\S+] at the start of [s]: the optional [s] is
    tried first. *)
Definition match_url (s : string) : option string :=
  match match_scheme "https://" s with
  | Some m => Some m
  | None => match_scheme "http://" s
  end.

(** [re.findall]: the matches from left to right, the scan resuming after
    each match; [skip] characters are still covered by the last match. *)
Fixpoint findall_from (skip : nat) (s : string) : list string :=
  match s with
  | EmptyString => []
  | String _ s' =>
      match skip with
      | S k => findall_from k s'
      | O =>
          match match_url s with
          | Some m => m :: findall_from (String.length m - 1) s'
          | None => findall_from 0 s'
          end
      end
  end.

Definition findall_urls (s : string) : list string := findall_from 0 s.

Definition extract_sources (md_text : string) : list string :=
  let sources :=
    match after_first "SOURCES" (Py.upper md_text) with
    | Some section => findall_urls section
    | None => []
    end in
  Py.dedup_keys sources.

End App.


(** The text holds a lower-case [h]. *)
Fixpoint has_h (s : string) : bool :=
  match s with
  | EmptyString => false
  | String a s' => Ascii.eqb a "h" || has_h s'
  end.

(** ** Stored evidence and resolved identifiers *)

(** A column value that is neither NULL nor the empty string. *)
Definition nonempty (o : option string) : option string :=
  match o with
  | Some t => if Py.truthy t then Some t else None
  | None => None
  end.

(** Stored evidence sits under the identifier its question resolves to: a
    [sub_questions] row that a [search_results] row refers to is the row
    the text-to-id dictionary of its run gives for its text. *)
Definition evidence_resolved (w : World) : Prop :=
  ∀ s r,
    s ∈ search_results w → r ∈ sub_questions w → sr_sub_question_id s = sq_id r →
    known_id (sub_q_map_of (rows_of_run (sq_research_run_id r) w)) (sq_sub_question r)
    = Some (sq_id r).

(** A search row written for a question the run's dictionary resolves. *)
Definition stored_for (run : string) (w : World) (s : search_results_row) : Prop :=
  ∃ q, known_id (sub_q_map_of (rows_of_run run w)) q = Some (sr_sub_question_id s).

(** * Properties *)

(** ** Follow-up merge (lines 78-84 of [pipeline.py]) *)

Lemma add_new_followups_prefix (fu recommended : list string) :
  fu `prefix_of` add_new_followups fu recommended.
Proof. unfold add_new_followups. by apply prefix_app_r. Qed.

Lemma add_new_followups_length (fu recommended : list string) :
  (length fu ≤ length (add_new_followups fu recommended))%nat.
Proof. apply prefix_length, add_new_followups_prefix. Qed.

Lemma add_new_followups_elem (fu recommended : list string) (q : string) :
  q ∈ add_new_followups fu recommended ↔ q ∈ fu ∨ q ∈ recommended.
Proof.
  unfold add_new_followups. rewrite elem_of_app, list_elem_of_filter.
  destruct (decide (q ∈ fu)); naive_solver.
Qed.

(** Without a repetition inside the recommended list, the merge keeps the
    list free of duplicates. *)
Lemma add_new_followups_NoDup (fu recommended : list string) :
  NoDup fu → NoDup recommended → NoDup (add_new_followups fu recommended).
Proof.
  intros Hfu Hrec. unfold add_new_followups. apply NoDup_app. split; [done|].
  split; [|by apply NoDup_filter].
  intros q Hq Hq'. apply list_elem_of_filter in Hq'. naive_solver.
Qed.

(** C5, at a failing input: the judge's list of pass 1 names "F1" twice;
    the merge checks each recommendation against the list as it was before
    the merge only, so the follow-up list of the run holds "F1" twice. *)
Theorem C5_repeated_recommendation_kept_twice :
  add_new_followups [] ["F1"; "F1"] = ["F1"; "F1"] ∧
  ∃ run st w',
    run_passes Scenario.env_repeat "query" Scenario.empty_store = (Ok (run, st), w') ∧
    follow_up_questions st = ["F1"; "F1"] ∧
    ¬ NoDup (follow_up_questions st).
Proof.
  split; [reflexivity|].
  eexists _, _, _. split; [vm_compute; reflexivity|]. cbn. split; [reflexivity|].
  intros Hnd. apply NoDup_cons in Hnd as [Hin _]. apply Hin. left.
Qed.

(** ** Python helpers *)

Lemma fromkeys_elem (seen l : list string) (q : string) :
  q ∈ Py.fromkeys seen l ↔ q ∈ l ∧ q ∉ seen.
Proof.
  revert seen. induction l as [|x l IH]; intros seen; cbn.
  - rewrite elem_of_nil. set_solver.
  - destruct (decide (x ∈ seen)).
    + rewrite IH, elem_of_cons. naive_solver.
    + rewrite !elem_of_cons, IH, elem_of_cons.
      destruct (decide (q = x)); naive_solver.
Qed.

Lemma fromkeys_NoDup (seen l : list string) : NoDup (Py.fromkeys seen l).
Proof.
  revert seen. induction l as [|x l IH]; intros seen; cbn; [constructor|].
  destruct (decide (x ∈ seen)); [apply IH|].
  constructor; [|apply IH]. rewrite fromkeys_elem. set_solver.
Qed.

Lemma dedup_keys_elem (l : list string) (q : string) : q ∈ Py.dedup_keys l ↔ q ∈ l.
Proof. unfold Py.dedup_keys. rewrite fromkeys_elem. set_solver. Qed.

Lemma dedup_keys_NoDup (l : list string) : NoDup (Py.dedup_keys l).
Proof. apply fromkeys_NoDup. Qed.

Section Dict.
Context {V : Type}.
Implicit Types (d : Py.dict V) (k : string) (v : V).

Lemma dict_get_set_eq d k v : Py.dict_get (Py.dict_set k v d) k = Some v.
Proof.
  induction d as [|[k' v'] d IH]; cbn.
  - by rewrite decide_True.
  - destruct (decide (k' = k)) as [->|Hne]; cbn.
    + by rewrite decide_True.
    + by rewrite decide_False.
Qed.

Lemma dict_get_set_ne d k k' v :
  k' ≠ k → Py.dict_get (Py.dict_set k' v d) k = Py.dict_get d k.
Proof.
  intros Hne. induction d as [|[k0 v0] d IH]; cbn.
  - by rewrite decide_False.
  - destruct (decide (k0 = k')) as [->|Hne']; cbn.
    + by rewrite !decide_False.
    + destruct (decide (k0 = k)); [done|apply IH].
Qed.

Lemma keys_dict_set d k k' v :
  k ∈ Py.keys (Py.dict_set k' v d) ↔ k = k' ∨ k ∈ Py.keys d.
Proof.
  unfold Py.keys. induction d as [|[k0 v0] d IH]; cbn.
  - rewrite list_elem_of_singleton, elem_of_nil. naive_solver.
  - destruct (decide (k0 = k')) as [->|Hne]; cbn.
    + rewrite !elem_of_cons. naive_solver.
    + rewrite !elem_of_cons, IH. naive_solver.
Qed.

Lemma dict_get_None d k : Py.dict_get d k = None ↔ k ∉ Py.keys d.
Proof.
  unfold Py.keys. induction d as [|[k0 v0] d IH]; cbn.
  - rewrite elem_of_nil. naive_solver.
  - rewrite not_elem_of_cons. destruct (decide (k0 = k)); naive_solver.
Qed.

Lemma dict_merge_get_l d1 d2 k :
  k ∉ Py.keys d2 → Py.dict_get (Py.dict_merge d1 d2) k = Py.dict_get d1 k.
Proof.
  unfold Py.dict_merge, Py.keys. revert d1.
  induction d2 as [|[k0 v0] d2 IH]; intros d1 Hk; cbn; [done|].
  cbn in Hk. apply not_elem_of_cons in Hk as [Hne Hk].
  rewrite IH by done. apply dict_get_set_ne. congruence.
Qed.

Lemma dict_merge_cons d1 k0 v0 d2 :
  Py.dict_merge d1 ((k0, v0) :: d2) = Py.dict_merge (Py.dict_set k0 v0 d1) d2.
Proof. reflexivity. Qed.

Lemma keys_dict_merge d1 d2 k :
  k ∈ Py.keys (Py.dict_merge d1 d2) ↔ k ∈ Py.keys d1 ∨ k ∈ Py.keys d2.
Proof.
  revert d1. induction d2 as [|[k0 v0] d2 IH]; intros d1.
  - replace (Py.keys (@nil (string * V))) with (@nil string) by done.
    rewrite elem_of_nil. unfold Py.dict_merge. cbn. naive_solver.
  - rewrite dict_merge_cons, IH, keys_dict_set.
    replace (Py.keys ((k0, v0) :: d2)) with (k0 :: Py.keys d2) by done.
    rewrite elem_of_cons. naive_solver.
Qed.

End Dict.

(** ** The state monad *)

Arguments bind : simpl never.
Arguments ret : simpl never.
Arguments raise : simpl never.
Arguments log : simpl never.
Arguments tick : simpl never.
Arguments now : simpl never.
Arguments get_world : simpl never.

Lemma tick_eq w : tick w = (Ok (length (trace w)), w).
Proof. reflexivity. Qed.

Lemma now_eq env w : now env w = (Ok (current_timestamp env (length (trace w))), w).
Proof. reflexivity. Qed.

Lemma get_world_eq w : get_world w = (Ok w, w).
Proof. reflexivity. Qed.

Lemma ret_eq {A} (a : A) w : ret a w = (Ok a, w).
Proof. reflexivity. Qed.

Lemma grow_nil w : grow w [] [] [] [] = w.
Proof. destruct w. unfold grow. cbn. by rewrite !app_nil_r. Qed.

Lemma grow_grow w sr sm je evs sr' sm' je' evs' :
  grow (grow w sr sm je evs) sr' sm' je' evs'
  = grow w (sr ++ sr') (sm ++ sm') (je ++ je') (evs ++ evs').
Proof. unfold grow. cbn. by rewrite !app_assoc. Qed.

Lemma new_events_grow w sr sm je evs : new_events w (grow w sr sm je evs) = evs.
Proof. unfold new_events. cbn. by rewrite drop_app_length. Qed.

Lemma log_grow e w : log e w = (Ok tt, grow w [] [] [] [e]).
Proof. destruct w. unfold log, grow. cbn. by rewrite !app_nil_r. Qed.

Lemma bind_Ok {A B} (m : M A) (k : A → M B) w a w1 :
  m w = (Ok a, w1) → bind m k w = k a w1.
Proof. unfold bind. by intros ->. Qed.

Lemma bind_Raise {A B} (m : M A) (k : A → M B) w e w1 :
  m w = (Raise e, w1) → bind m k w = (Raise e, w1).
Proof. unfold bind. by intros ->. Qed.

Lemma count_events_app p l1 l2 :
  count_events p (l1 ++ l2) = (count_events p l1 + count_events p l2)%nat.
Proof. unfold count_events. by rewrite List.filter_app, length_app. Qed.

Lemma count_events_cons p e l :
  count_events p (e :: l) = ((if p e then 1 else 0) + count_events p l)%nat.
Proof. unfold count_events. cbn. by destruct (p e). Qed.

Lemma count_events_0 p l :
  count_events p l = 0%nat ↔ Forall (λ e, p e = false) l.
Proof.
  unfold count_events. induction l as [|e l IH]; cbn.
  - split; [constructor|done].
  - destruct (p e) eqn:He; cbn.
    + split; [done|]. intros H. apply Forall_cons in H as [H _]. congruence.
    + rewrite IH. split; [by constructor|]. intros H. by apply Forall_cons in H as [_ H].
Qed.

(** ** Evidence gathering ([query_search.py], lines 257-372) *)

Section Gather.

Context (env : Env).

Lemma insert_search_result_grow sid q st url snip w :
  ∃ row,
    insert_search_result env sid q st url snip w = (Ok tt, grow w [row] [] [] []) ∧
    sr_sub_question_id row = sid ∧ sr_search_query row = q ∧
    sr_search_type row = st ∧ sr_url row = url ∧ sr_snippet row = snip.
Proof.
  eexists. split.
  - unfold insert_search_result. rewrite (bind_Ok _ _ _ _ _ (now_eq env w)).
    unfold grow, set_search_results. rewrite !app_nil_r. reflexivity.
  - done.
Qed.

(** A loop whose body only appends search rows appends search rows. *)
Lemma for_each_grow {A} (body : A → M unit) (P : search_results_row → Prop) xs :
  (∀ x w, x ∈ xs → ∃ rows, body x w = (Ok tt, grow w rows [] [] []) ∧ Forall P rows) →
  ∀ w, ∃ rows, for_each xs body w = (Ok tt, grow w rows [] [] []) ∧ Forall P rows.
Proof.
  induction xs as [|x xs IH]; intros Hbody w; cbn.
  - exists []. rewrite ret_eq. by rewrite grow_nil.
  - destruct (Hbody x w) as (rows1 & Hx & HP1); [left|].
    destruct (IH (λ y w' Hy, Hbody y w' (list_elem_of_further _ _ _ Hy))
                (grow w rows1 [] [] [])) as (rows2 & Hxs & HP2).
    exists (rows1 ++ rows2). split; [|by apply Forall_app].
    rewrite (bind_Ok _ _ _ _ _ Hx), Hxs. by rewrite grow_grow.
Qed.

Lemma persist_question_grow sub_q_map question data w :
  ∃ rows,
    persist_question env sub_q_map (question, data) w = (Ok tt, grow w rows [] [] []) ∧
    Forall (row_of_known sub_q_map [question]) rows.
Proof.
  unfold persist_question.
  destruct (known_id sub_q_map question) as [sid|] eqn:Hk.
  - destruct (for_each_grow
                (λ b, insert_search_result env sid question "depth" None (Some b))
                (row_of_known sub_q_map [question])
                (Py.nonempty_lines (snippets data))) with (w := w) as (rows1 & H1 & HP1).
    { intros b w' _.
      destruct (insert_search_result_grow sid question "depth" None (Some b) w')
        as (row & Hrow & Hsid & Hq & Ht & _).
      exists [row]. split; [done|]. constructor; [|constructor].
      unfold row_of_known. rewrite Hq, Hsid, Ht. set_solver. }
    destruct (for_each_grow
                (λ url, insert_search_result env sid question "depth" (Some url) None)
                (row_of_known sub_q_map [question])
                (urls data)) with (w := grow w rows1 [] [] []) as (rows2 & H2 & HP2).
    { intros b w' _.
      destruct (insert_search_result_grow sid question "depth" (Some b) None w')
        as (row & Hrow & Hsid & Hq & Ht & _).
      exists [row]. split; [done|]. constructor; [|constructor].
      unfold row_of_known. rewrite Hq, Hsid, Ht. set_solver. }
    exists (rows1 ++ rows2). split; [|by apply Forall_app].
    rewrite (bind_Ok _ _ _ _ _ H1), H2. by rewrite grow_grow.
  - exists []. rewrite ret_eq. by rewrite grow_nil.
Qed.

Lemma row_of_known_mono sub_q_map l1 l2 r :
  l1 ⊆ l2 → row_of_known sub_q_map l1 r → row_of_known sub_q_map l2 r.
Proof. unfold row_of_known. set_solver. Qed.

Lemma persist_grow sub_q_map (fresh : Py.dict Evidence) w :
  ∃ rows,
    for_each fresh (persist_question env sub_q_map) w = (Ok tt, grow w rows [] [] []) ∧
    Forall (row_of_known sub_q_map (Py.keys fresh)) rows.
Proof.
  apply for_each_grow. intros [question data] w' Hin.
  destruct (persist_question_grow sub_q_map question data w') as (rows & H & HP).
  exists rows. split; [done|].
  eapply Forall_impl; [exact HP|]. intros r. apply row_of_known_mono.
  intros q Hq. apply list_elem_of_singleton in Hq as ->.
  unfold Py.keys. apply list_elem_of_fmap. by exists (question, data).
Qed.

Lemma gather_search_grow queries n w :
  ∃ rs,
    gather_search env queries n w = (Ok rs, grow w [] [] [] (search_events queries n rs)) ∧
    length rs = length queries ∧ Forall (from_search_oracle env n) rs.
Proof.
  revert w. induction queries as [|q queries IH]; intros w; cbn.
  - exists []. rewrite ret_eq. cbn. by rewrite grow_nil.
  - rewrite (bind_Ok _ _ _ _ _ (tick_eq w)).
    set (r := tavily_client_search env (length (trace w)) q n).
    rewrite (bind_Ok _ _ _ _ _ (log_grow _ _)).
    destruct (IH (grow w [] [] [] [EvSearch q n r])) as (rs & Hrs & Hlen & Hor).
    exists (r :: rs). rewrite (bind_Ok _ _ _ _ _ Hrs), ret_eq.
    rewrite grow_grow. cbn. split_and!; [done|by rewrite Hlen|].
    constructor; [|done]. by eexists _, _.
Qed.

Lemma tavily_search_grow queries w :
  ∃ rs,
    length rs = length queries ∧ Forall (from_search_oracle env 5) rs ∧
    tavily_search env queries depth w
    = (match all_responses rs with
       | None => Raise (CapabilityError "search")
       | Some responses => Ok (results_by_question queries responses)
       end, grow w [] [] [] (search_events queries 5 rs)).
Proof.
  destruct (gather_search_grow queries 5 w) as (rs & Hrs & Hlen & Hor).
  exists rs. split_and!; [done|done|]. unfold tavily_search.
  rewrite (bind_Ok _ _ _ _ _ Hrs). by destruct (all_responses rs).
Qed.

Lemma all_responses_length rs responses :
  all_responses rs = Some responses → length responses = length rs.
Proof.
  revert responses. induction rs as [|[r|] rs IH]; intros responses; cbn; [naive_solver| |done].
  destruct (all_responses rs); [|done]. intros [= <-]. cbn. f_equal. by apply IH.
Qed.

Lemma all_responses_None rs :
  all_responses rs = None ↔ None ∈ rs.
Proof.
  induction rs as [|[r|] rs IH]; cbn.
  - rewrite elem_of_nil. naive_solver.
  - rewrite elem_of_cons. destruct (all_responses rs); naive_solver.
  - rewrite elem_of_cons. naive_solver.
Qed.

Lemma keys_foldl_dict_set {V W} (f : W → V) (l : list (string * W)) (acc : Py.dict V) k :
  k ∈ Py.keys (foldl (λ d qr, Py.dict_set qr.1 (f qr.2) d) acc l)
  ↔ k ∈ Py.keys acc ∨ k ∈ l.*1.
Proof.
  revert acc. induction l as [|[q r] l IH]; intros acc.
  - cbn. rewrite elem_of_nil. naive_solver.
  - change (foldl ?g acc ((q, r) :: l)) with (foldl g (g acc (q, r)) l).
    rewrite IH, keys_dict_set. cbn. rewrite elem_of_cons. naive_solver.
Qed.

Lemma keys_results_by_question queries responses k :
  length responses = length queries →
  k ∈ Py.keys (results_by_question queries responses) ↔ k ∈ queries.
Proof.
  intros Hlen. unfold results_by_question.
  rewrite (keys_foldl_dict_set evidence_of_response).
  rewrite fst_zip by lia.
  replace (Py.keys (@nil (string * Evidence))) with (@nil string) by done.
  rewrite elem_of_nil. naive_solver.
Qed.

Lemma gather_evidence_unfold base fu run w :
  gather_evidence env base fu run w
  = let sub_q_map := sub_q_map_of (rows_of_run run w) in
    let check := search_cache_check sub_q_map (search_results w)
                   (Py.dedup_keys (base ++ fu)) in
    (do fresh_results <-
       match check.2 with
       | [] => ret []
       | _ => tavily_search env check.2 depth
       end;
     for_each fresh_results (persist_question env sub_q_map) ;;;
     ret (Py.dict_merge check.1 fresh_results)) w.
Proof.
  unfold gather_evidence. rewrite (bind_Ok _ _ _ _ _ (get_world_eq w)).
  cbv zeta. by destruct (search_cache_check _ _ _).
Qed.

(** The whole of [gather_evidence], in terms of the cache check. *)
Lemma gather_evidence_grow base fu run w :
  let sub_q_map := sub_q_map_of (rows_of_run run w) in
  let check := search_cache_check sub_q_map (search_results w)
                 (Py.dedup_keys (base ++ fu)) in
  ∃ rs rows,
    length rs = length check.2 ∧ Forall (from_search_oracle env 5) rs ∧
    gather_evidence env base fu run w
    = (match all_responses rs with
       | None => Raise (CapabilityError "search")
       | Some responses =>
           Ok (Py.dict_merge check.1 (results_by_question check.2 responses))
       end,
       grow w rows [] [] (search_events check.2 5 rs)) ∧
    Forall (row_of_known sub_q_map check.2) rows.
Proof.
  intros sub_q_map check. rewrite gather_evidence_unfold. cbv zeta.
  fold sub_q_map. fold check. destruct check as [cached missing]. cbn [fst snd].
  destruct missing as [|q0 missing'].
  - exists [], []. rewrite (bind_Ok _ _ _ _ _ (ret_eq _ w)). cbn [for_each].
    rewrite (bind_Ok _ _ _ _ _ (ret_eq _ w)), ret_eq. cbn. by rewrite grow_nil.
  - set (missing := q0 :: missing').
    destruct (tavily_search_grow missing w) as (rs & Hlen & Hor & Hts).
    exists rs. destruct (all_responses rs) as [responses|] eqn:Hall.
    + destruct (persist_grow sub_q_map (results_by_question missing responses)
                  (grow w [] [] [] (search_events missing 5 rs))) as (rows & Hp & HP).
      exists rows. rewrite (bind_Ok _ _ _ _ _ Hts), (bind_Ok _ _ _ _ _ Hp), ret_eq.
      rewrite grow_grow. cbn [app]. rewrite app_nil_r. split_and!; [done|done|done|].
      eapply Forall_impl; [exact HP|]. intros r. apply row_of_known_mono.
      intros k Hk. apply keys_results_by_question in Hk; [done|].
      apply all_responses_length in Hall. lia.
    + exists []. rewrite (bind_Raise _ _ _ _ _ Hts). done.
Qed.

End Gather.

(** ** The search-cache check *)

Lemma cache_check_step_hit sub_q_map stored acc question :
  cache_check_step sub_q_map stored acc question
  = match cache_hit sub_q_map stored question with
    | Some ev => (Py.dict_set question ev acc.1, acc.2)
    | None => (acc.1, acc.2 ++ [question])
    end.
Proof.
  destruct acc as [cached missing]. unfold cache_check_step, cache_hit.
  destruct (known_id sub_q_map question) as [sid|]; [|done].
  by destruct (depth_rows sid stored).
Qed.

Lemma cache_check_missing sub_q_map stored acc l :
  (foldl (cache_check_step sub_q_map stored) acc l).2
  = acc.2 ++ filter (λ q, cache_hit sub_q_map stored q = None) l.
Proof.
  revert acc. induction l as [|q l IH]; intros acc.
  - cbn. by rewrite app_nil_r.
  - cbn [foldl]. rewrite IH, cache_check_step_hit, filter_cons.
    destruct (cache_hit sub_q_map stored q) as [ev|] eqn:Hq; cbn [snd].
    + by rewrite decide_False.
    + rewrite decide_True by done. by rewrite <- app_assoc.
Qed.

Lemma cache_check_cached sub_q_map stored acc l q :
  Py.dict_get (foldl (cache_check_step sub_q_map stored) acc l).1 q
  = match cache_hit sub_q_map stored q with
    | Some ev => if decide (q ∈ l) then Some ev else Py.dict_get acc.1 q
    | None => Py.dict_get acc.1 q
    end.
Proof.
  revert acc. induction l as [|x l IH]; intros acc.
  - cbn. destruct (cache_hit sub_q_map stored q); [|done].
    rewrite decide_False; [done|]. apply not_elem_of_nil.
  - cbn [foldl]. rewrite IH, cache_check_step_hit.
    destruct (decide (x = q)) as [->|Hne].
    + destruct (cache_hit sub_q_map stored q) as [ev|] eqn:Hq; cbn [fst].
      * rewrite dict_get_set_eq. rewrite (decide_True (P := q ∈ q :: l)) by left.
        by destruct (decide (q ∈ l)).
      * done.
    + destruct (cache_hit sub_q_map stored q) as [ev|] eqn:Hq.
      * assert (Hget : Py.dict_get
                  (match cache_hit sub_q_map stored x with
                   | Some ev0 => (Py.dict_set x ev0 acc.1, acc.2)
                   | None => (acc.1, acc.2 ++ [x])
                   end).1 q = Py.dict_get acc.1 q).
        { destruct (cache_hit sub_q_map stored x); cbn [fst]; [|done].
          by apply dict_get_set_ne. }
        rewrite Hget. destruct (decide (q ∈ l)) as [Hin|Hnin].
        -- rewrite decide_True; [done|]. by right.
        -- rewrite decide_False; [done|]. rewrite not_elem_of_cons. naive_solver.
      * destruct (cache_hit sub_q_map stored x); cbn [fst]; [|done].
        by apply dict_get_set_ne.
Qed.

Lemma search_cache_check_missing sub_q_map stored l :
  (search_cache_check sub_q_map stored l).2
  = filter (λ q, cache_hit sub_q_map stored q = None) l.
Proof. unfold search_cache_check. by rewrite cache_check_missing. Qed.

Lemma search_cache_check_cached sub_q_map stored l q ev :
  q ∈ l → cache_hit sub_q_map stored q = Some ev →
  Py.dict_get (search_cache_check sub_q_map stored l).1 q = Some ev.
Proof.
  intros Hin Hhit. unfold search_cache_check.
  rewrite cache_check_cached, Hhit. by rewrite decide_True.
Qed.

(** A key of the text-to-id dictionary comes from a row. *)
Lemma sub_q_map_of_lookup rows q id :
  sub_q_map_of rows !! q = Some id →
  ∃ r, r ∈ rows ∧ sq_sub_question r = q ∧ sq_id r = id.
Proof.
  unfold sub_q_map_of.
  assert (Hgen : ∀ (m : gmap string nat),
    foldl (λ m r, <[sq_sub_question r := sq_id r]> m) m rows !! q = Some id →
    m !! q = Some id ∨ ∃ r, r ∈ rows ∧ sq_sub_question r = q ∧ sq_id r = id).
  { induction rows as [|r rows IH]; intros m; cbn; [by left|].
    intros H. apply IH in H as [H|(r' & Hin & Hq & Hid)].
    - destruct (decide (sq_sub_question r = q)) as [Heq|Hne].
      + rewrite Heq, lookup_insert_eq in H. right. exists r. split; [left|].
        naive_solver.
      + rewrite lookup_insert_ne in H by done. by left.
    - right. exists r'. split; [by right|done]. }
  intros H. apply Hgen in H as [H|H]; [|done]. by rewrite lookup_empty in H.
Qed.


(** The search calls of one batch, counted per question. *)
Lemma count_search_events q qs n rs :
  length rs = length qs →
  count_events (is_search_call_for q) (search_events qs n rs)
  = length (filter (λ x, x = q) qs).
Proof.
  unfold count_events, search_events. revert rs.
  induction qs as [|x qs IH]; intros [|r rs] Hlen; try done. cbn in Hlen.
  cbn [zip_with List.filter is_search_call_for]. rewrite filter_cons.
  destruct (decide (x = q)) as [->|Hne].
  - rewrite bool_decide_eq_true_2 by done. cbn. f_equal. apply IH. lia.
  - rewrite bool_decide_eq_false_2 by done. apply IH. lia.
Qed.

Lemma filter_none {A} (P : A → Prop) `{∀ x, Decision (P x)} (l : list A) :
  (∀ x, x ∈ l → ¬ P x) → filter P l = [].
Proof.
  induction l as [|x l IH]; intros Hl; [done|].
  rewrite filter_cons_False; [|apply Hl; left].
  apply IH. intros y Hy. apply Hl. by right.
Qed.

Lemma filter_all {A} (P : A → Prop) `{∀ x, Decision (P x)} (l : list A) :
  (∀ x, x ∈ l → P x) → filter P l = l.
Proof.
  induction l as [|x l IH]; intros Hl; [done|].
  rewrite filter_cons_True; [|apply Hl; left].
  f_equal. apply IH. intros y Hy. apply Hl. by right.
Qed.

Lemma count_occ_NoDup (q : string) (l : list string) :
  NoDup l → q ∈ l → length (filter (λ x, x = q) l) = 1%nat.
Proof.
  induction 1 as [|x l Hx Hnd IH]; [by intros ?%elem_of_nil|].
  rewrite filter_cons. intros [->|Hin]%elem_of_cons.
  - rewrite decide_True by done. rewrite filter_none; [done|]. naive_solver.
  - rewrite decide_False by naive_solver. by apply IH.
Qed.

(** ** Reading the trace *)

Lemma omap_none {A B} (f : A → option B) (l : list A) :
  Forall (λ x, f x = None) l → omap f l = [].
Proof. induction 1 as [|x l Hx _ IH]; cbn; [done|]. by rewrite Hx. Qed.

Lemma search_events_kind qs n rs : Forall (λ e, kind e = KSearch) (search_events qs n rs).
Proof.
  unfold search_events. revert rs. induction qs as [|q qs IH]; intros [|r rs]; cbn;
    try constructor; [done|apply IH].
Qed.

Lemma search_events_failed qs n rs :
  length rs = length qs → None ∈ rs →
  Exists (λ e, is_failed_call e = true) (search_events qs n rs).
Proof.
  unfold search_events. revert rs. induction qs as [|q qs IH]; intros [|r rs] Hlen Hin;
    cbn in *; try done.
  - by apply elem_of_nil in Hin.
  - apply elem_of_cons in Hin as [<-|Hin]; [by left|].
    right. apply IH; [lia|done].
Qed.

(** ** Summaries, synthesis, judge *)

Section Analyze.

Context (env : Env).

Lemma select_summary_None sid w :
  select_summary sid w = None →
  sid ∉ sm_sub_question_id <$> sub_question_summaries w.
Proof.
  unfold select_summary. intros H Hin.
  apply list_elem_of_fmap in Hin as (r & Hsid & Hin).
  destruct (filter _ _) as [|r' l] eqn:Hf; [|done].
  by apply (filter_nil_not_elem_of _ _ r Hf).
Qed.

Lemma summary_for_cached sid q data w bullets :
  select_summary sid w = Some bullets →
  summary_for env sid q data w = (Ok bullets, w).
Proof.
  intros H. unfold summary_for. rewrite (bind_Ok _ _ _ _ _ (get_world_eq w)).
  by rewrite H.
Qed.

Lemma insert_summary_fresh sid bullets w :
  sid ∉ sm_sub_question_id <$> sub_question_summaries w →
  insert_summary env sid bullets w
  = (Ok tt,
     grow w []
       [{| sm_id := next_id (sm_id <$> sub_question_summaries w);
           sm_sub_question_id := sid;
           sm_summary_json := bullets;
           sm_created_at := current_timestamp env (length (trace w)) |}] [] []).
Proof.
  intros H. unfold insert_summary. rewrite (bind_Ok _ _ _ _ _ (get_world_eq w)).
  rewrite decide_False by done. rewrite (bind_Ok _ _ _ _ _ (now_eq env w)).
  unfold grow, set_sub_question_summaries. by rewrite !app_nil_r.
Qed.

(** A fresh summary: one completion call, and on success one new row. *)
Lemma summary_for_fresh sid q data w :
  select_summary sid w = None →
  summary_for env sid q data w
  = match analyzer_llm env (length (trace w)) q (snippets data) with
    | None =>
        (Raise (CapabilityError "analyzer_llm"),
         grow w [] [] [] [EvSummarize q (snippets data) None])
    | Some response =>
        (Ok (extract_summary_from_response env response),
         grow w []
           [{| sm_id := next_id (sm_id <$> sub_question_summaries w);
               sm_sub_question_id := sid;
               sm_summary_json := extract_summary_from_response env response;
               sm_created_at := current_timestamp env (S (length (trace w))) |}]
           [] [EvSummarize q (snippets data) (Some response)])
    end.
Proof.
  intros H. unfold summary_for. rewrite (bind_Ok _ _ _ _ _ (get_world_eq w)), H.
  rewrite (bind_Ok _ _ _ _ _ (tick_eq w)).
  rewrite (bind_Ok _ _ _ _ _ (log_grow _ w)).
  destruct (analyzer_llm env (length (trace w)) q (snippets data)) as [response|];
    [|done].
  assert (Hfresh : sid ∉ sm_sub_question_id <$> sub_question_summaries
            (grow w [] [] [] [EvSummarize q (snippets data) (Some response)])).
  { cbn. rewrite app_nil_r. by apply select_summary_None. }
  rewrite (bind_Ok _ _ _ _ _ (insert_summary_fresh sid _ _ Hfresh)).
  rewrite ret_eq, grow_grow. cbn. rewrite !app_nil_r, length_app. cbn.
  by rewrite Nat.add_1_r.
Qed.

Lemma summary_for_grow sid q data w :
  ∃ res sm evs,
    summary_for env sid q data w = (res, grow w [] sm [] evs) ∧
    Forall (λ e, kind e = KSummarize) evs ∧
    (∀ e, res = Raise e → Exists (λ e, is_failed_call e = true) evs).
Proof.
  destruct (select_summary sid w) as [bullets|] eqn:Hs.
  - exists (Ok bullets), [], []. rewrite grow_nil.
    split_and!; [by apply summary_for_cached|constructor|done].
  - rewrite summary_for_fresh by done.
    destruct (analyzer_llm _ _ _ _) as [response|]; eexists _, _, _;
      (split_and!; [reflexivity| |]).
    + by repeat constructor.
    + done.
    + by repeat constructor.
    + intros _ _. by left.
Qed.

Lemma analyze_items_grow items acc w :
  ∃ res sm evs,
    analyze_items env items acc w = (res, grow w [] sm [] evs) ∧
    Forall (λ e, kind e = KSummarize) evs ∧
    (∀ e, res = Raise e → Exists (λ e, is_failed_call e = true) evs).
Proof.
  revert acc w. induction items as [|[question data] items IH]; intros acc w;
    cbn [analyze_items].
  - exists (Ok acc), [], []. rewrite ret_eq, grow_nil. by split_and!.
  - rewrite (bind_Ok _ _ _ _ _ (get_world_eq w)).
    destruct (select_sub_question_id question w) as [sid|]; [|apply IH].
    destruct (summary_for_grow sid question data w) as (res1 & sm1 & evs1 & H1 & K1 & F1).
    destruct res1 as [bullets|e].
    + rewrite (bind_Ok _ _ _ _ _ H1).
      destruct (IH (Py.dict_set question {| summary := bullets; a_urls := urls data |} acc)
                  (grow w [] sm1 [] evs1)) as (res & sm2 & evs2 & H2 & K2 & F2).
      exists res, (sm1 ++ sm2), (evs1 ++ evs2). rewrite H2, grow_grow.
      split_and!; [done|by apply Forall_app|].
      intros e He. apply Exists_app. right. by eapply F2.
    + rewrite (bind_Raise _ _ _ _ _ H1). exists (Raise e), sm1, evs1.
      split_and!; [done|done|]. intros e0 _. by eapply F1.
Qed.


Lemma generate_final_answer_eq original_query analyzed w :
  let prompt :=
    FINAL_PROMPT original_query (Py.join (Py.nl +:+ Py.nl) (summaries_block analyzed)) in
  let r := final_llm env (length (trace w)) prompt in
  generate_final_answer env original_query analyzed w
  = (match r with
     | Some content => Ok content
     | None => Raise (CapabilityError "final_llm")
     end, grow w [] [] [] [EvSynthesize prompt r]).
Proof.
  intros prompt r. unfold generate_final_answer. fold prompt.
  rewrite (bind_Ok _ _ _ _ _ (tick_eq w)). fold r.
  rewrite (bind_Ok _ _ _ _ _ (log_grow _ w)). by destruct r.
Qed.

Lemma run_judge_eq original_query sub_qs answer run w :
  let input := judge_input original_query sub_qs answer in
  let r := judge_chain env (length (trace w)) input in
  run_judge env original_query sub_qs answer run w
  = match r with
    | None => (Raise (CapabilityError "judge_chain"), grow w [] [] [] [EvJudge input None])
    | Some result =>
        (Ok result,
         grow w [] []
           [{| je_id := next_id (je_id <$> judge_evaluations w);
               je_research_run_id := run;
               je_result := result;
               je_evaluated_at := current_timestamp env (S (length (trace w))) |}]
           [EvJudge input (Some result)])
    end.
Proof.
  intros input r. unfold run_judge. fold (judge_input original_query sub_qs answer).
  fold input. rewrite (bind_Ok _ _ _ _ _ (tick_eq w)). fold r.
  rewrite (bind_Ok _ _ _ _ _ (log_grow _ w)). destruct r as [result|]; [|done].
  rewrite (bind_Ok _ _ _ _ _ (now_eq env _)).
  unfold bind, ret, grow, set_judge_evaluations. cbn.
  rewrite !app_nil_r, length_app. cbn. rewrite Nat.add_1_r. reflexivity.
Qed.

End Analyze.

(** ** One call of [run_pipeline] *)

Section Pipeline.

Context (env : Env).

Lemma missing_questions_elem base fu run w q :
  q ∈ missing_questions base fu run w
  ↔ q ∈ base ++ fu ∧ cache_hit (sub_q_map_of (rows_of_run run w)) (search_results w) q = None.
Proof.
  unfold missing_questions. rewrite search_cache_check_missing, list_elem_of_filter.
  rewrite dedup_keys_elem. naive_solver.
Qed.

Lemma missing_questions_NoDup base fu run w : NoDup (missing_questions base fu run w).
Proof.
  unfold missing_questions. rewrite search_cache_check_missing.
  apply NoDup_filter, dedup_keys_NoDup.
Qed.

(** Each question of the input is searched once when the cache check
    finds nothing for it, and not at all otherwise. *)
Lemma gather_evidence_search_count base fu run w q :
  q ∈ base ++ fu →
  count_events (is_search_call_for q)
    (new_events w (gather_evidence env base fu run w).2)
  = match cache_hit (sub_q_map_of (rows_of_run run w)) (search_results w) q with
    | Some _ => 0%nat
    | None => 1%nat
    end.
Proof.
  intros Hin.
  destruct (gather_evidence_grow env base fu run w) as (rs & rows & Hlen & _ & Heq & _).
  rewrite Heq. cbn [snd]. rewrite new_events_grow, count_search_events by done.
  fold (missing_questions base fu run w).
  destruct (cache_hit _ _ q) as [ev|] eqn:Hhit.
  - rewrite filter_none; [done|]. intros x Hx ->.
    apply missing_questions_elem in Hx as [_ Hx]. congruence.
  - apply count_occ_NoDup; [apply missing_questions_NoDup|].
    by apply missing_questions_elem.
Qed.

Lemma run_pipeline_grow query base fu run w :
  let sub_q_map := sub_q_map_of (rows_of_run run w) in
  let missing := missing_questions base fu run w in
  ∃ res rs sr sm evs,
    run_pipeline env query base fu run w
    = (res, grow w sr sm [] (search_events missing 5 rs ++ evs)) ∧
    length rs = length missing ∧
    Forall (row_of_known sub_q_map missing) sr ∧
    Forall (λ e, kind e = KSummarize ∨ kind e = KSynthesize) evs ∧
    match res with
    | Ok a => omap synthesized evs = [a]
    | Raise _ =>
        omap synthesized evs = [] ∧
        Exists (λ e, is_failed_call e = true) (search_events missing 5 rs ++ evs)
    end.
Proof.
  intros sub_q_map missing. unfold run_pipeline.
  destruct (gather_evidence_grow env base fu run w) as (rs & sr & Hlen & _ & Hg & Hsr).
  fold sub_q_map in Hg, Hsr. fold (missing_questions base fu run w) in Hg, Hsr, Hlen.
  fold missing in Hg, Hsr, Hlen.
  destruct (all_responses rs) as [responses|] eqn:Hall.
  - rewrite (bind_Ok _ _ _ _ _ Hg). unfold analyze_sub_questions.
    match goal with |- context [analyze_items env ?items [] ] =>
      destruct (analyze_items_grow env items []
                  (grow w sr [] [] (search_events missing 5 rs)))
        as (res2 & sm & evs2 & Ha & Hk & Hf) end.
    destruct res2 as [analyzed|e].
    + rewrite (bind_Ok _ _ _ _ _ Ha), generate_final_answer_eq, !grow_grow.
      cbn [app]. rewrite !app_nil_r, <- app_assoc.
      match goal with |- context [EvSynthesize ?p ?r] =>
        set (prompt := p); set (r0 := r) end.
      exists (match r0 with Some c => Ok c | None => Raise (CapabilityError "final_llm") end),
        rs, sr, sm, (evs2 ++ [EvSynthesize prompt r0]).
      split_and!; [done|done|done| |].
      * apply Forall_app. split; [|by repeat constructor].
        eapply Forall_impl; [exact Hk|]. naive_solver.
      * rewrite omap_app, (omap_none synthesized evs2).
        2:{ eapply Forall_impl; [exact Hk|]. by intros [] ?. }
        destruct r0; cbn; [done|]. split; [done|].
        apply Exists_app. right. apply Exists_app. right. by left.
    + rewrite (bind_Raise _ _ _ _ _ Ha), grow_grow. cbn [app]. rewrite !app_nil_r.
      exists (Raise e), rs, sr, sm, evs2. split_and!; [done|done|done| | |].
      * eapply Forall_impl; [exact Hk|]. naive_solver.
      * apply omap_none. eapply Forall_impl; [exact Hk|]. by intros [] ?.
      * apply Exists_app. right. by eapply Hf.
  - rewrite (bind_Raise _ _ _ _ _ Hg).
    exists (Raise (CapabilityError "search")), rs, sr, [], [].
    rewrite !app_nil_r. split_and!; [done|done|done|constructor|done|].
    apply search_events_failed; [done|]. by apply all_responses_None.
Qed.

End Pipeline.

(** ** C2: a follow-up pass whose questions match no stored sub-question *)



(** ** C8: questions without a row in the run *)

(** C8 as stated fails: on an empty store the follow-up "F1" has no
    [sub_questions] row, and the search capability is called for it. *)
Lemma C8_unknown_question_is_searched :
  ¬ (∀ q, q ∈ ["F1"] →
       known_id (sub_q_map_of (rows_of_run "run-1" Scenario.empty_store)) q = None →
       count_events (is_search_call_for q)
         (new_events Scenario.empty_store
            (gather_evidence Scenario.env_low [] ["F1"] "run-1" Scenario.empty_store).2)
       = 0%nat).
Proof.
  intros H.
  assert (H1 : "F1" ∈ ["F1"]) by left.
  assert (H2 : known_id (sub_q_map_of (rows_of_run "run-1" Scenario.empty_store)) "F1"
               = None) by (vm_compute; reflexivity).
  specialize (H "F1" H1 H2). vm_compute in H. discriminate H.
Qed.

(** C8, amended: a question of the input with no [sub_questions] row in
    the run is treated as a cache miss: the search capability is called
    for it exactly once, but no [search_results] row is written for it.
    The condition is not an error: every question of the input is searched
    iff the cache check finds nothing for it, and when the search
    capability answers every call, the gathering returns a dictionary with
    an entry for every question of the input. *)
Theorem C8_unknown_question_searched_not_stored
    (env : Env) (base fu : list string) (run q : string) (w : World) :
  q ∈ base ++ fu →
  known_id (sub_q_map_of (rows_of_run run w)) q = None →
  let sub_q_map := sub_q_map_of (rows_of_run run w) in
  let w' := (gather_evidence env base fu run w).2 in
  count_events (is_search_call_for q) (new_events w w') = 1%nat ∧
  filter (λ r, sr_search_query r = q) (search_results w')
    = filter (λ r, sr_search_query r = q) (search_results w) ∧
  (∀ q', q' ∈ base ++ fu →
     count_events (is_search_call_for q') (new_events w w')
     = match cache_hit sub_q_map (search_results w) q' with
       | Some _ => 0%nat
       | None => 1%nat
       end) ∧
  ((∀ t q' n, is_Some (tavily_client_search env t q' n)) →
   ∃ sr, (gather_evidence env base fu run w).1 = Ok sr ∧
         ∀ q', q' ∈ base ++ fu → q' ∈ Py.keys sr).
Proof.
  intros Hin Hk sub_q_map w'. split_and!.
  - unfold w'. rewrite gather_evidence_search_count by done.
    unfold cache_hit. by rewrite Hk.
  - destruct (gather_evidence_grow env base fu run w) as (rs & rows & _ & _ & Hg & Hrows).
    unfold w'. rewrite Hg. cbn. rewrite filter_app, (filter_none _ rows), app_nil_r; [done|].
    intros r Hr Hq. eapply Forall_forall in Hrows as (_ & Hknown & _); [|done].
    rewrite Hq in Hknown. congruence.
  - intros q' Hq'. by apply gather_evidence_search_count.
  - intros Htotal.
    destruct (gather_evidence_grow env base fu run w) as (rs & rows & Hlen & Hor & Hg & _).
    destruct (all_responses rs) as [responses|] eqn:Hall.
    + eexists. rewrite Hg. split; [done|]. intros q' Hq'.
      apply keys_dict_merge.
      destruct (cache_hit (sub_q_map_of (rows_of_run run w)) (search_results w) q')
        as [ev|] eqn:Hhit.
      * left. apply dedup_keys_elem in Hq'.
        pose proof (search_cache_check_cached _ _ _ _ _ Hq' Hhit) as Hget.
        destruct (decide (q' ∈ Py.keys
          (search_cache_check (sub_q_map_of (rows_of_run run w)) (search_results w)
             (Py.dedup_keys (base ++ fu))).1)) as [|Hn]; [done|].
        apply dict_get_None in Hn. congruence.
      * right. apply keys_results_by_question.
        -- apply all_responses_length in Hall. lia.
        -- fold (missing_questions base fu run w). by apply missing_questions_elem.
    + apply all_responses_None in Hall.
      eapply Forall_forall in Hor as (t & q0 & Hnone); [|done].
      destruct (Htotal t q0 5) as [x Hx]. congruence.
Qed.

Lemma C8_unknown_question_searched_not_stored_witness :
  "F1" ∈ [] ++ ["F1"] ∧
  count_events (is_search_call_for "F1")
    (new_events Scenario.empty_store
       (gather_evidence Scenario.env_low [] ["F1"] "run-1" Scenario.empty_store).2)
  = 1%nat.
Proof.
  split; [left|].
  destruct (C8_unknown_question_searched_not_stored Scenario.env_low [] ["F1"] "run-1"
              "F1" Scenario.empty_store) as [H _]; [left|by vm_compute|exact H].
Defined.

(** ** The pass loop *)

Section Loop.

Context (env : Env).

Lemma pass_loop_cons query run base pass_idx rest st w :
  pass_loop env query run base (pass_idx :: rest) st w
  = match pass_body env query run base pass_idx (follow_up_questions st) w with
    | (Ok (answer, result), w1) =>
        if PrimFloat.leb CONFIDENCE_THRESHOLD (confidence_score result)
        then (Ok (after_pass (follow_up_questions st) answer result), w1)
        else pass_loop env query run base rest
               (after_pass (add_new_followups (follow_up_questions st)
                              (recommended_follow_up result)) answer result) w1
    | (Raise e, w1) => (Raise e, w1)
    end.
Proof.
  cbn [pass_loop]. unfold pass_body.
  destruct (pass_questions pass_idx base (follow_up_questions st)) as [base_qs follow_qs].
  cbn [fst snd]. rewrite !(bind_Ok _ _ _ _ _ (log_grow _ w)).
  destruct (run_pipeline env query base_qs follow_qs run
              (grow w [] [] [] [EvPassBanner pass_idx])) as [[answer|e] w1] eqn:Hp.
  - rewrite !(bind_Ok _ _ _ _ _ Hp).
    destruct (run_judge env query (base ++ follow_up_questions st) answer run w1)
      as [[result|e] w2] eqn:Hj.
    + rewrite !(bind_Ok _ _ _ _ _ Hj), ret_eq. by destruct (PrimFloat.leb _ _).
    + by rewrite !(bind_Raise _ _ _ _ _ Hj).
  - by rewrite !(bind_Raise _ _ _ _ _ Hp).
Qed.

Lemma hit_grow run q w sr sm je evs : hit run q w → hit run q (grow w sr sm je evs).
Proof.
  unfold hit, cache_hit, rows_of_run. cbn.
  destruct (known_id _ q) as [sid|]; [|done].
  unfold depth_rows. rewrite filter_app.
  destruct (filter _ (search_results w)); cbn; [by intros [? [=]]|by eexists].
Qed.

Lemma no_search_of_kind q evs :
  Forall (λ e, kind e ≠ KSearch) evs → count_events (is_search_call_for q) evs = 0%nat.
Proof.
  intros H. apply count_events_0. eapply Forall_impl; [exact H|]. by intros [] ?.
Qed.

Lemma no_banner_of_kind evs :
  Forall (λ e, kind e ≠ KBanner) evs → count_events is_pass_banner evs = 0%nat.
Proof.
  intros H. apply count_events_0. eapply Forall_impl; [exact H|]. by intros [] ?.
Qed.

Lemma pass_body_grow query run base pass_idx fu w :
  ∃ res sr sm je evs,
    pass_body env query run base pass_idx fu w = (res, grow w sr sm je evs) ∧
    count_events is_pass_banner evs = 1%nat ∧
    (∀ q, hit run q w → count_events (is_search_call_for q) evs = 0%nat) ∧
    match res with
    | Ok (answer, result) =>
        omap synthesized evs = [answer] ∧ omap judged evs = [result]
    | Raise _ => Exists (λ e, is_failed_call e = true) evs
    end.
Proof.
  unfold pass_body. rewrite (bind_Ok _ _ _ _ _ (log_grow _ w)).
  set (w0 := grow w [] [] [] [EvPassBanner pass_idx]).
  destruct (run_pipeline_grow env query (pass_questions pass_idx base fu).1
              (pass_questions pass_idx base fu).2 run w0)
    as (res1 & rs & sr & sm & evs2 & Hp & Hlen & _ & Hk & Hres).
  set (missing := missing_questions _ _ run w0) in *.
  assert (Hsearch : ∀ q, hit run q w →
            count_events (is_search_call_for q) (search_events missing 5 rs ++ evs2) = 0%nat).
  { intros q Hq. rewrite count_events_app, count_search_events by done.
    rewrite filter_none.
    - cbn. apply no_search_of_kind. eapply Forall_impl; [exact Hk|].
      intros e [He|He]; by rewrite He.
    - intros x Hx ->. apply missing_questions_elem in Hx as [_ Hx].
      apply (hit_grow run q w [] [] [] [EvPassBanner pass_idx]) in Hq.
      fold w0 in Hq. destruct Hq as [ev Hq]. congruence. }
  assert (Hbanner : count_events is_pass_banner (search_events missing 5 rs ++ evs2) = 0%nat).
  { apply no_banner_of_kind. apply Forall_app. split.
    - eapply Forall_impl; [apply search_events_kind|]. intros e He. by rewrite He.
    - eapply Forall_impl; [exact Hk|]. intros e [He|He]; by rewrite He. }
  assert (Hsyn : omap synthesized (search_events missing 5 rs) = []).
  { apply omap_none. eapply Forall_impl; [apply search_events_kind|]. by intros []. }
  assert (Hjud : omap judged (search_events missing 5 rs ++ evs2) = []).
  { apply omap_none. apply Forall_app. split.
    - eapply Forall_impl; [apply search_events_kind|]. by intros [].
    - eapply Forall_impl; [exact Hk|]. by intros [] [|]. }
  destruct res1 as [answer|e].
  - rewrite (bind_Ok _ _ _ _ _ Hp).
    pose proof (run_judge_eq env query (base ++ fu) answer run
                  (grow w0 sr sm [] (search_events missing 5 rs ++ evs2))) as Hj.
    cbv zeta in Hj.
    destruct (judge_chain env _ _) as [result|].
    + rewrite (bind_Ok _ _ _ _ _ Hj), ret_eq. unfold w0. rewrite !grow_grow.
      eexists _, _, _, _, _. split; [reflexivity|].
      cbn [app]. split_and!.
      * by rewrite count_events_cons, count_events_app, Hbanner.
      * intros q Hq. rewrite count_events_cons, count_events_app.
        by rewrite Hsearch by done.
      * cbn. rewrite !omap_app, Hsyn, Hres. done.
      * cbn. rewrite omap_app, Hjud. done.
    + rewrite (bind_Raise _ _ _ _ _ Hj). unfold w0. rewrite !grow_grow.
      eexists _, _, _, _, _. split; [reflexivity|].
      cbn [app]. split_and!.
      * by rewrite count_events_cons, count_events_app, Hbanner.
      * intros q Hq. rewrite count_events_cons, count_events_app.
        by rewrite Hsearch by done.
      * apply Exists_cons. right. apply Exists_app. right. by left.
  - rewrite (bind_Raise _ _ _ _ _ Hp). unfold w0. rewrite !grow_grow.
    eexists _, _, _, _, _. split; [reflexivity|].
    cbn [app]. split_and!.
    + by rewrite count_events_cons, Hbanner.
    + intros q Hq. rewrite count_events_cons. by rewrite Hsearch by done.
    + apply Exists_cons. right. by destruct Hres.
Qed.

(** The loop, from any state and for any list of pass indices. *)
Lemma pass_loop_grow query run base passes st w :
  ∃ res sr sm je evs,
    pass_loop env query run base passes st w = (res, grow w sr sm je evs) ∧
    (count_events is_pass_banner evs ≤ length passes)%nat ∧
    (∀ q, hit run q w → count_events (is_search_call_for q) evs = 0%nat) ∧
    match res with
    | Ok st' =>
        final_answer st' = from_option Some (final_answer st) (last_candidate evs) ∧
        judge_result st' = from_option Some (judge_result st) (last_verdict evs) ∧
        follow_up_questions st `prefix_of` follow_up_questions st' ∧
        (count_events is_pass_banner evs = length passes ∨
         ∃ j, last_verdict evs = Some j ∧ threshold_met j = true) ∧
        (passes ≠ [] → is_Some (last_candidate evs) ∧ is_Some (last_verdict evs))
    | Raise _ => Exists (λ e, is_failed_call e = true) evs
    end.
Proof.
  revert st w. induction passes as [|pass_idx rest IH]; intros st w.
  - exists (Ok st), [], [], [], []. cbn [pass_loop]. rewrite ret_eq, grow_nil.
    split_and!; [done|done|done|done|done|done|by left|done].
  - rewrite pass_loop_cons.
    destruct (pass_body_grow query run base pass_idx (follow_up_questions st) w)
      as (res1 & sr1 & sm1 & je1 & evs1 & Hb & Hban1 & Hs1 & Hres1).
    rewrite Hb. destruct res1 as [[answer result]|e].
    + destruct Hres1 as [Hsyn Hjud].
      destruct (PrimFloat.leb CONFIDENCE_THRESHOLD (confidence_score result)) eqn:Hthr.
      * eexists _, sr1, sm1, je1, evs1. split; [reflexivity|].
        unfold last_candidate, last_verdict. rewrite Hsyn, Hjud. cbn.
        split_and!; [lia|done|done|done|done| |by eauto].
        right. by exists result.
      * destruct (IH (after_pass (add_new_followups (follow_up_questions st)
                                    (recommended_follow_up result)) answer result)
                    (grow w sr1 sm1 je1 evs1))
          as (res & sr2 & sm2 & je2 & evs2 & Hl & Hban2 & Hs2 & Hres2).
        rewrite Hl, grow_grow. eexists _, _, _, _, _. split; [reflexivity|].
        split_and!.
        -- rewrite count_events_app, Hban1. cbn. lia.
        -- intros q Hq. rewrite count_events_app, Hs1 by done.
           rewrite Hs2; [done|]. by apply hit_grow.
        -- destruct res as [st'|e]; [|apply Exists_app; by right].
           destruct Hres2 as (Hfa & Hjr & Hpre & Hstop & _). cbn in Hfa, Hjr, Hpre.
           unfold last_candidate, last_verdict in *.
           rewrite !omap_app, !last_app, Hsyn, Hjud. cbn [last].
           split_and!.
           ++ rewrite Hfa. by destruct (last (omap synthesized evs2)).
           ++ rewrite Hjr. by destruct (last (omap judged evs2)).
           ++ etrans; [apply add_new_followups_prefix|exact Hpre].
           ++ destruct Hstop as [Hcount|(j & Hj & Hm)].
              ** left. rewrite count_events_app, Hban1, Hcount. done.
              ** right. exists j. by rewrite Hj.
           ++ intros _. split.
              ** by destruct (last (omap synthesized evs2)).
              ** by destruct (last (omap judged evs2)).
    + eexists _, sr1, sm1, je1, evs1. split; [reflexivity|].
      split_and!; [cbn; lia|done|done].
Qed.

End Loop.

(** ** C1: accepted follow-ups *)

(** C1 as stated fails: with a judge that scores 0.6 and recommends "F1",
    the run accepts "F1" as a follow-up, and at the end of the run no
    [sub_questions] row of that run carries it. *)
Lemma C1_accepted_follow_up_has_no_row :
  ¬ (∀ run st w' q,
       run_passes Scenario.env_low "query" Scenario.empty_store = (Ok (run, st), w') →
       q ∈ follow_up_questions st →
       ∃ r, r ∈ sub_questions w' ∧ sq_research_run_id r = run ∧ sq_sub_question r = q).
Proof.
  intros H.
  destruct (run_passes Scenario.env_low "query" Scenario.empty_store)
    as [[[run st]|e] w'] eqn:Hrun; vm_compute in Hrun; [|discriminate Hrun].
  injection Hrun as <- <- <-.
  destruct (H _ _ _ "F1" eq_refl) as (r & Hr & _ & Hq); [left|].
  repeat (apply elem_of_cons in Hr as [->|Hr]; [discriminate Hq|]).
  by apply elem_of_nil in Hr.
Qed.

(** ** C6: the pass budget *)

(** C6: the loop of a run is a recursion over the three pass indices, so
    it returns; it starts at most [MAX_PASSES] passes; it raises only when a
    call of the search or completion capability raised; otherwise its
    final state holds the candidate answer and the evaluation of the last
    pass, which either met the threshold or was the third. *)
Theorem C6_pass_budget
    (env : Env) (query run : string) (base : list string) (w : World) :
  let r := pass_loop env query run base (seq 0 MAX_PASSES) initial_loop_state w in
  let evs := new_events w r.2 in
  MAX_PASSES = 3%nat ∧
  (count_events is_pass_banner evs ≤ MAX_PASSES)%nat ∧
  match r.1 with
  | Ok st =>
      final_answer st = last_candidate evs ∧
      judge_result st = last_verdict evs ∧
      is_Some (final_answer st) ∧ is_Some (judge_result st) ∧
      (count_events is_pass_banner evs = MAX_PASSES ∨
       ∃ j, judge_result st = Some j ∧ threshold_met j = true)
  | Raise _ => Exists (λ e, is_failed_call e = true) evs
  end.
Proof.
  intros r evs. unfold evs, r. clear r evs.
  destruct (pass_loop_grow env query run base (seq 0 MAX_PASSES) initial_loop_state w)
    as (res & sr & sm & je & evs & Heq & Hban & _ & Hres).
  rewrite Heq. cbn [fst snd]. rewrite new_events_grow.
  split; [done|]. split; [by rewrite length_seq in Hban|].
  destruct res as [st|e]; [|done].
  destruct Hres as (Hfa & Hjr & _ & Hstop & Hsome). cbn in Hfa, Hjr.
  destruct Hsome as [[a Ha] [j Hj]]; [done|].
  rewrite Ha in Hfa. rewrite Hj in Hjr. cbn in Hfa, Hjr.
  split_and!; [congruence|congruence|by eauto|by eauto|].
  rewrite length_seq in Hstop. destruct Hstop as [Hc|(j' & Hj' & Hm)]; [by left|].
  right. exists j'. split; [congruence|done].
Qed.

Lemma C6_pass_budget_witness :
  let r := pass_loop Scenario.env_low "query" "run-1" ["Q1"] (seq 0 MAX_PASSES)
             initial_loop_state Scenario.empty_store in
  count_events is_pass_banner (new_events Scenario.empty_store r.2) = 3%nat ∧
  ∃ st, r.1 = Ok st ∧
        final_answer st = last_candidate (new_events Scenario.empty_store r.2) ∧
        judge_result st = last_verdict (new_events Scenario.empty_store r.2).
Proof.
  intros r. split; [vm_compute; reflexivity|].
  destruct (C6_pass_budget Scenario.env_low "query" "run-1" ["Q1"] Scenario.empty_store)
    as (_ & _ & H).
  fold r in H. destruct (r.1) as [st|e] eqn:Hr.
  - exists st. split; [reflexivity|]. split; apply H.
  - vm_compute in Hr. discriminate Hr.
Defined.

(** ** The decomposition resolver *)

Section Resolver.

Context (env : Env).

Lemma classification_phase_eq query w :
  let o := classify_outcome env query (length (trace w)) in
  classification_phase env query w = (Ok (o.1.1, o.1.2), grow w [] [] [] o.2).
Proof.
  cbv zeta. unfold classification_phase, classify_outcome.
  rewrite (bind_Ok _ _ _ _ _ (tick_eq w)), (bind_Ok _ _ _ _ _ (log_grow _ w)).
  destruct (retrieve_context env (length (trace w)) query) as [mc|]; [|done].
  rewrite (bind_Ok _ _ _ _ _ (tick_eq _)), (bind_Ok _ _ _ _ _ (log_grow _ _)).
  rewrite grow_grow. cbn. rewrite length_app, Nat.add_1_r. cbn.
  by destruct (classification_chain env _ _).
Qed.

Lemma decomposition_phase_eq query mc query_type w :
  let o := decompose_outcome env query mc query_type (length (trace w)) in
  decomposition_phase env query mc query_type w = (Ok o.1, grow w [] [] [] o.2).
Proof.
  cbv zeta. unfold decomposition_phase, decompose_outcome.
  destruct mc as [ctx|]; [|by rewrite ret_eq, grow_nil].
  rewrite (bind_Ok _ _ _ _ _ (tick_eq w)), (bind_Ok _ _ _ _ _ (log_grow _ w)).
  by destruct (decomposition_chain env _ _ _).
Qed.

Lemma insert_research_run_eq id query classification intent relationship difficulty w :
  insert_research_run env id query classification intent relationship difficulty w
  = if decide (id ∈ rr_id <$> research_runs w)
    then (Raise (IntegrityError "research_runs"), w)
    else (Ok tt,
          set_research_runs
            (research_runs w ++
               [{| rr_id := id; run_original_query := query;
                   run_classification := classification;
                   run_primary_intent := intent;
                   run_relationship := relationship;
                   run_difficulty_level := difficulty;
                   run_final_answer := None; run_markdown_path := None;
                   run_html_path := None;
                   run_created_at := current_timestamp env (length (trace w)) |}]) w).
Proof.
  unfold insert_research_run. rewrite (bind_Ok _ _ _ _ _ (get_world_eq w)).
  destruct (decide _); [done|]. by rewrite (bind_Ok _ _ _ _ _ (now_eq env w)).
Qed.

Lemma insert_sub_questions_spec run idx sub_qs w :
  ∃ rows,
    insert_sub_questions env run idx sub_qs w
    = (Ok tt, set_sub_questions (sub_questions w ++ rows) w) ∧
    sq_sub_question <$> rows = sub_qs ∧
    Forall (λ r, sq_research_run_id r = run) rows ∧
    sq_position <$> rows = seq idx (length sub_qs).
Proof.
  revert idx w. induction sub_qs as [|sub_q rest IH]; intros idx w; cbn [insert_sub_questions].
  - exists []. rewrite ret_eq, app_nil_r. split_and!; [by destruct w|done|done|done].
  - unfold insert_sub_question at 1.
    rewrite (bind_Ok _ _ _ _ _ (bind_Ok _ _ _ _ _ (now_eq env w))).
    match goal with |- context [set_sub_questions (sub_questions w ++ [?r]) w] =>
      set (row := r) end.
    destruct (IH (S idx) (set_sub_questions (sub_questions w ++ [row]) w))
      as (rows & Heq & Htext & Hrun & Hpos).
    exists (row :: rows). rewrite Heq. cbn. rewrite <- app_assoc. cbn.
    split_and!; [done|by rewrite Htext|by constructor|by rewrite Hpos].
Qed.

Lemma latest_run_Some_acc rows b :
  ∃ r, foldl later_run (Some b) rows = Some r ∧ (r = b ∨ r ∈ rows).
Proof.
  revert b. induction rows as [|x rows IH]; intros b; cbn [foldl later_run];
    [by eauto|].
  destruct (run_created_at b <? run_created_at x)%nat.
  - destruct (IH x) as (r & Hr & Hor). exists r. split; [done|].
    right. destruct Hor as [->|Hin]; [left|by right].
  - destruct (IH b) as (r & Hr & Hor). exists r. split; [done|].
    destruct Hor as [->|Hin]; [by left|right; by right].
Qed.

Lemma latest_run_None rows : latest_run rows = None → rows = [].
Proof.
  destruct rows as [|x rows]; [done|]. unfold latest_run. cbn.
  destruct (latest_run_Some_acc rows x) as (r & Hr & _). by rewrite Hr.
Qed.

Lemma latest_run_elem rows r : latest_run rows = Some r → r ∈ rows.
Proof.
  destruct rows as [|x rows]; [done|]. unfold latest_run. cbn.
  destruct (latest_run_Some_acc rows x) as (r' & Hr & Hin). rewrite Hr.
  intros [= <-]. destruct Hin as [->|Hin]; [left|by right].
Qed.

(** Rows whose positions already increase are returned as they are. *)
Lemma order_by_position_sorted rows idx :
  sq_position <$> rows = seq idx (length rows) → order_by_position rows = rows.
Proof.
  revert idx. induction rows as [|r rows IH]; intros idx Hpos; [done|].
  cbn in Hpos. injection Hpos as Hr Hrest.
  unfold order_by_position in *. cbn [foldr]. rewrite (IH (S idx)) by done.
  destruct rows as [|r' rows']; [done|].
  cbn in Hrest. injection Hrest as Hr' _. cbn [insert_by_position].
  rewrite Hr, Hr'. by rewrite (leb_correct idx (S idx)) by lia.
Qed.

Lemma resolver_hit query w cached_run :
  latest_run (filter (λ r, run_original_query r = query) (research_runs w))
    = Some cached_run →
  research_decomposition_pipeline env query w
  = (Ok (cached_output query cached_run w),
     grow w [] [] [] [EvUuid (uuid4 env (length (trace w)))]).
Proof.
  intros Hc. unfold research_decomposition_pipeline.
  rewrite (bind_Ok _ _ _ _ _ (tick_eq w)), (bind_Ok _ _ _ _ _ (log_grow _ w)).
  rewrite (bind_Ok _ _ _ _ _ (get_world_eq _)). cbn [research_runs grow].
  by rewrite Hc.
Qed.

Lemma resolver_miss query w :
  filter (λ r, run_original_query r = query) (research_runs w) = [] →
  if decide (uuid4 env (length (trace w)) ∈ rr_id <$> research_runs w)
  then (research_decomposition_pipeline env query w).1
       = Raise (IntegrityError "research_runs")
  else ∃ out w1, research_decomposition_pipeline env query w = (Ok out, w1) ∧
                 resolved env query w out w1.
Proof.
  intros Hmiss. unfold research_decomposition_pipeline.
  rewrite (bind_Ok _ _ _ _ _ (tick_eq w)), (bind_Ok _ _ _ _ _ (log_grow _ w)).
  rewrite (bind_Ok _ _ _ _ _ (get_world_eq _)). cbn [research_runs grow].
  rewrite Hmiss. cbn [latest_run foldl].
  set (u := uuid4 env (length (trace w))).
  set (w0 := grow w [] [] [] [EvUuid u]).
  pose proof (classification_phase_eq query w0) as Hc. cbv zeta in Hc.
  assert (Hlen0 : length (trace w0) = S (length (trace w))).
  { unfold w0. cbn. rewrite length_app. cbn. lia. }
  rewrite Hlen0 in Hc. set (c := classify_outcome env query (S (length (trace w)))) in *.
  rewrite (bind_Ok _ _ _ _ _ Hc).
  pose proof (decomposition_phase_eq query c.1.1 c.1.2 (grow w0 [] [] [] c.2)) as Hd.
  cbv zeta in Hd.
  assert (Hlen1 : length (trace (grow w0 [] [] [] c.2))
                  = (S (length (trace w)) + length c.2)%nat).
  { cbn. rewrite !length_app. cbn. lia. }
  rewrite Hlen1 in Hd.
  set (d := decompose_outcome env query c.1.1 c.1.2 (S (length (trace w)) + length c.2)) in *.
  rewrite (bind_Ok _ _ _ _ _ Hd). rewrite grow_grow. cbn [app].
  set (w2 := grow w0 [] [] [] (c.2 ++ d.2)).
  pose proof (insert_research_run_eq u query c.1.2 (d_primary_intent d.1)
                (d_relationship d.1) (d_difficulty_level d.1) w2) as Hrun.
  cbn [research_runs w2 w0 grow] in Hrun.
  destruct (decide (u ∈ rr_id <$> research_runs w)) as [Hin|Hfresh].
  - by rewrite (bind_Raise _ _ _ _ _ Hrun).
  - rewrite (bind_Ok _ _ _ _ _ Hrun).
    match type of Hrun with context [set_research_runs ?l _] => set (runs := l) in * end.
    destruct (insert_sub_questions_spec u 1 (d_sub_questions d.1)
                (set_research_runs runs w2))
      as (rows & Hins & Htext & Hrows & Hpos).
    rewrite (bind_Ok _ _ _ _ _ Hins), ret_eq.
    eexists _, _. split; [reflexivity|].
    constructor; cbn -[classify_outcome decompose_outcome].
    + done.
    + fold c. fold d. split_and!; [done|done|]. by rewrite <- !app_assoc.
    + eexists. by split_and!.
    + exists rows. split_and!; [done|done|done|].
      rewrite Hpos. f_equal. by rewrite <- Htext, length_fmap.
    + by rewrite !app_nil_r.
Qed.

End Resolver.

(** ** C3: the resolver is idempotent *)

(** C3: in a store that respects the foreign key of [sub_questions], when
    a call of the resolver returns, a second call with the same query
    returns the same run id and the same ordered sub-question list, and
    the only external call it makes is the uuid generator: no
    classification or decomposition call, no new run, no new row. *)
Theorem C3_resolver_idempotent
    (env : Env) (query : string) (w w1 : World) (out1 : DecompositionOutput) :
  (∀ r, r ∈ sub_questions w → sq_research_run_id r ∈ rr_id <$> research_runs w) →
  research_decomposition_pipeline env query w = (Ok out1, w1) →
  ∃ out2 w2,
    research_decomposition_pipeline env query w1 = (Ok out2, w2) ∧
    o_run_id out2 = o_run_id out1 ∧
    d_sub_questions (o_decomposition out2) = d_sub_questions (o_decomposition out1) ∧
    count_events is_completion_call (new_events w1 w2) = 0%nat ∧
    research_runs w2 = research_runs w1 ∧ sub_questions w2 = sub_questions w1.
Proof.
  intros Hfk H1.
  destruct (latest_run (filter (λ r, run_original_query r = query) (research_runs w)))
    as [cached|] eqn:Hl.
  - rewrite (resolver_hit env query w cached Hl) in H1. injection H1 as <- <-.
    eexists _, _. split; [by apply (resolver_hit env query _ cached)|].
    rewrite new_events_grow. by split_and!.
  - apply latest_run_None in Hl.
    pose proof (resolver_miss env query w Hl) as Hm.
    destruct (decide _) as [|Hfresh]; [rewrite H1 in Hm; discriminate Hm|].
    destruct Hm as (out & w1' & Heq & [Hid _ (row & Hruns & Hrid & Hrq & _)
                                          (rows & Hsubs & Htext & Hrows & Hpos) _]).
    rewrite H1 in Heq. injection Heq as <- <-.
    assert (Hl1 : latest_run (filter (λ r, run_original_query r = query) (research_runs w1))
                  = Some row).
    { rewrite Hruns, filter_app, Hl. cbn. by rewrite decide_True. }
    rewrite (resolver_hit env query w1 row Hl1).
    eexists _, _. split; [reflexivity|]. rewrite new_events_grow.
    split_and!; [done| |done|done|done].
    cbn. rewrite <- Htext. f_equal.
    assert (Hmine : rows_of_run (rr_id row) w1 = rows).
    { unfold rows_of_run. rewrite Hsubs, filter_app, filter_none, filter_all; [done| |].
      - intros r Hr. eapply Forall_forall in Hrows; [|done]. congruence.
      - intros r Hr Hrun. apply Hfresh. rewrite <- Hid, <- Hrid, <- Hrun. by apply Hfk. }
    rewrite Hmine. by apply (order_by_position_sorted rows 1).
Qed.

Lemma C3_resolver_idempotent_witness :
  ∃ out1 w1 out2 w2,
    research_decomposition_pipeline Scenario.env_low "query" Scenario.empty_store
      = (Ok out1, w1) ∧
    research_decomposition_pipeline Scenario.env_low "query" w1 = (Ok out2, w2) ∧
    o_run_id out2 = o_run_id out1 ∧
    d_sub_questions (o_decomposition out2) = d_sub_questions (o_decomposition out1).
Proof.
  destruct (research_decomposition_pipeline Scenario.env_low "query" Scenario.empty_store)
    as [[out1|e] w1] eqn:H1; [|vm_compute in H1; discriminate H1].
  destruct (C3_resolver_idempotent Scenario.env_low "query" Scenario.empty_store w1 out1)
    as (out2 & w2 & H2 & Hid & Hq & _).
  - intros r Hr. cbn in Hr. by apply elem_of_nil in Hr.
  - exact H1.
  - exists out1, w1, out2, w2. by split_and!.
Defined.

(** ** C7: failures of classification and decomposition *)


(** ** C9: the answer saved at the end of a run *)

Section Save.

Context (env : Env).

(** A reply of the resolver names a run of the store, and the resolver
    calls neither the synthesis nor the judge. *)
Lemma resolver_ok query w out w1 :
  research_decomposition_pipeline env query w = (Ok out, w1) →
  (∃ row, row ∈ research_runs w1 ∧ rr_id row = o_run_id out) ∧
  ∃ evs, trace w1 = trace w ++ evs ∧ omap synthesized evs = [].
Proof.
  intros H1.
  destruct (latest_run (filter (λ r, run_original_query r = query) (research_runs w)))
    as [cached|] eqn:Hl.
  - rewrite (resolver_hit env query w cached Hl) in H1. injection H1 as <- <-.
    split.
    + exists cached. split; [|done]. apply latest_run_elem in Hl.
      by apply list_elem_of_filter in Hl as [_ Hl].
    + by eexists.
  - apply latest_run_None in Hl.
    pose proof (resolver_miss env query w Hl) as Hm.
    destruct (decide _) as [|Hfresh]; [rewrite H1 in Hm; discriminate Hm|].
    destruct Hm as (out' & w1' & Heq & [_ Hout (row & Hruns & Hrid & _) _ _]).
    rewrite H1 in Heq. injection Heq as <- <-. split.
    + exists row. split; [|done]. rewrite Hruns. apply elem_of_app. right. left.
    + cbv zeta in Hout. destruct Hout as (_ & _ & Htrace).
      eexists. split; [exact Htrace|].
      unfold classify_outcome, decompose_outcome.
      destruct (retrieve_context env _ query) as [mc|]; [|done].
      done.
Qed.

Lemma save_final_answer_eq fa run w :
  save_final_answer fa run w
  = (Ok tt,
     match fa with
     | Some (String a s) =>
         set_research_runs (with_final_answer (String a s) run <$> research_runs w) w
     | _ => w
     end).
Proof. unfold save_final_answer. by destruct fa as [[|a s]|]. Qed.

End Save.

(** C9 as stated fails: when the synthesis of the last pass returns the
    empty string, the loop ends with that candidate answer and the run's
    [final_answer] column is left NULL. *)
Lemma C9_empty_answer_not_saved :
  ∃ run st w',
    run_passes Scenario.env_empty_answer "query" Scenario.empty_store
      = (Ok (run, st), w') ∧
    final_answer st = Some "" ∧
    last_candidate (trace w') = Some "" ∧
    (run_final_answer <$> filter (λ r, rr_id r = run) (research_runs w')) = [None].
Proof.
  eexists _, _, _. split; [vm_compute; reflexivity|]. by vm_compute.
Qed.

(** C9, amended: when a run's pass loop has exited, by the threshold or
    by the budget, the candidate answer of the last executed pass is
    written to the run's [final_answer] field if it is not the empty
    string; an empty answer leaves the runs table as the resolver left
    it. *)
Theorem C9_last_answer_saved
    (env : Env) (query run : string) (st : LoopState) (w w' : World) :
  run_passes env query w = (Ok (run, st), w') →
  ∃ answer,
    final_answer st = Some answer ∧
    last_candidate (new_events w w') = Some answer ∧
    (∃ r, r ∈ research_runs w' ∧ rr_id r = run) ∧
    (answer ≠ "" →
     ∀ r, r ∈ research_runs w' → rr_id r = run → run_final_answer r = Some answer) ∧
    (answer = "" →
     research_runs w' = research_runs (research_decomposition_pipeline env query w).2).
Proof.
  unfold run_passes. intros H.
  destruct (research_decomposition_pipeline env query w) as [[out|e] w1] eqn:H1.
  2:{ rewrite (bind_Raise _ _ _ _ _ H1) in H. discriminate H. }
  rewrite (bind_Ok _ _ _ _ _ H1) in H. cbv zeta in H. cbn [snd].
  destruct (resolver_ok env query w out w1 H1) as ((row & Hrow & Hrid) & evs1 & Ht1 & Hs1).
  destruct (pass_loop_grow env query (o_run_id out) (d_sub_questions (o_decomposition out))
              (seq 0 MAX_PASSES) initial_loop_state w1)
    as (res & sr & sm & je & evs2 & Hloop & _ & _ & Hres).
  destruct res as [st'|e].
  2:{ rewrite (bind_Raise _ _ _ _ _ Hloop) in H. discriminate H. }
  rewrite (bind_Ok _ _ _ _ _ Hloop) in H.
  rewrite (bind_Ok _ _ _ _ _ (save_final_answer_eq _ _ _)), ret_eq in H.
  injection H as <- <- <-.
  destruct Hres as (Hfa & _ & _ & _ & Hsome). cbn in Hfa.
  destruct Hsome as [[answer Ha] _]; [done|].
  rewrite Ha in Hfa. cbn in Hfa. exists answer. rewrite Hfa.
  assert (Hevs : last_candidate
                   (new_events w
                      match Some answer with
                      | Some (String a s) =>
                          set_research_runs
                            (with_final_answer (String a s) (o_run_id out)
                               <$> research_runs (grow w1 sr sm je evs2))
                            (grow w1 sr sm je evs2)
                      | _ => grow w1 sr sm je evs2
                      end) = Some answer).
  { assert (Htr : ∀ a, trace match Some a with
                             | Some (String c s) =>
                                 set_research_runs
                                   (with_final_answer (String c s) (o_run_id out)
                                      <$> research_runs (grow w1 sr sm je evs2))
                                   (grow w1 sr sm je evs2)
                             | _ => grow w1 sr sm je evs2
                             end = trace w ++ evs1 ++ evs2).
    { intros [|c s]; cbn; by rewrite Ht1, <- app_assoc. }
    unfold new_events. rewrite Htr, drop_app_length.
    unfold last_candidate in *. by rewrite omap_app, Hs1. }
  split_and!; [done|exact Hevs| | |].
  - destruct answer as [|a s]; cbn.
    + by exists row.
    + exists (with_final_answer (String a s) (o_run_id out) row). split.
      * apply list_elem_of_fmap. by exists row.
      * unfold with_final_answer. by destruct (decide _).
  - intros Hne r Hr Hrun. destruct answer as [|a s]; [done|]. cbn in Hr.
    apply list_elem_of_fmap in Hr as (r0 & -> & Hr0).
    unfold with_final_answer in *. destruct (decide (rr_id r0 = o_run_id out)); [done|].
    by destruct n.
  - by intros ->.
Qed.

Lemma C9_last_answer_saved_witness :
  ∃ run st w' answer,
    run_passes Scenario.env_low "query" Scenario.empty_store = (Ok (run, st), w') ∧
    final_answer st = Some answer ∧
    last_candidate (new_events Scenario.empty_store w') = Some answer.
Proof.
  destruct (run_passes Scenario.env_low "query" Scenario.empty_store)
    as [[[run st]|e] w'] eqn:H; [|vm_compute in H; discriminate H].
  destruct (C9_last_answer_saved Scenario.env_low "query" run st Scenario.empty_store w' H)
    as (answer & Ha & Hl & _).
  exists run, st, w', answer. split; [reflexivity|]. split; [exact Ha|exact Hl].
Defined.

(** * Further properties *)

(** ** The program logic *)

Lemma hoare_ret {A} (a : A) (Q : A → World → Prop) E : hoare (Q a) (ret a) Q E.
Proof. intros w H. by rewrite ret_eq. Qed.

Lemma hoare_bind {A B} P (m : M A) (k : A → M B) Q R E :
  hoare P m Q E → (∀ a, hoare (Q a) (k a) R E) → hoare P (bind m k) R E.
Proof.
  intros Hm Hk w HP. specialize (Hm w HP). unfold bind.
  destruct (m w) as [[a|e] w1]; [by apply Hk|done].
Qed.

Lemma hoare_conseq {A} (P P' : World → Prop) (m : M A)
    (Q Q' : A → World → Prop) (E E' : Exn → World → Prop) :
  hoare P' m Q' E' → (∀ w, P w → P' w) → (∀ a w, Q' a w → Q a w) →
  (∀ e w, E' e w → E e w) → hoare P m Q E.
Proof.
  intros Hm HP HQ HE w Hw. specialize (Hm w (HP w Hw)).
  destruct (m w) as [[a|e] w1]; [by apply HQ|by apply HE].
Qed.

Lemma hoare_read {A} (f : World → A) (P : World → Prop) E :
  hoare P (λ w, (Ok (f w), w)) (λ a w, P w ∧ a = f w) E.
Proof. by intros w H. Qed.

Lemma hoare_raise {A} (e : Exn) (Q : A → World → Prop) (E : Exn → World → Prop) :
  hoare (E e) (raise e) Q E.
Proof. by intros w H. Qed.

Lemma hoare_for_each {A} (I : World → Prop) (xs : list A) (body : A → M unit) E :
  (∀ x, x ∈ xs → hoare I (body x) (λ _, I) E) →
  hoare I (for_each xs body) (λ _, I) E.
Proof.
  induction xs as [|x xs IH]; intros Hbody; cbn [for_each].
  - exact (hoare_ret tt (λ _, I) E).
  - eapply hoare_bind; [apply Hbody; left|]. intros ?. apply IH.
    intros y Hy. apply Hbody. by right.
Qed.

(** ** Steps that keep the store's constraints *)

Lemma next_id_fresh (ids : list nat) : next_id ids ∉ ids.
Proof.
  assert (H : ∀ x, x ∈ ids → (x ≤ foldr Nat.max 0 ids)%nat).
  { induction ids as [|y ids IH]; intros x Hx; [by apply elem_of_nil in Hx|].
    cbn. apply elem_of_cons in Hx as [->|Hx]; [lia|]. specialize (IH x Hx). lia. }
  intros Hin. apply H in Hin. unfold next_id in Hin. lia.
Qed.

Lemma NoDup_snoc_fresh {A} (l : list A) (x : A) : NoDup l → x ∉ l → NoDup (l ++ [x]).
Proof.
  intros Hl Hx. apply NoDup_app. split_and!; [done| |apply NoDup_singleton].
  intros y Hy Hy'. apply list_elem_of_singleton in Hy'. by subst.
Qed.

Lemma extends_refl w : extends w w.
Proof. by constructor. Qed.

Lemma extends_trans w1 w2 w3 : extends w1 w2 → extends w2 w3 → extends w1 w3.
Proof. intros [] []. constructor; by etrans. Qed.

Lemma good_step_refl w : good_step w w.
Proof. split; [apply extends_refl|done]. Qed.

Lemma good_step_trans w1 w2 w3 : good_step w1 w2 → good_step w2 w3 → good_step w1 w3.
Proof. intros [E1 S1] [E2 S2]. split; [by eapply extends_trans|auto]. Qed.

Lemma extends_run_id w w' run :
  extends w w' → run ∈ rr_id <$> research_runs w → run ∈ rr_id <$> research_runs w'.
Proof.
  intros [[k Hk] _ _ _ _ _] Hin.
  assert (Hid : ∀ l : list research_runs_row,
            rr_id <$> (forget_answer <$> l) = rr_id <$> l).
  { intros l. rewrite <- list_fmap_compose. by apply list_fmap_ext. }
  rewrite <- Hid, Hk, fmap_app, elem_of_app, Hid. by left.
Qed.

(** Events, and rows that respect the constraints, are good steps. *)
Lemma good_step_events w evs : good_step w (grow w [] [] [] evs).
Proof.
  split.
  - constructor; cbn; rewrite ?app_nil_r; try done. by apply prefix_app_r.
  - intros []. constructor; cbn; by rewrite ?app_nil_r.
Qed.

Lemma good_step_search_row w row evs :
  sr_id row = next_id (sr_id <$> search_results w) →
  sr_sub_question_id row ∈ sq_id <$> sub_questions w →
  good_step w (grow w [row] [] [] evs).
Proof.
  intros Hid Hfk. split.
  - constructor; cbn; rewrite ?app_nil_r; try done; by apply prefix_app_r.
  - intros []. constructor; cbn; rewrite ?app_nil_r; try done.
    + rewrite fmap_app. apply NoDup_snoc_fresh; [done|].
      cbn. rewrite Hid. apply next_id_fresh.
    + intros r [Hr|Hr%list_elem_of_singleton]%elem_of_app; [by auto|by subst].
Qed.

Lemma good_step_summary_row w row evs :
  sm_id row = next_id (sm_id <$> sub_question_summaries w) →
  sm_sub_question_id row ∉ sm_sub_question_id <$> sub_question_summaries w →
  sm_sub_question_id row ∈ sq_id <$> sub_questions w →
  good_step w (grow w [] [row] [] evs).
Proof.
  intros Hid Huq Hfk. split.
  - constructor; cbn; rewrite ?app_nil_r; try done; by apply prefix_app_r.
  - intros []. constructor; cbn; rewrite ?app_nil_r; try done.
    + rewrite fmap_app. apply NoDup_snoc_fresh; [done|].
      cbn. rewrite Hid. apply next_id_fresh.
    + rewrite fmap_app. by apply NoDup_snoc_fresh.
    + intros r [Hr|Hr%list_elem_of_singleton]%elem_of_app; [by auto|by subst].
Qed.

Lemma good_step_evaluation_row w row evs :
  je_id row = next_id (je_id <$> judge_evaluations w) →
  je_research_run_id row ∈ rr_id <$> research_runs w →
  good_step w (grow w [] [] [row] evs).
Proof.
  intros Hid Hfk. split.
  - constructor; cbn; rewrite ?app_nil_r; try done; by apply prefix_app_r.
  - intros []. constructor; cbn; rewrite ?app_nil_r; try done.
    + rewrite fmap_app. apply NoDup_snoc_fresh; [done|].
      cbn. rewrite Hid. apply next_id_fresh.
    + intros r [Hr|Hr%list_elem_of_singleton]%elem_of_app; [by auto|by subst].
Qed.

Lemma good_step_run_row w row :
  rr_id row ∉ rr_id <$> research_runs w →
  good_step w (set_research_runs (research_runs w ++ [row]) w).
Proof.
  intros Hpk. split.
  - constructor; cbn; try done. rewrite fmap_app. by apply prefix_app_r.
  - intros []. constructor; cbn; try done.
    + rewrite fmap_app. by apply NoDup_snoc_fresh.
    + intros r Hr. rewrite fmap_app, elem_of_app. left. by auto.
    + intros r Hr. rewrite fmap_app, elem_of_app. left. by auto.
Qed.

Lemma good_step_sub_question_row w row :
  sq_id row = next_id (sq_id <$> sub_questions w) →
  sq_research_run_id row ∈ rr_id <$> research_runs w →
  good_step w (set_sub_questions (sub_questions w ++ [row]) w).
Proof.
  intros Hid Hfk. split.
  - constructor; cbn; try done. by apply prefix_app_r.
  - intros []. constructor; cbn; try done.
    + rewrite fmap_app. apply NoDup_snoc_fresh; [done|].
      cbn. rewrite Hid. apply next_id_fresh.
    + intros r [Hr|Hr%list_elem_of_singleton]%elem_of_app; [by auto|by subst].
    + intros r Hr. rewrite fmap_app, elem_of_app. left. by auto.
    + intros r Hr. rewrite fmap_app, elem_of_app. left. by auto.
Qed.

Lemma good_step_final_answer w answer run :
  good_step w (set_research_runs (with_final_answer answer run <$> research_runs w) w).
Proof.
  assert (Hf : ∀ l : list research_runs_row,
            forget_answer <$> (with_final_answer answer run <$> l)
            = forget_answer <$> l).
  { intros l. rewrite <- list_fmap_compose. apply list_fmap_ext. intros i r _. cbn.
    unfold with_final_answer. by destruct (decide _). }
  assert (Hid : ∀ l : list research_runs_row,
            rr_id <$> (with_final_answer answer run <$> l) = rr_id <$> l).
  { intros l. rewrite <- list_fmap_compose. apply list_fmap_ext. intros i r _. cbn.
    unfold with_final_answer. by destruct (decide _). }
  split.
  - constructor; cbn; try done. by rewrite Hf.
  - intros []. constructor; cbn; rewrite ?Hid; done.
Qed.

Section Invariant.

Context (env : Env).

Lemma insert_search_result_step sid q st url snip w :
  sid ∈ sq_id <$> sub_questions w →
  ∃ w', insert_search_result env sid q st url snip w = (Ok tt, w') ∧
        good_step w w' ∧ sub_questions w' = sub_questions w.
Proof.
  intros Hsid. unfold insert_search_result. rewrite (bind_Ok _ _ _ _ _ (now_eq env w)).
  eexists. split; [reflexivity|]. split; [|done].
  match goal with |- good_step w (set_search_results (_ ++ [?r]) w) =>
    replace (set_search_results (search_results w ++ [r]) w) with (grow w [r] [] [] [])
      by (unfold grow, set_search_results; by rewrite !app_nil_r) end.
  by apply good_step_search_row.
Qed.

(** The invariant of the persistence loop: a good step from [w0], and the
    [sub_questions] table still the one the dictionary was built from. *)
Lemma hoare_insert_search_result w0 subs sid q st url snip E :
  sid ∈ sq_id <$> subs →
  hoare (λ w, good_step w0 w ∧ sub_questions w = subs)
        (insert_search_result env sid q st url snip)
        (λ _ w, good_step w0 w ∧ sub_questions w = subs) E.
Proof.
  intros Hsid w [Hw Hsubs].
  destruct (insert_search_result_step sid q st url snip w) as (w' & -> & Hstep & Hsame).
  - by rewrite Hsubs.
  - split; [by eapply good_step_trans|congruence].
Qed.

Lemma hoare_persist_question w0 subs sub_q_map qd E :
  (∀ q sid, known_id sub_q_map q = Some sid → sid ∈ sq_id <$> subs) →
  hoare (λ w, good_step w0 w ∧ sub_questions w = subs)
        (persist_question env sub_q_map qd)
        (λ _ w, good_step w0 w ∧ sub_questions w = subs) E.
Proof.
  intros Hknown. destruct qd as [question data]. unfold persist_question.
  destruct (known_id sub_q_map question) as [sid|] eqn:Hk.
  - eapply hoare_bind.
    + apply (hoare_for_each (λ w, good_step w0 w ∧ sub_questions w = subs)).
      intros b _. apply hoare_insert_search_result. by eapply Hknown.
    + intros ?. apply (hoare_for_each (λ w, good_step w0 w ∧ sub_questions w = subs)).
      intros b _. apply hoare_insert_search_result. by eapply Hknown.
  - exact (hoare_ret tt (λ _ w, good_step w0 w ∧ sub_questions w = subs) E).
Qed.

Lemma known_id_in_table run w q sid :
  known_id (sub_q_map_of (rows_of_run run w)) q = Some sid →
  sid ∈ sq_id <$> sub_questions w.
Proof.
  unfold known_id. destruct (sub_q_map_of _ !! q) as [[|n]|] eqn:Hm; [done| |done].
  intros [= <-]. apply sub_q_map_of_lookup in Hm as (r & Hin & _ & Hid).
  unfold rows_of_run in Hin. apply list_elem_of_filter in Hin as [_ Hin].
  apply list_elem_of_fmap. by exists r.
Qed.

Lemma hoare_tavily_search w0 subs queries :
  hoare (λ w, good_step w0 w ∧ sub_questions w = subs)
        (tavily_search env queries depth)
        (λ _ w, good_step w0 w ∧ sub_questions w = subs) (failing w0).
Proof.
  intros w [Hw Hsubs].
  destruct (tavily_search_grow env queries w) as (rs & _ & _ & ->).
  assert (Hstep : good_step w0 (grow w [] [] [] (search_events queries 5 rs))).
  { eapply good_step_trans; [done|apply good_step_events]. }
  destruct (all_responses rs); [done|]. split; [done|]. right. by eexists.
Qed.

Lemma hoare_gather_evidence w0 base fu run :
  hoare (good_step w0) (gather_evidence env base fu run)
        (λ _, good_step w0) (failing w0).
Proof.
  intros w Hw. rewrite gather_evidence_unfold. cbv zeta.
  set (sub_q_map := sub_q_map_of (rows_of_run run w)).
  set (check := search_cache_check sub_q_map (search_results w) _).
  refine (hoare_bind (λ w', good_step w0 w' ∧ sub_questions w' = sub_questions w)
            _ _ (λ _ w', good_step w0 w' ∧ sub_questions w' = sub_questions w)
            (λ _, good_step w0) (failing w0) _ _ w (conj Hw eq_refl)).
  - destruct check.2 as [|q0 rest].
    + exact (hoare_ret [] (λ _ w', good_step w0 w' ∧ sub_questions w' = sub_questions w)
               (failing w0)).
    + apply hoare_tavily_search.
  - intros fresh. eapply hoare_bind.
    + apply (hoare_for_each (λ w', good_step w0 w' ∧ sub_questions w' = sub_questions w)).
      intros qd _. apply hoare_persist_question.
      intros q sid. apply known_id_in_table.
    + intros ? w' [Hw' _]. by rewrite ret_eq.
Qed.

Lemma select_sub_question_id_in_table q w sid :
  select_sub_question_id q w = Some sid → sid ∈ sq_id <$> sub_questions w.
Proof.
  unfold select_sub_question_id.
  destruct (filter _ (sub_questions w)) as [|r l] eqn:Hf; [done|].
  intros [= <-]. apply list_elem_of_fmap. exists r. split; [done|].
  assert (Hin : r ∈ filter (λ r, sq_sub_question r = q) (sub_questions w))
    by (rewrite Hf; left).
  by apply list_elem_of_filter in Hin as [_ Hin].
Qed.

Lemma hoare_summary_for w0 sid q data :
  hoare (λ w, good_step w0 w ∧ sid ∈ sq_id <$> sub_questions w)
        (summary_for env sid q data)
        (λ _, good_step w0) (failing w0).
Proof.
  intros w [Hw Hsid].
  destruct (select_summary sid w) as [bullets|] eqn:Hs.
  - by rewrite (summary_for_cached env sid q data w bullets Hs).
  - rewrite (summary_for_fresh env sid q data w Hs).
    destruct (analyzer_llm env _ q _) as [response|].
    + eapply good_step_trans; [done|].
      apply good_step_summary_row; [done| |done]. by apply select_summary_None.
    + split; [|right; by eexists].
      eapply good_step_trans; [done|apply good_step_events].
Qed.

Lemma hoare_analyze_items w0 items acc :
  hoare (good_step w0) (analyze_items env items acc)
        (λ _, good_step w0) (failing w0).
Proof.
  revert acc. induction items as [|[question data] items IH]; intros acc;
    cbn [analyze_items].
  - exact (hoare_ret acc (λ _, good_step w0) (failing w0)).
  - intros w Hw. rewrite (bind_Ok _ _ _ _ _ (get_world_eq w)).
    destruct (select_sub_question_id question w) as [sid|] eqn:Hsel; [|by apply IH].
    refine (hoare_bind (λ w', good_step w0 w' ∧ sid ∈ sq_id <$> sub_questions w')
              _ _ (λ _, good_step w0) (λ _, good_step w0) (failing w0) _ _ w _).
    + apply hoare_summary_for.
    + intros bullets. apply IH.
    + split; [done|]. by eapply select_sub_question_id_in_table.
Qed.

Lemma hoare_generate_final_answer w0 query analyzed :
  hoare (good_step w0) (generate_final_answer env query analyzed)
        (λ _, good_step w0) (failing w0).
Proof.
  intros w Hw. rewrite generate_final_answer_eq. cbv zeta.
  assert (Hstep : ∀ evs, good_step w0 (grow w [] [] [] evs)).
  { intros evs. eapply good_step_trans; [done|apply good_step_events]. }
  destruct (final_llm env _ _); [done|]. split; [done|]. right. by eexists.
Qed.

Lemma hoare_run_pipeline w0 query base fu run :
  hoare (good_step w0) (run_pipeline env query base fu run)
        (λ _, good_step w0) (failing w0).
Proof.
  unfold run_pipeline. eapply hoare_bind; [apply hoare_gather_evidence|].
  intros sr. eapply hoare_bind; [apply hoare_analyze_items|].
  intros analyzed. apply hoare_generate_final_answer.
Qed.

Lemma hoare_run_judge w0 query sub_qs answer run :
  hoare (λ w, good_step w0 w ∧ run ∈ rr_id <$> research_runs w)
        (run_judge env query sub_qs answer run)
        (λ _ w, good_step w0 w ∧ run ∈ rr_id <$> research_runs w) (failing w0).
Proof.
  intros w [Hw Hrun]. rewrite run_judge_eq. cbv zeta.
  destruct (judge_chain env _ _) as [result|].
  - split; [|done]. eapply good_step_trans; [done|].
    by apply good_step_evaluation_row.
  - split; [|right; by eexists].
    eapply good_step_trans; [done|apply good_step_events].
Qed.

Lemma hoare_pass_loop w0 query run base passes st :
  hoare (λ w, good_step w0 w ∧ run ∈ rr_id <$> research_runs w)
        (pass_loop env query run base passes st)
        (λ _ w, good_step w0 w ∧ run ∈ rr_id <$> research_runs w) (failing w0).
Proof.
  set (L := λ w : World, good_step w0 w ∧ run ∈ rr_id <$> research_runs w).
  revert st. induction passes as [|pass_idx rest IH]; intros st; cbn [pass_loop].
  - exact (hoare_ret st (λ _, L) (failing w0)).
  - apply (hoare_bind _ _ _ (λ _, L)).
    { intros w [Hw Hrun]. rewrite log_grow. split; [|exact Hrun].
      eapply good_step_trans; [done|apply good_step_events]. }
    intros ?. destruct (pass_questions _ _ _) as [base_qs follow_qs].
    apply (hoare_bind _ _ _ (λ _, L)).
    { intros w [Hw Hrun].
      pose proof (hoare_run_pipeline w query base_qs follow_qs run w
                    (good_step_refl w)) as Hp.
      destruct (run_pipeline env query base_qs follow_qs run w) as [[answer|e] w'].
      - split; [by eapply good_step_trans|].
        destruct Hp as [Hext _]. by eapply extends_run_id.
      - destruct Hp as [Hp He]. split; [by eapply good_step_trans|done]. }
    intros answer. apply (hoare_bind _ _ _ (λ _, L)); [apply hoare_run_judge|].
    intros result. destruct (PrimFloat.leb _ _); [|apply IH].
    exact (hoare_ret _ (λ _, L) (failing w0)).
Qed.

Lemma hoare_insert_sub_questions w0 run idx sub_qs E :
  hoare (λ w, good_step w0 w ∧ run ∈ rr_id <$> research_runs w)
        (insert_sub_questions env run idx sub_qs)
        (λ _ w, good_step w0 w ∧ run ∈ rr_id <$> research_runs w) E.
Proof.
  set (L := λ w : World, good_step w0 w ∧ run ∈ rr_id <$> research_runs w).
  revert idx. induction sub_qs as [|sub_q rest IH]; intros idx;
    cbn [insert_sub_questions].
  - exact (hoare_ret tt (λ _, L) E).
  - apply (hoare_bind _ _ _ (λ _, L)); [|intros ?; apply IH].
    intros w [Hw Hrun]. unfold insert_sub_question.
    rewrite (bind_Ok _ _ _ _ _ (now_eq env w)). split; [|exact Hrun].
    eapply good_step_trans; [done|]. by apply good_step_sub_question_row.
Qed.

Lemma hoare_resolver w0 query :
  hoare (good_step w0) (research_decomposition_pipeline env query)
        (λ out w, good_step w0 w ∧ o_run_id out ∈ rr_id <$> research_runs w)
        (failing w0).
Proof.
  intros w Hw.
  destruct (latest_run (filter (λ r, run_original_query r = query) (research_runs w)))
    as [cached|] eqn:Hl.
  - rewrite (resolver_hit env query w cached Hl). split.
    + eapply good_step_trans; [done|apply good_step_events].
    + cbn. apply list_elem_of_fmap. exists cached. split; [done|].
      apply latest_run_elem in Hl. by apply list_elem_of_filter in Hl as [_ Hl].
  - unfold research_decomposition_pipeline.
    rewrite (bind_Ok _ _ _ _ _ (tick_eq w)), (bind_Ok _ _ _ _ _ (log_grow _ w)).
    rewrite (bind_Ok _ _ _ _ _ (get_world_eq _)). cbn [research_runs grow].
    rewrite Hl.
    set (u := uuid4 env (length (trace w))).
    set (w1 := grow w [] [] [] [EvUuid u]).
    pose proof (classification_phase_eq env query w1) as Hc. cbv zeta in Hc.
    set (c := classify_outcome env query (length (trace w1))) in *.
    rewrite (bind_Ok _ _ _ _ _ Hc).
    pose proof (decomposition_phase_eq env query c.1.1 c.1.2 (grow w1 [] [] [] c.2)) as Hd.
    cbv zeta in Hd.
    set (d := decompose_outcome env query c.1.1 c.1.2 _) in *.
    rewrite (bind_Ok _ _ _ _ _ Hd). rewrite grow_grow. cbn [app].
    set (w2 := grow w1 [] [] [] (c.2 ++ d.2)).
    assert (Hw2 : good_step w0 w2).
    { eapply good_step_trans; [done|]. eapply good_step_trans; apply good_step_events. }
    pose proof (insert_research_run_eq env u query c.1.2 (d_primary_intent d.1)
                  (d_relationship d.1) (d_difficulty_level d.1) w2) as Hrun.
    destruct (decide (u ∈ rr_id <$> research_runs w2)) as [Hin|Hfresh].
    + rewrite (bind_Raise _ _ _ _ _ Hrun). split; [done|by left].
    + rewrite (bind_Ok _ _ _ _ _ Hrun).
      match type of Hrun with context [set_research_runs (_ ++ [?r]) _] =>
        set (row := r) in * end.
      set (w3 := set_research_runs (research_runs w2 ++ [row]) w2).
      assert (Hw3 : good_step w0 w3 ∧ u ∈ rr_id <$> research_runs w3).
      { split.
        - eapply good_step_trans; [done|]. by apply good_step_run_row.
        - cbn. rewrite !fmap_app, !elem_of_app. right. cbn. left. }
      pose proof (hoare_insert_sub_questions w0 u 1 (d_sub_questions d.1) (failing w0)
                    w3 Hw3) as Hsub.
      destruct (insert_sub_questions env u 1 (d_sub_questions d.1) w3)
        as [[[]|e] w4] eqn:Hins.
      * rewrite (bind_Ok _ _ _ _ _ Hins), ret_eq. exact Hsub.
      * rewrite (bind_Raise _ _ _ _ _ Hins). exact Hsub.
Qed.

Lemma hoare_run_passes w0 query :
  hoare (good_step w0) (run_passes env query) (λ _, good_step w0) (failing w0).
Proof.
  unfold run_passes.
  eapply hoare_bind; [apply hoare_resolver|]. intros out. cbv zeta.
  eapply hoare_bind; [apply hoare_pass_loop|]. intros st.
  intros w [Hw _]. rewrite (bind_Ok _ _ _ _ _ (save_final_answer_eq _ _ _)), ret_eq.
  destruct (final_answer st) as [[|a s]|]; [done| |done].
  eapply good_step_trans; [done|apply good_step_final_answer].
Qed.

Lemma hoare_run w0 query :
  hoare (good_step w0) (run env query) (λ _, good_step w0) (failing w0).
Proof.
  unfold run. eapply hoare_bind; [apply hoare_run_passes|].
  intros [run_id st] w Hw.
  assert (Hev : ∀ w' evs, good_step w0 w' → good_step w0 (grow w' [] [] [] evs)).
  { intros w' evs H. eapply good_step_trans; [done|apply good_step_events]. }
  rewrite (bind_Ok _ _ _ _ _ (tick_eq w)), (bind_Ok _ _ _ _ _ (log_grow _ w)).
  destruct (generate_report env _ run_id) as [md_text|].
  - rewrite (bind_Ok _ _ _ _ _ (tick_eq _)), (bind_Ok _ _ _ _ _ (log_grow _ _)).
    destruct (store_run_vector env _ _ _).
    + rewrite ret_eq. by auto.
    + split; [by auto|]. right. by eexists.
  - split; [by auto|]. right. by eexists.
Qed.

End Invariant.

(** ** The verdicts of a pass loop *)

Section Verdicts.

Context (env : Env).

Lemma pass_body_verdict query run base pass_idx fu w :
  ∃ res sr sm je evs,
    pass_body env query run base pass_idx fu w = (res, grow w sr sm je evs) ∧
    count_events is_pass_banner evs = 1%nat ∧
    je_result <$> je = omap judged evs ∧
    Forall (λ r, je_research_run_id r = run) je ∧
    omap judged evs = match res with Ok (_, result) => [result] | Raise _ => [] end.
Proof.
  unfold pass_body. rewrite (bind_Ok _ _ _ _ _ (log_grow _ w)).
  set (w0 := grow w [] [] [] [EvPassBanner pass_idx]).
  destruct (run_pipeline_grow env query (pass_questions pass_idx base fu).1
              (pass_questions pass_idx base fu).2 run w0)
    as (res1 & rs & sr & sm & evs2 & Hp & Hlen & _ & Hk & Hres).
  set (missing := missing_questions _ _ run w0) in *.
  assert (Hbanner : count_events is_pass_banner (search_events missing 5 rs ++ evs2) = 0%nat).
  { apply no_banner_of_kind. apply Forall_app. split.
    - eapply Forall_impl; [apply search_events_kind|]. intros e He. by rewrite He.
    - eapply Forall_impl; [exact Hk|]. intros e [He|He]; by rewrite He. }
  assert (Hjud : omap judged (search_events missing 5 rs ++ evs2) = []).
  { apply omap_none. apply Forall_app. split.
    - eapply Forall_impl; [apply search_events_kind|]. by intros [].
    - eapply Forall_impl; [exact Hk|]. by intros [] [|]. }
  destruct res1 as [answer|e].
  - rewrite (bind_Ok _ _ _ _ _ Hp).
    pose proof (run_judge_eq env query (base ++ fu) answer run
                  (grow w0 sr sm [] (search_events missing 5 rs ++ evs2))) as Hj.
    cbv zeta in Hj.
    destruct (judge_chain env _ _) as [result|].
    + rewrite (bind_Ok _ _ _ _ _ Hj), ret_eq. unfold w0. rewrite !grow_grow.
      eexists _, _, _, _, _. split; [reflexivity|]. cbn [app]. split_and!.
      * by rewrite count_events_cons, count_events_app, Hbanner.
      * cbn. by rewrite omap_app, Hjud.
      * by repeat constructor.
      * cbn. by rewrite omap_app, Hjud.
    + rewrite (bind_Raise _ _ _ _ _ Hj). unfold w0. rewrite !grow_grow.
      eexists _, _, _, _, _. split; [reflexivity|]. cbn [app]. split_and!.
      * by rewrite count_events_cons, count_events_app, Hbanner.
      * cbn. by rewrite omap_app, Hjud.
      * constructor.
      * cbn. by rewrite omap_app, Hjud.
  - rewrite (bind_Raise _ _ _ _ _ Hp). unfold w0. rewrite !grow_grow.
    eexists _, _, _, _, _. split; [reflexivity|]. cbn [app]. split_and!.
    + by rewrite count_events_cons, Hbanner.
    + cbn. by rewrite Hjud.
    + constructor.
    + cbn. by rewrite Hjud.
Qed.

Lemma pass_loop_verdicts query run base passes st w :
  ∃ res sr sm je evs,
    pass_loop env query run base passes st w = (res, grow w sr sm je evs) ∧
    je_result <$> je = omap judged evs ∧
    Forall (λ r, je_research_run_id r = run) je ∧
    (length (omap judged evs) ≤ length passes)%nat ∧
    match res with
    | Ok st' =>
        count_events is_pass_banner evs = length (omap judged evs) ∧
        ((Forall below_threshold (omap judged evs) ∧
          length (omap judged evs) = length passes ∧
          follow_up_questions st'
            = merge_verdicts (follow_up_questions st) (omap judged evs)) ∨
         (∃ pre j, omap judged evs = pre ++ [j] ∧ Forall below_threshold pre ∧
                   threshold_met j = true ∧
                   follow_up_questions st'
                     = merge_verdicts (follow_up_questions st) pre))
    | Raise _ =>
        count_events is_pass_banner evs = S (length (omap judged evs)) ∧
        Forall below_threshold (omap judged evs) ∧
        (length (omap judged evs) < length passes)%nat
    end.
Proof.
  revert st w. induction passes as [|pass_idx rest IH]; intros st w.
  - exists (Ok st), [], [], [], []. cbn [pass_loop]. rewrite ret_eq, grow_nil.
    split_and!; [done|done|done|done|done|]. left. by split_and!.
  - rewrite pass_loop_cons.
    destruct (pass_body_verdict query run base pass_idx (follow_up_questions st) w)
      as (res1 & sr1 & sm1 & je1 & evs1 & Hb & Hban1 & Hje1 & Hrun1 & Hv1).
    rewrite Hb. destruct res1 as [[answer result]|e].
    + destruct (PrimFloat.leb CONFIDENCE_THRESHOLD (confidence_score result)) eqn:Hthr.
      * eexists _, sr1, sm1, je1, evs1. split; [reflexivity|]. rewrite Hv1. cbn.
        split_and!; [by rewrite Hje1, Hv1|done|lia|done|].
        right. exists [], result. by split_and!.
      * destruct (IH (after_pass (add_new_followups (follow_up_questions st)
                                    (recommended_follow_up result)) answer result)
                    (grow w sr1 sm1 je1 evs1))
          as (res & sr2 & sm2 & je2 & evs2 & Hl & Hje2 & Hrun2 & Hlen2 & Hres2).
        rewrite Hl, grow_grow. eexists _, _, _, _, _. split; [reflexivity|].
        rewrite omap_app, Hv1, fmap_app, Hje1, Hje2, Hv1. cbn [app length].
        split_and!; [done|by apply Forall_app|lia|].
        destruct res as [st'|e].
        -- destruct Hres2 as (Hban2 & Hstop). split.
           { rewrite count_events_app, Hban1, Hban2. done. }
           destruct Hstop as [(Hbelow & Hall & Hfu)|(pre & j & Hsplit & Hbelow & Hmet & Hfu)].
           ++ left. split_and!; [by constructor|by rewrite Hall|done].
           ++ right. exists (result :: pre), j. rewrite Hsplit.
              split_and!; [done|by constructor|done|done].
        -- destruct Hres2 as (Hban2 & Hbelow & Hlt). split.
           { rewrite count_events_app, Hban1, Hban2. done. }
           split; [by constructor|lia].
    + eexists _, sr1, sm1, je1, evs1. split; [reflexivity|]. rewrite Hv1. cbn.
      split_and!; [by rewrite Hje1, Hv1|done|lia|done|done|lia].
Qed.

End Verdicts.

(** ** A whole run *)

(** X1: a run keeps the constraints [database.py] declares: started in a
    store whose primary keys, UNIQUE column and foreign keys hold, it
    leaves a store in which they hold, whether it returns or raises. *)
Theorem run_keeps_store_constraints (env : Env) (query : string) (w : World) :
  store_ok w → store_ok (run env query w).2.
Proof.
  intros Hok. pose proof (hoare_run env w query w (good_step_refl w)) as H.
  destruct (run env query w) as [[out|e] w']; cbn [snd].
  - by apply H.
  - by apply H.
Qed.

Lemma run_keeps_store_constraints_witness :
  store_ok Scenario.empty_store ∧
  store_ok (run Scenario.env_low "query" Scenario.empty_store).2.
Proof.
  assert (H : store_ok Scenario.empty_store).
  { constructor; cbn; try apply NoDup_nil_2; intros r Hr; inversion Hr. }
  split; [exact H|].
  apply (run_keeps_store_constraints Scenario.env_low "query" Scenario.empty_store).
  exact H.
Defined.

(** X2: a run deletes and rewrites nothing: every table of the store it
    leaves starts with the rows the table had before, in the same order,
    the runs compared up to their [final_answer]; the trace only grows.
    This holds when the run raises, too. *)
Theorem run_only_adds_rows (env : Env) (query : string) (w : World) :
  extends w (run env query w).2.
Proof.
  pose proof (hoare_run env w query w (good_step_refl w)) as H.
  destruct (run env query w) as [[out|e] w']; cbn [snd]; apply H.
Qed.



(** ** The pass loop and the judge *)


(** X5: the loop stops at the first verdict that meets the threshold.
    When it returns, either every pass was judged below the threshold, or
    the last verdict met it and all earlier ones were below; the follow-up
    list is the initial one merged with the recommendations of the
    verdicts below the threshold, in order. *)
Theorem pass_loop_stops_at_first_accepted_verdict
    (env : Env) (query run : string) (base : list string) (passes : list nat)
    (st st' : LoopState) (w : World) :
  let r := pass_loop env query run base passes st w in
  let verdicts := omap judged (new_events w r.2) in
  r.1 = Ok st' →
  (Forall below_threshold verdicts ∧ length verdicts = length passes ∧
   follow_up_questions st' = merge_verdicts (follow_up_questions st) verdicts) ∨
  (∃ earlier j,
     verdicts = earlier ++ [j] ∧ Forall below_threshold earlier ∧
     threshold_met j = true ∧
     follow_up_questions st' = merge_verdicts (follow_up_questions st) earlier).
Proof.
  destruct (pass_loop_verdicts env query run base passes st w)
    as (res & sr & sm & je & evs & Heq & _ & _ & _ & Hres).
  rewrite Heq. cbn [fst snd]. rewrite new_events_grow.
  intros ->. apply Hres.
Qed.

Lemma pass_loop_stops_at_first_accepted_verdict_witness :
  let r := pass_loop Scenario.env_low "query" "run-1" ["Q1"] (seq 0 MAX_PASSES)
             initial_loop_state Scenario.empty_store in
  let verdicts := omap judged (new_events Scenario.empty_store r.2) in
  ∃ st',
    r.1 = Ok st' ∧
    ((Forall below_threshold verdicts ∧ length verdicts = length (seq 0 MAX_PASSES) ∧
      follow_up_questions st'
        = merge_verdicts (follow_up_questions initial_loop_state) verdicts) ∨
     (∃ earlier j,
        verdicts = earlier ++ [j] ∧ Forall below_threshold earlier ∧
        threshold_met j = true ∧
        follow_up_questions st'
          = merge_verdicts (follow_up_questions initial_loop_state) earlier)).
Proof.
  intros r verdicts.
  destruct (r.1) as [st'|e] eqn:Hr; [|vm_compute in Hr; discriminate Hr].
  exists st'. split; [reflexivity|].
  apply (pass_loop_stops_at_first_accepted_verdict Scenario.env_low "query" "run-1"
           ["Q1"] (seq 0 MAX_PASSES) initial_loop_state st' Scenario.empty_store).
  exact Hr.
Defined.

(** ** What a search response contributes *)

Lemma collect_items_urls results u :
  u ∈ (collect_items results).1
  ↔ u ≠ "" ∧ ∃ item, item ∈ results ∧ accepted item = true ∧ item_url item = Some u.
Proof.
  induction results as [|item results IH]; cbn.
  - rewrite elem_of_nil. split; [done|]. intros (_ & item & Hin & _).
    by apply elem_of_nil in Hin.
  - destruct (collect_items results) as [us ss] eqn:Hc. cbn [fst] in IH.
    assert (Hrest : (∃ i, i ∈ item :: results ∧ accepted i = true ∧ item_url i = Some u)
                    ↔ (accepted item = true ∧ item_url item = Some u) ∨
                      ∃ i, i ∈ results ∧ accepted i = true ∧ item_url i = Some u).
    { split.
      - intros (i & [->|Hin]%elem_of_cons & Ha & Hu); [by left|right; eauto].
      - intros [[Ha Hu]|(i & Hin & Ha & Hu)].
        + exists item. split; [left|done].
        + exists i. split; [by right|done]. }
    rewrite Hrest. clear Hrest.
    destruct item as [score url title content|]; cbn [accepted item_url].
    + destruct (PrimFloat.ltb 0x1p-1 score); cbn [fst].
      * rewrite elem_of_app, IH. destruct url as [[|a s]|]; cbn.
        -- rewrite elem_of_nil. naive_solver.
        -- rewrite list_elem_of_singleton. naive_solver.
        -- rewrite elem_of_nil. naive_solver.
      * rewrite IH. naive_solver.
    + cbn [fst]. rewrite IH. naive_solver.
Qed.

Lemma collect_items_accepted results :
  collect_items (List.filter accepted results) = collect_items results.
Proof.
  induction results as [|item results IH]; [done|]. cbn [List.filter].
  destruct (accepted item) eqn:Ha.
  - cbn. by rewrite IH.
  - cbn. destruct (collect_items results) as [us ss].
    destruct item as [score url title content|]; [|done].
    cbn in Ha. by rewrite Ha.
Qed.

Lemma evidence_of_response_urls results :
  NoDup (urls (evidence_of_response results)) ∧
  ∀ u, u ∈ urls (evidence_of_response results)
       ↔ u ≠ "" ∧ ∃ item, item ∈ results ∧ accepted item = true ∧ item_url item = Some u.
Proof.
  unfold evidence_of_response.
  pose proof (collect_items_urls results) as Hu.
  destruct (collect_items results) as [us ss]. cbn [urls fst] in *.
  unfold list_set. split; [apply NoDup_elements|].
  intros u. rewrite elem_of_elements, elem_of_list_to_set. apply Hu.
Qed.

(** X6: the evidence built from one search response has pairwise distinct
    urls, none of them empty, and they are exactly the urls of the
    dictionary items whose score exceeds 0.5; items that are rejected
    (lower score, not a dictionary) contribute nothing, neither a url nor
    a snippet. *)
Theorem evidence_from_accepted_items_only (results : list TavilyItem) :
  let ev := evidence_of_response results in
  NoDup (urls ev) ∧
  (∀ u, u ∈ urls ev
        ↔ u ≠ "" ∧ ∃ item, item ∈ results ∧ accepted item = true ∧ item_url item = Some u) ∧
  evidence_of_response (List.filter accepted results) = ev.
Proof.
  cbv zeta. destruct (evidence_of_response_urls results) as [Hnd Hu].
  split_and!; [done|done|].
  unfold evidence_of_response. by rewrite collect_items_accepted.
Qed.

(** ** What a search stores is what the cache returns *)

Lemma NoDup_fmap_eq {A B} (f : A → B) (l : list A) x y :
  NoDup (f <$> l) → x ∈ l → y ∈ l → f x = f y → x = y.
Proof.
  induction l as [|a l IH]; cbn; intros Hnd Hx Hy Hf; [by apply elem_of_nil in Hx|].
  apply NoDup_cons in Hnd as [Ha Hnd].
  apply elem_of_cons in Hx as [->|Hx]; apply elem_of_cons in Hy as [->|Hy].
  - done.
  - destruct Ha. rewrite Hf. apply list_elem_of_fmap. by exists y.
  - destruct Ha. rewrite <- Hf. apply list_elem_of_fmap. by exists x.
  - by apply IH.
Qed.





Section ReadBack.

Context (env : Env).




Lemma depth_rows_app sid rows1 rows2 :
  depth_rows sid (rows1 ++ rows2) = depth_rows sid rows1 ++ depth_rows sid rows2.
Proof. unfold depth_rows. apply filter_app. Qed.


End ReadBack.

Section DictKeys.
Context {V : Type}.
Implicit Types (d : Py.dict V) (k : string) (v : V).

Lemma keys_dict_set_NoDup d k v : NoDup (Py.keys d) → NoDup (Py.keys (Py.dict_set k v d)).
Proof.
  unfold Py.keys. induction d as [|[k0 v0] d IH]; cbn; intros Hnd.
  - apply NoDup_singleton.
  - apply NoDup_cons in Hnd as [Hk0 Hnd]. destruct (decide (k0 = k)) as [->|Hne]; cbn.
    + by apply NoDup_cons.
    + apply NoDup_cons. split; [|by apply IH].
      intros Hin. apply (keys_dict_set d k0 k v) in Hin as [?|?]; done.
Qed.



End DictKeys.


Lemma rows_of_run_grow run w sr sm je evs :
  rows_of_run run (grow w sr sm je evs) = rows_of_run run w.
Proof. reflexivity. Qed.



(** ** One batch of searches *)

Section DictOrder.
Context {V : Type}.
Implicit Types (d : Py.dict V) (k : string) (v : V).

Lemma dict_set_fresh d k v : k ∉ Py.keys d → Py.dict_set k v d = d ++ [(k, v)].
Proof.
  unfold Py.keys. induction d as [|[k0 v0] d IH]; cbn; [done|].
  intros [Hne Hk]%not_elem_of_cons. rewrite decide_False by done. by rewrite IH.
Qed.

Lemma dict_set_keys_present d k v : k ∈ Py.keys d → Py.keys (Py.dict_set k v d) = Py.keys d.
Proof.
  unfold Py.keys. induction d as [|[k0 v0] d IH]; cbn; [by intros ?%elem_of_nil|].
  intros Hin. destruct (decide (k0 = k)) as [->|Hne]; cbn; [done|].
  apply elem_of_cons in Hin as [->|Hin]; [done|]. by rewrite IH.
Qed.

End DictOrder.

Lemma fromkeys_seen seen seen' l :
  (∀ x, x ∈ seen ↔ x ∈ seen') → Py.fromkeys seen l = Py.fromkeys seen' l.
Proof.
  revert seen seen'. induction l as [|x l IH]; intros seen seen' Heq; cbn; [done|].
  destruct (decide (x ∈ seen)) as [Hx|Hx].
  - rewrite decide_True by by apply Heq. by apply IH.
  - rewrite decide_False by (by rewrite <- Heq). f_equal. apply IH.
    intros y. rewrite !elem_of_cons, Heq. done.
Qed.

Lemma keys_foldl_dict_set_order {V W} (f : W → V) (l : list (string * W)) (acc : Py.dict V) :
  Py.keys (foldl (λ d qr, Py.dict_set qr.1 (f qr.2) d) acc l)
  = Py.keys acc ++ Py.fromkeys (Py.keys acc) l.*1.
Proof.
  revert acc. induction l as [|[q r] l IH]; intros acc.
  - cbn. by rewrite app_nil_r.
  - cbn [foldl fmap list_fmap fst snd Py.fromkeys]. rewrite IH.
    destruct (decide (q ∈ Py.keys acc)) as [Hq|Hq].
    + by rewrite dict_set_keys_present.
    + rewrite dict_set_fresh by done. unfold Py.keys at 1 2. rewrite !fmap_app. cbn.
      rewrite <- app_assoc. cbn. do 2 f_equal. apply fromkeys_seen.
      intros x. set_solver.
Qed.

Lemma foldl_dict_set_zip {V W} (f : W → V) (l : list (string * W)) (acc : Py.dict V) :
  NoDup (Py.keys acc ++ l.*1) →
  foldl (λ d qr, Py.dict_set qr.1 (f qr.2) d) acc l = acc ++ (prod_map id f <$> l).
Proof.
  revert acc. induction l as [|[q r] l IH]; intros acc Hnd.
  - cbn. by rewrite app_nil_r.
  - cbn [foldl fmap list_fmap fst snd] in *. rewrite IH.
    + rewrite dict_set_fresh; [by rewrite <- app_assoc|].
      apply NoDup_app in Hnd as (_ & Hd & _). intros Hq. apply (Hd q Hq). left.
    + rewrite dict_set_fresh.
      * unfold Py.keys. rewrite fmap_app, <- app_assoc. done.
      * apply NoDup_app in Hnd as (_ & Hd & _). intros Hq. apply (Hd q Hq). left.
Qed.

Lemma all_responses_Some rs responses :
  all_responses rs = Some responses ↔ rs = Some <$> responses.
Proof.
  revert responses. induction rs as [|[r|] rs IH]; intros responses; cbn.
  - split; [by intros [= <-]|]. by destruct responses.
  - destruct (all_responses rs) as [l|] eqn:Hl.
    + split.
      * intros [= <-]. cbn. f_equal. by apply IH.
      * destruct responses as [|r' responses]; [done|]. cbn. intros [= -> Hrs].
        apply IH in Hrs. by injection Hrs as ->.
    + split; [done|]. destruct responses as [|r' responses]; [done|]. cbn.
      intros [= -> Hrs]. by apply IH in Hrs.
  - split; [done|]. by destruct responses.
Qed.

(** X8: a batch of searches issues one call per query, in the order of
    the list, each with [max_results] 5 for a depth search and 10 for a
    breadth search, and writes no table.  It raises exactly when a call
    raised; otherwise every call answered, the result has one entry per
    distinct query in the order of first occurrence, and for a list
    without repetition the entries are, in order, the evidence of the
    responses. *)
Theorem tavily_search_one_call_per_query
    (env : Env) (queries : list string) (search_type : SearchType) (w : World) :
  let n := max_results_of search_type in
  let r := tavily_search env queries search_type w in
  ∃ rs,
    length rs = length queries ∧
    r.2 = grow w [] [] [] (search_events queries n rs) ∧
    match r.1 with
    | Ok d =>
        ∃ responses,
          rs = Some <$> responses ∧
          Py.keys d = Py.dedup_keys queries ∧
          (NoDup queries → d = zip queries (evidence_of_response <$> responses))
    | Raise e => e = CapabilityError "search" ∧ None ∈ rs
    end.
Proof.
  intros n r.
  destruct (gather_search_grow env queries n w) as (rs & Hrs & Hlen & _).
  assert (Hr : r = (match all_responses rs with
                    | None => Raise (CapabilityError "search")
                    | Some responses => Ok (results_by_question queries responses)
                    end, grow w [] [] [] (search_events queries n rs))).
  { unfold r, tavily_search. fold (max_results_of search_type). fold n.
    rewrite (bind_Ok _ _ _ _ _ Hrs). by destruct (all_responses rs). }
  rewrite Hr. cbn [fst snd]. exists rs. split_and!; [done|done|].
  destruct (all_responses rs) as [responses|] eqn:Hall.
  - exists responses. pose proof (all_responses_length _ _ Hall) as Hl.
    split_and!; [by apply all_responses_Some| |].
    + unfold results_by_question. rewrite (keys_foldl_dict_set_order evidence_of_response).
      rewrite fst_zip by lia. done.
    + intros Hnd. unfold results_by_question.
      rewrite (foldl_dict_set_zip evidence_of_response).
      * cbn [app]. clear -Hl Hlen. assert (Hl' : length responses = length queries) by lia.
        clear Hl Hlen. revert responses Hl'.
        induction queries as [|q queries IH]; intros [|x responses] Hl; try done.
        cbn. f_equal. apply IH. cbn in Hl. lia.
      * cbn [app Py.keys fmap list_fmap]. by rewrite fst_zip by lia.
  - split; [done|]. by apply all_responses_None.
Qed.

(** ** Analysing twice *)

Lemma summaries_added_refl w : summaries_added w w.
Proof. by split. Qed.

Lemma summaries_added_trans w1 w2 w3 :
  summaries_added w1 w2 → summaries_added w2 w3 → summaries_added w1 w3.
Proof. intros [H1 P1] [H2 P2]. split; [congruence|by etrans]. Qed.

Lemma select_summary_later sid w w' bullets :
  summaries_added w w' → select_summary sid w = Some bullets →
  select_summary sid w' = Some bullets.
Proof.
  intros [_ [sm Hsm]]. unfold select_summary. rewrite Hsm, filter_app.
  by destruct (filter _ (sub_question_summaries w)).
Qed.

Lemma select_sub_question_id_later q w w' :
  summaries_added w w' → select_sub_question_id q w' = select_sub_question_id q w.
Proof. intros [H _]. unfold select_sub_question_id. by rewrite H. Qed.

Section Again.

Context (env : Env).

Lemma summary_for_stored sid q data w bullets w' :
  summary_for env sid q data w = (Ok bullets, w') →
  summaries_added w w' ∧ select_summary sid w' = Some bullets.
Proof.
  destruct (select_summary sid w) as [cached|] eqn:Hs.
  - rewrite (summary_for_cached env sid q data w cached Hs). intros [= <- <-].
    split; [apply summaries_added_refl|done].
  - rewrite (summary_for_fresh env sid q data w Hs).
    destruct (analyzer_llm _ _ _ _) as [response|]; [|done]. intros [= <- <-]. split.
    + split; [done|]. cbn. by eexists.
    + unfold select_summary. cbn [sub_question_summaries grow]. rewrite filter_app.
      assert (Hnone : filter (λ r, sm_sub_question_id r = sid) (sub_question_summaries w) = []).
      { apply filter_none. intros r Hr Hsid. apply (select_summary_None sid w Hs).
        apply list_elem_of_fmap. by exists r. }
      rewrite Hnone. cbn [app]. rewrite filter_cons_True by done. done.
Qed.

Lemma analyze_items_again items acc w analyzed w1 :
  analyze_items env items acc w = (Ok analyzed, w1) →
  summaries_added w w1 ∧
  ∀ w2, summaries_added w1 w2 → analyze_items env items acc w2 = (Ok analyzed, w2).
Proof.
  revert acc w. induction items as [|[q data] items IH]; intros acc w; cbn [analyze_items].
  - rewrite ret_eq. intros [= <- <-]. split; [apply summaries_added_refl|].
    intros w2 _. apply ret_eq.
  - rewrite (bind_Ok _ _ _ _ _ (get_world_eq w)).
    destruct (select_sub_question_id q w) as [sid|] eqn:Hq.
    + destruct (summary_for env sid q data w) as [[bullets|e] w'] eqn:Hs.
      2:{ rewrite (bind_Raise _ _ _ _ _ Hs). discriminate. }
      rewrite (bind_Ok _ _ _ _ _ Hs). intros Hrest.
      destruct (summary_for_stored _ _ _ _ _ _ Hs) as [Hadd Hsel].
      destruct (IH _ _ Hrest) as [Hadd' Hagain].
      split; [by eapply summaries_added_trans|].
      intros w2 H2. rewrite (bind_Ok _ _ _ _ _ (get_world_eq w2)).
      rewrite (select_sub_question_id_later q w w2), Hq
        by (eapply summaries_added_trans; [|exact H2]; by eapply summaries_added_trans).
      rewrite (bind_Ok _ _ _ _ _
                 (summary_for_cached env sid q data w2 bullets
                    (select_summary_later sid w' w2 bullets
                       (summaries_added_trans _ _ _ Hadd' H2) Hsel))).
      by apply Hagain.
    + intros Hrest. destruct (IH _ _ Hrest) as [Hadd Hagain]. split; [done|].
      intros w2 H2. rewrite (bind_Ok _ _ _ _ _ (get_world_eq w2)).
      rewrite (select_sub_question_id_later q w w2), Hq
        by (by eapply summaries_added_trans).
      by apply Hagain.
Qed.

End Again.

(** X9: analysing is idempotent.  When [analyze_sub_questions] has
    returned, a second call on the same search results, in the store the
    first call left, returns the same dictionary and leaves the store and
    the trace as they are: it issues no completion call and writes no
    row. *)
Theorem analyze_sub_questions_idempotent
    (env : Env) (results : Py.dict Evidence) (w w1 : World)
    (analyzed : Py.dict Analysis) :
  analyze_sub_questions env results w = (Ok analyzed, w1) →
  analyze_sub_questions env results w1 = (Ok analyzed, w1).
Proof.
  unfold analyze_sub_questions. intros H.
  apply (analyze_items_again env _ _ _ _ _ H). apply summaries_added_refl.
Qed.

Lemma analyze_sub_questions_idempotent_witness :
  let w := (research_decomposition_pipeline Scenario.env_low "query"
              Scenario.empty_store).2 in
  let results := [("Q1", {| urls := ["http://Q1"]; snippets := "- T | C" |})] in
  ∃ analyzed w1,
    analyze_sub_questions Scenario.env_low results w = (Ok analyzed, w1) ∧
    Py.dict_get analyzed "Q1" = Some {| summary := ["b1"; "b2"]; a_urls := ["http://Q1"] |} ∧
    analyze_sub_questions Scenario.env_low results w1 = (Ok analyzed, w1).
Proof.
  intros w results.
  destruct (analyze_sub_questions Scenario.env_low results w) as [[analyzed|e] w1] eqn:Ha;
    [|vm_compute in Ha; discriminate Ha].
  exists analyzed, w1. split; [reflexivity|]. split.
  - vm_compute in Ha. injection Ha as <- _. vm_compute. reflexivity.
  - apply (analyze_sub_questions_idempotent Scenario.env_low results w w1 analyzed Ha).
Defined.

(** ** The calls of one [run_pipeline] *)

Lemma count_events_le p l : (count_events p l ≤ length l)%nat.
Proof. unfold count_events. apply List.filter_length_le. Qed.

Lemma count_events_kind p k l :
  (∀ e, kind e = k → p e = false) → Forall (λ e, kind e = k) l → count_events p l = 0%nat.
Proof.
  intros Hp Hl. apply count_events_0. eapply Forall_impl; [exact Hl|]. exact Hp.
Qed.

Lemma count_events_all p l : Forall (λ e, p e = true) l → count_events p l = length l.
Proof.
  unfold count_events. induction 1 as [|e l He _ IH]; [done|]. cbn. rewrite He. cbn.
  by rewrite IH.
Qed.

Lemma search_events_length qs n rs :
  length rs = length qs → length (search_events qs n rs) = length qs.
Proof. intros H. unfold search_events. rewrite length_zip_with. lia. Qed.

Lemma dict_merge_keys_NoDup {V} (d1 d2 : Py.dict V) :
  NoDup (Py.keys d1) → NoDup (Py.keys (Py.dict_merge d1 d2)).
Proof.
  unfold Py.dict_merge. revert d1. induction d2 as [|[k v] d2 IH]; intros d1 Hnd; [done|].
  cbn [foldl]. apply IH. by apply keys_dict_set_NoDup.
Qed.

Lemma cache_check_keys sub_q_map stored l :
  NoDup (Py.keys (search_cache_check sub_q_map stored l).1) ∧
  ∀ k, k ∈ Py.keys (search_cache_check sub_q_map stored l).1 → k ∈ l.
Proof.
  split.
  - unfold search_cache_check.
    assert (Hgen : ∀ acc, NoDup (Py.keys acc.1) →
              NoDup (Py.keys (foldl (cache_check_step sub_q_map stored) acc l).1)).
    { induction l as [|q l IH]; intros acc Hacc; [done|]. cbn [foldl]. apply IH.
      rewrite cache_check_step_hit. destruct (cache_hit _ _ q); cbn [fst]; [|done].
      by apply keys_dict_set_NoDup. }
    apply Hgen. constructor.
  - intros k Hk. destruct (decide (k ∈ l)) as [|Hnin]; [done|]. exfalso.
    revert Hk. apply dict_get_None. unfold search_cache_check.
    rewrite cache_check_cached. destruct (cache_hit _ _ k); [|done].
    by rewrite decide_False.
Qed.

Section Budget.

Context (env : Env).

Lemma summary_for_calls sid q data w :
  ∃ res sm evs,
    summary_for env sid q data w = (res, grow w [] sm [] evs) ∧
    Forall (λ e, kind e = KSummarize) evs ∧ (length evs ≤ 1)%nat.
Proof.
  destruct (select_summary sid w) as [bullets|] eqn:Hs.
  - exists (Ok bullets), [], []. rewrite grow_nil.
    split_and!; [by apply summary_for_cached|constructor|cbn; lia].
  - rewrite summary_for_fresh by done.
    destruct (analyzer_llm _ _ _ _) as [response|]; eexists _, _, _;
      (split_and!; [reflexivity|by repeat constructor|cbn; lia]).
Qed.

Lemma analyze_items_calls items acc w :
  ∃ res sm evs,
    analyze_items env items acc w = (res, grow w [] sm [] evs) ∧
    Forall (λ e, kind e = KSummarize) evs ∧ (length evs ≤ length items)%nat.
Proof.
  revert acc w. induction items as [|[question data] items IH]; intros acc w;
    cbn [analyze_items].
  - exists (Ok acc), [], []. rewrite ret_eq, grow_nil. by split_and!.
  - rewrite (bind_Ok _ _ _ _ _ (get_world_eq w)).
    destruct (select_sub_question_id question w) as [sid|].
    2:{ destruct (IH acc w) as (res & sm & evs & H & K & L).
        exists res, sm, evs. split_and!; [done|done|cbn; lia]. }
    destruct (summary_for_calls sid question data w) as (res1 & sm1 & evs1 & H1 & K1 & L1).
    destruct res1 as [bullets|e].
    + rewrite (bind_Ok _ _ _ _ _ H1).
      destruct (IH (Py.dict_set question {| summary := bullets; a_urls := urls data |} acc)
                  (grow w [] sm1 [] evs1)) as (res & sm2 & evs2 & H2 & K2 & L2).
      exists res, (sm1 ++ sm2), (evs1 ++ evs2). rewrite H2, grow_grow.
      split_and!; [done|by apply Forall_app|rewrite length_app; cbn; lia].
    + rewrite (bind_Raise _ _ _ _ _ H1). exists (Raise e), sm1, evs1.
      split_and!; [done|done|cbn; lia].
Qed.

End Budget.

(** X10: the cost of one call of [run_pipeline], returning or raising:
    one search call per question the cache check left missing, hence at
    most one per distinct input question; and at most one completion call
    per distinct input question (its summary) plus one (the synthesis). *)
Theorem run_pipeline_call_budget
    (env : Env) (query : string) (base fu : list string) (run : string) (w : World) :
  let questions := Py.dedup_keys (base ++ fu) in
  let evs := new_events w (run_pipeline env query base fu run w).2 in
  count_events is_search_call evs = length (missing_questions base fu run w) ∧
  (count_events is_search_call evs ≤ length questions)%nat ∧
  (count_events is_completion_call evs ≤ S (length questions))%nat.
Proof.
  intros questions evs.
  assert (Hmiss : (length (missing_questions base fu run w) ≤ length questions)%nat).
  { unfold missing_questions. rewrite search_cache_check_missing. apply length_filter. }
  enough (H : count_events is_search_call evs = length (missing_questions base fu run w) ∧
              (count_events is_completion_call evs ≤ S (length questions))%nat).
  { destruct H as [H1 H2]. split_and!; [done|lia|done]. }
  unfold evs, run_pipeline. clear evs.
  destruct (gather_evidence_grow env base fu run w) as (rs & sr & Hlen & _ & Hg & _).
  fold (missing_questions base fu run w) in Hg, Hlen.
  set (missing := missing_questions base fu run w) in *.
  assert (Hs1 : count_events is_search_call (search_events missing 5 rs) = length missing).
  { rewrite count_events_all; [by apply search_events_length|].
    eapply Forall_impl; [apply search_events_kind|]. by intros []. }
  assert (Hc1 : count_events is_completion_call (search_events missing 5 rs) = 0%nat).
  { apply (count_events_kind _ KSearch); [by intros []|apply search_events_kind]. }
  destruct (all_responses rs) as [responses|] eqn:Hall.
  2:{ rewrite (bind_Raise _ _ _ _ _ Hg). cbn [snd]. rewrite new_events_grow, Hs1, Hc1.
      split; [done|lia]. }
  rewrite (bind_Ok _ _ _ _ _ Hg). unfold analyze_sub_questions.
  set (d := Py.dict_merge _ _).
  assert (Hd : (length d ≤ length questions)%nat).
  { replace (length d) with (length (Py.keys d)) by (unfold Py.keys; apply length_fmap).
    apply submseteq_length, NoDup_submseteq.
    - apply dict_merge_keys_NoDup. apply cache_check_keys.
    - intros k Hk. apply keys_dict_merge in Hk as [Hk|Hk].
      + by apply cache_check_keys in Hk.
      + apply keys_results_by_question in Hk.
        * apply missing_questions_elem in Hk as [Hk _]. by apply dedup_keys_elem.
        * apply all_responses_length in Hall. lia. }
  destruct (analyze_items_calls env d [] (grow w sr [] [] (search_events missing 5 rs)))
    as (res2 & sm & evs2 & Ha & Hk & Hl).
  assert (Hs2 : count_events is_search_call evs2 = 0%nat).
  { by apply (count_events_kind _ KSummarize); [intros []|]. }
  pose proof (count_events_le is_completion_call evs2) as Hc2.
  destruct res2 as [analyzed|e].
  - rewrite (bind_Ok _ _ _ _ _ Ha), generate_final_answer_eq, !grow_grow. cbn [snd].
    rewrite new_events_grow, !count_events_app, Hs1, Hs2, Hc1. cbn. split; lia.
  - rewrite (bind_Raise _ _ _ _ _ Ha), grow_grow. cbn [snd].
    rewrite new_events_grow, !count_events_app, Hs1, Hs2, Hc1. split; lia.
Qed.


(** ** The report of a run *)

Lemma run_passes_shape env query run st w w' :
  run_passes env query w = (Ok (run, st), w') →
  ∃ out w1 sr sm je evs answer,
    research_decomposition_pipeline env query w = (Ok out, w1) ∧
    run = o_run_id out ∧ final_answer st = Some answer ∧
    w' = if Py.truthy answer
         then set_research_runs (with_final_answer answer run <$> research_runs w1)
                (grow w1 sr sm je evs)
         else grow w1 sr sm je evs.
Proof.
  unfold run_passes. intros H.
  destruct (research_decomposition_pipeline env query w) as [[out|e] w1] eqn:H1.
  2:{ rewrite (bind_Raise _ _ _ _ _ H1) in H. discriminate H. }
  rewrite (bind_Ok _ _ _ _ _ H1) in H. cbv zeta in H.
  destruct (pass_loop_grow env query (o_run_id out) (d_sub_questions (o_decomposition out))
              (seq 0 MAX_PASSES) initial_loop_state w1)
    as (res & sr & sm & je & evs & Hloop & _ & _ & Hres).
  destruct res as [st'|e].
  2:{ rewrite (bind_Raise _ _ _ _ _ Hloop) in H. discriminate H. }
  rewrite (bind_Ok _ _ _ _ _ Hloop) in H.
  rewrite (bind_Ok _ _ _ _ _ (save_final_answer_eq _ _ _)), ret_eq in H.
  injection H as <- <- <-.
  destruct Hres as (Hfa & _ & _ & _ & Hsome). cbn in Hfa.
  destruct Hsome as [[answer Ha] _]; [done|].
  rewrite Ha in Hfa. cbn in Hfa.
  exists out, w1, sr, sm, je, evs, answer. rewrite Hfa.
  split_and!; [done|done|done|]. by destruct answer.
Qed.

Lemma fetch_run_elem run_id w r :
  Report.fetch_run run_id w = Some r → r ∈ research_runs w ∧ rr_id r = run_id.
Proof.
  unfold Report.fetch_run. destruct (filter _ _) as [|r' l] eqn:Hf; [done|].
  intros [= ->]. assert (Hin : r ∈ filter (λ r, rr_id r = run_id) (research_runs w)).
  { rewrite Hf. left. }
  apply list_elem_of_filter in Hin. naive_solver.
Qed.

Lemma fetch_run_Some run_id w :
  run_id ∈ rr_id <$> research_runs w → is_Some (Report.fetch_run run_id w).
Proof.
  intros (r & -> & Hr)%list_elem_of_fmap. unfold Report.fetch_run.
  destruct (filter _ _) as [|r' l] eqn:Hf; [|by eexists].
  exfalso. exact (filter_nil_not_elem_of _ _ r Hf eq_refl Hr).
Qed.

Lemma infix_split {A} (l1 l2 l4 l5 : list A) x a b c :
  l1 ++ l2 ++ [x; a; b; c] ++ l4 ++ l5 = (l1 ++ l2 ++ [x]) ++ [a; b; c] ++ (l4 ++ l5).
Proof. by rewrite <- !app_assoc. Qed.

Lemma md_lines_final_answer run_id w r :
  Report.fetch_run run_id w = Some r →
  ∃ lines before after,
    Report.md_lines run_id w = Some lines ∧
    lines = before
            ++ ["## Final Answer";
                (if Py.truthy_opt (run_final_answer r)
                 then default "" (run_final_answer r) else "Not available") +:+ Py.nl;
                "## Sources"]
            ++ after.
Proof.
  intros Hr. unfold Report.md_lines. rewrite Hr. cbv zeta.
  eexists _, _, _. split; [reflexivity|]. apply infix_split.
Qed.

(** X11: the report of a finished run.  After [run_passes] has returned,
    the run it names exists, so [generate_report] does not raise its
    [ValueError]; the section "Final Answer" holds the candidate answer of
    the last pass when that answer is not empty, and "Not available" when
    it is empty and the run is new (no run of the same query was stored
    before). *)
Theorem report_shows_saved_answer
    (env : Env) (query run : string) (st : LoopState) (w w' : World) (answer : string) :
  run_passes env query w = (Ok (run, st), w') →
  final_answer st = Some answer →
  (answer = "" → filter (λ r, run_original_query r = query) (research_runs w) = []) →
  ∃ lines before after,
    Report.md_lines run w' = Some lines ∧
    lines = before
            ++ ["## Final Answer";
                (if Py.truthy answer then answer else "Not available") +:+ Py.nl;
                "## Sources"]
            ++ after.
Proof.
  intros H Hfa Hnew.
  destruct (run_passes_shape env query run st w w' H)
    as (out & w1 & sr & sm & je & evs & answer' & H1 & -> & Hfa' & ->).
  assert (answer' = answer) as -> by congruence.
  destruct (resolver_ok env query w out w1 H1) as ((row & Hrow & Hrid) & _).
  destruct answer as [|a s]; cbn [Py.truthy].
  - specialize (Hnew eq_refl).
    pose proof (resolver_miss env query w Hnew) as Hm.
    destruct (decide _) as [|Hfresh]; [rewrite H1 in Hm; discriminate Hm|].
    destruct Hm as (out' & w1' & Heq & [Hid _ (row' & Hruns & Hrid' & _ & _ & Hnone) _ _]).
    rewrite H1 in Heq. injection Heq as <- <-.
    assert (Hf : Report.fetch_run (o_run_id out) (grow w1 sr sm je evs) = Some row').
    { unfold Report.fetch_run. cbn [research_runs grow]. rewrite Hruns, filter_app.
      rewrite filter_none.
      - cbn. by rewrite decide_True.
      - intros r Hr Hrr. apply Hfresh. rewrite <- Hid, <- Hrr.
        apply list_elem_of_fmap. by exists r. }
    destruct (md_lines_final_answer _ _ _ Hf) as (lines & before & after & Hl & Hsplit).
    rewrite Hnone in Hsplit. by exists lines, before, after.
  - set (w2 := set_research_runs _ _).
    destruct (fetch_run_Some (o_run_id out) w2) as [r Hr].
    { cbn. apply list_elem_of_fmap.
      exists (with_final_answer (String a s) (o_run_id out) row). split.
      - unfold with_final_answer. by destruct (decide _).
      - apply list_elem_of_fmap. by exists row. }
    destruct (md_lines_final_answer _ _ _ Hr) as (lines & before & after & Hl & Hsplit).
    apply fetch_run_elem in Hr as [Hin Hid]. cbn in Hin.
    apply list_elem_of_fmap in Hin as (r0 & -> & Hr0).
    assert (Hans : run_final_answer
                     (with_final_answer (String a s) (o_run_id out) r0)
                   = Some (String a s)).
    { unfold with_final_answer in *. destruct (decide (rr_id r0 = o_run_id out)); [done|].
      by destruct n. }
    rewrite Hans in Hsplit. by exists lines, before, after.
Qed.

Lemma report_shows_saved_answer_witness :
  ∃ run st w' lines before after,
    run_passes Scenario.env_low "query" Scenario.empty_store = (Ok (run, st), w') ∧
    Report.md_lines run w' = Some lines ∧
    lines = before ++ ["## Final Answer"; "answer" +:+ Py.nl; "## Sources"] ++ after.
Proof.
  destruct (run_passes Scenario.env_low "query" Scenario.empty_store)
    as [[[run st]|e] w'] eqn:H; [|vm_compute in H; discriminate H].
  assert (Hfa : final_answer st = Some "answer").
  { vm_compute in H. injection H as _ <- _. reflexivity. }
  destruct (report_shows_saved_answer Scenario.env_low "query" run st
              Scenario.empty_store w' "answer" H Hfa)
    as (lines & before & after & Hl & Hsplit); [discriminate|].
  exists run, st, w', lines, before, after. split; [reflexivity|]. split; [exact Hl|exact Hsplit].
Defined.

(** The rows the resolver answers from, as a later reader finds them. *)
Lemma resolver_rows env query w out w1 :
  (∀ r, r ∈ sub_questions w → sq_research_run_id r ∈ rr_id <$> research_runs w) →
  research_decomposition_pipeline env query w = (Ok out, w1) →
  sq_sub_question <$> order_by_position (rows_of_run (o_run_id out) w1)
  = d_sub_questions (o_decomposition out) ∧
  (filter (λ r, run_original_query r = query) (research_runs w) = [] →
   sq_position <$> order_by_position (rows_of_run (o_run_id out) w1)
   = seq 1 (length (d_sub_questions (o_decomposition out)))).
Proof.
  intros Hfk H1.
  destruct (latest_run (filter (λ r, run_original_query r = query) (research_runs w)))
    as [cached|] eqn:Hl.
  - rewrite (resolver_hit env query w cached Hl) in H1. injection H1 as <- <-.
    split; [done|]. intros Hnil. rewrite Hnil in Hl. discriminate Hl.
  - apply latest_run_None in Hl.
    pose proof (resolver_miss env query w Hl) as Hm.
    destruct (decide _) as [|Hfresh]; [rewrite H1 in Hm; discriminate Hm|].
    destruct Hm as (out' & w1' & Heq & [Hid _ _ (rows & Hsubs & Htext & Hrows & Hpos) _]).
    rewrite H1 in Heq. injection Heq as <- <-.
    assert (Hmine : rows_of_run (o_run_id out) w1 = rows).
    { unfold rows_of_run. rewrite Hsubs, filter_app, filter_none, filter_all; [done| |].
      - intros r Hr. eapply Forall_forall in Hrows; [|done]. congruence.
      - intros r Hr Hrun. apply Hfresh. rewrite <- Hid, <- Hrun. by apply Hfk. }
    rewrite Hmine, (order_by_position_sorted rows 1) by done.
    split; [done|]. intros _. by rewrite Hpos, <- Htext, length_fmap.
Qed.

Lemma infix_section {A} (h : list A) x l2 y a rest :
  (h ++ [x]) ++ l2 ++ (y :: a :: rest) = h ++ x :: l2 ++ [y; a] ++ rest.
Proof. by rewrite <- !app_assoc. Qed.

Lemma md_lines_sub_questions run_id w :
  is_Some (Report.fetch_run run_id w) →
  ∃ lines before after,
    Report.md_lines run_id w = Some lines ∧
    lines = before
            ++ "## Decomposed Sub-Questions"
               :: ((λ row, Report.decimal (sq_position row) +:+ ". " +:+ sq_sub_question row)
                     <$> order_by_position (rows_of_run run_id w))
            ++ [""; "## Final Answer"] ++ after.
Proof.
  intros [r Hr]. unfold Report.md_lines. rewrite Hr. cbv zeta.
  unfold Report.fetch_sub_questions.
  eexists _, _, _. split; [reflexivity|].
  apply (infix_section
           ["# Research Report" +:+ Py.nl; "## Original Query";
            run_original_query r +:+ Py.nl; "## Query Classification";
            "- Type: **" +:+ run_classification r +:+ "**";
            "- Difficulty: **" +:+ run_difficulty_level r +:+ "**";
            "- Relationship: **" +:+ run_relationship r +:+ "**" +:+ Py.nl]).
Qed.

(** X12: the report lists the decomposition.  In a store that respects
    the foreign key of [sub_questions], the section "Decomposed
    Sub-Questions" of the report of a finished run holds one line per
    sub-question the resolver returned, in the same order, each preceded
    by its stored position; for a new run the positions are 1, 2, ... *)
Theorem report_lists_the_decomposition
    (env : Env) (query run : string) (st : LoopState) (w w' : World)
    (out : DecompositionOutput) :
  (∀ r, r ∈ sub_questions w → sq_research_run_id r ∈ rr_id <$> research_runs w) →
  run_passes env query w = (Ok (run, st), w') →
  (research_decomposition_pipeline env query w).1 = Ok out →
  ∃ lines before after rows,
    Report.md_lines run w' = Some lines ∧
    lines = before
            ++ "## Decomposed Sub-Questions"
               :: ((λ row, Report.decimal (sq_position row) +:+ ". " +:+ sq_sub_question row)
                     <$> rows)
            ++ [""; "## Final Answer"] ++ after ∧
    sq_sub_question <$> rows = d_sub_questions (o_decomposition out) ∧
    (filter (λ r, run_original_query r = query) (research_runs w) = [] →
     sq_position <$> rows = seq 1 (length rows)).
Proof.
  intros Hfk H Hout.
  destruct (run_passes_shape env query run st w w' H)
    as (out' & w1 & sr & sm & je & evs & answer & H1 & -> & Hfa & ->).
  rewrite H1 in Hout. injection Hout as ->.
  destruct (resolver_ok env query w out w1 H1) as ((row & Hrow & Hrid) & _).
  destruct (resolver_rows env query w out w1 Hfk H1) as [Htext Hpos].
  set (w2 := if Py.truthy answer then _ else _).
  assert (Hsame : rows_of_run (o_run_id out) w2 = rows_of_run (o_run_id out) w1).
  { unfold w2. by destruct (Py.truthy answer). }
  assert (Hrun : is_Some (Report.fetch_run (o_run_id out) w2)).
  { apply fetch_run_Some. unfold w2. destruct (Py.truthy answer); cbn.
    - apply list_elem_of_fmap.
      exists (with_final_answer answer (o_run_id out) row). split.
      + unfold with_final_answer. by destruct (decide _).
      + apply list_elem_of_fmap. by exists row.
    - apply list_elem_of_fmap. by exists row. }
  destruct (md_lines_sub_questions _ _ Hrun) as (lines & before & after & Hl & Hsplit).
  rewrite Hsame in Hsplit.
  exists lines, before, after, (order_by_position (rows_of_run (o_run_id out) w1)).
  split_and!; [exact Hl|exact Hsplit|exact Htext|].
  intros Hnew. rewrite (Hpos Hnew). by rewrite <- Htext, length_fmap.
Qed.

Lemma report_lists_the_decomposition_witness :
  ∃ run st w' lines before after,
    run_passes Scenario.env_low "query" Scenario.empty_store = (Ok (run, st), w') ∧
    Report.md_lines run w' = Some lines ∧
    lines = before
            ++ ["## Decomposed Sub-Questions"; "1. Q1"; "2. [FACTUAL] Q2"; "";
                "## Final Answer"]
            ++ after.
Proof.
  destruct (run_passes Scenario.env_low "query" Scenario.empty_store)
    as [[[run st]|e] w'] eqn:H; [|vm_compute in H; discriminate H].
  destruct (research_decomposition_pipeline Scenario.env_low "query" Scenario.empty_store)
    as [[out|e] w1] eqn:H1; [|vm_compute in H1; discriminate H1].
  destruct (report_lists_the_decomposition Scenario.env_low "query" run st
              Scenario.empty_store w' out)
    as (lines & before & after & rows & Hl & Hsplit & Htext & Hpos).
  - intros r Hr. cbn in Hr. apply elem_of_nil in Hr. destruct Hr.
  - exact H.
  - rewrite H1. reflexivity.
  - exists run, st, w', lines, before, after. split; [reflexivity|]. split; [exact Hl|].
    specialize (Hpos eq_refl).
    assert (Hq : d_sub_questions (o_decomposition out) = ["Q1"; "[FACTUAL] Q2"]).
    { vm_compute in H1. injection H1 as <- _. reflexivity. }
    rewrite Hq in Htext.
    destruct rows as [|r1 [|r2 [|r3 rows]]]; try discriminate Htext.
    cbn in Htext, Hpos. injection Htext as Ht1 Ht2. injection Hpos as Hp1 Hp2.
    rewrite Hsplit. cbn [fmap list_fmap]. rewrite Ht1, Ht2, Hp1, Hp2. reflexivity.
Defined.

Lemma insert_by_position_Permutation r l : insert_by_position r l ≡ₚ r :: l.
Proof.
  induction l as [|r' l IH]; cbn; [done|].
  destruct (sq_position r <=? sq_position r')%nat; [done|].
  rewrite IH. apply Permutation_swap.
Qed.

Lemma order_by_position_Permutation l : order_by_position l ≡ₚ l.
Proof.
  unfold order_by_position. induction l as [|r l IH]; cbn; [done|].
  by rewrite insert_by_position_Permutation, IH.
Qed.

Lemma string_le_total : Total Report.string_le.
Proof. intros s1 s2. apply String.leb_total. Qed.

Lemma elem_of_concat {A} (x : A) (ls : list (list A)) :
  x ∈ concat ls ↔ ∃ l, x ∈ l ∧ l ∈ ls.
Proof.
  induction ls as [|l ls IH]; cbn.
  - rewrite elem_of_nil. split; [done|]. intros (l & _ & Hl). by apply elem_of_nil in Hl.
  - rewrite elem_of_app, IH. split.
    + intros [Hx|(l' & Hx & Hl')]; [exists l; split; [done|left]|].
      exists l'. split; [done|by right].
    + intros (l' & Hx & [->|Hl']%elem_of_cons); [by left|]. right. by exists l'.
Qed.

Lemma fetch_sources_elem run_id w u :
  u ∈ Report.fetch_sources (sq_id <$> Report.fetch_sub_questions run_id w) w
  ↔ ∃ q r, q ∈ sub_questions w ∧ sq_research_run_id q = run_id ∧
           r ∈ search_results w ∧ sr_sub_question_id r = sq_id q ∧ sr_url r = Some u.
Proof.
  unfold Report.fetch_sources, Report.fetch_sub_questions.
  rewrite elem_of_list_to_set, elem_of_concat. split.
  - intros (l & Hu & Hl). apply list_elem_of_fmap in Hl as (sid & -> & Hsid).
    apply list_elem_of_fmap in Hsid as (q & -> & Hq).
    rewrite order_by_position_Permutation in Hq. unfold rows_of_run in Hq.
    apply list_elem_of_filter in Hq as [Hrun Hq].
    apply list_elem_of_omap in Hu as (r & Hr & Hurl).
    apply list_elem_of_filter in Hr as [Hid Hr]. by exists q, r.
  - intros (q & r & Hq & Hrun & Hr & Hid & Hurl).
    exists (omap sr_url (filter (λ r, sr_sub_question_id r = sq_id q) (search_results w))).
    split.
    + apply list_elem_of_omap. exists r. split; [|done]. by apply list_elem_of_filter.
    + apply list_elem_of_fmap. exists (sq_id q). split; [done|].
      apply list_elem_of_fmap. exists q. split; [done|].
      rewrite order_by_position_Permutation. unfold rows_of_run.
      by apply list_elem_of_filter.
Qed.

Lemma infix_sources {A} (l1 l2 : list A) x a b c l4 y l5 :
  l1 ++ l2 ++ [x; a; b; c] ++ l4 ++ [y] ++ l5
  = (l1 ++ l2 ++ [x; a; b]) ++ c :: l4 ++ y :: l5.
Proof. by rewrite <- !app_assoc. Qed.

Lemma md_lines_sources run_id w :
  is_Some (Report.fetch_run run_id w) →
  ∃ lines before after,
    Report.md_lines run_id w = Some lines ∧
    lines = before
            ++ "## Sources"
               :: ((λ url, "- " +:+ url)
                     <$> merge_sort Report.string_le
                           (elements (Report.fetch_sources
                                        (sq_id <$> Report.fetch_sub_questions run_id w) w)))
            ++ "" :: after.
Proof.
  intros [r Hr]. unfold Report.md_lines. rewrite Hr. cbv zeta.
  eexists _, _, _. split; [reflexivity|]. apply infix_sources.
Qed.

(** X13: the section "Sources" of a report lists, in ascending order and
    without repetition, exactly the urls stored (not NULL) in
    [search_results] for the sub-questions of the run. *)
Theorem report_sources_sorted_and_distinct
    (run_id : string) (w : World) (lines : list string) :
  Report.md_lines run_id w = Some lines →
  ∃ before after sources,
    lines = before ++ "## Sources" :: ((λ url, "- " +:+ url) <$> sources) ++ "" :: after ∧
    Sorted Report.string_le sources ∧ NoDup sources ∧
    ∀ u, u ∈ sources
         ↔ ∃ q r, q ∈ sub_questions w ∧ sq_research_run_id q = run_id ∧
                  r ∈ search_results w ∧ sr_sub_question_id r = sq_id q ∧
                  sr_url r = Some u.
Proof.
  intros Hl.
  assert (Hrun : is_Some (Report.fetch_run run_id w)).
  { unfold Report.md_lines in Hl. by destruct (Report.fetch_run run_id w). }
  destruct (md_lines_sources run_id w Hrun) as (lines' & before & after & Hl' & Hsplit).
  rewrite Hl in Hl'. injection Hl' as <-.
  set (sources := Report.fetch_sources _ w) in Hsplit.
  exists before, after, (merge_sort Report.string_le (elements sources)).
  split_and!; [exact Hsplit| | |].
  - apply (Sorted_merge_sort _ (Total0 := string_le_total)).
  - rewrite merge_sort_Permutation. apply NoDup_elements.
  - intros u. rewrite merge_sort_Permutation, elem_of_elements.
    apply fetch_sources_elem.
Qed.

Lemma report_sources_sorted_and_distinct_witness :
  let w := (run Scenario.env_low "query" Scenario.empty_store).2 in
  ∃ lines before after sources,
    Report.md_lines "run-1" w = Some lines ∧
    lines = before ++ "## Sources" :: ((λ url, "- " +:+ url) <$> sources) ++ "" :: after ∧
    Sorted Report.string_le sources ∧ NoDup sources.
Proof.
  intros w.
  destruct (Report.md_lines "run-1" w) as [lines|] eqn:Hl;
    [|vm_compute in Hl; discriminate Hl].
  destruct (report_sources_sorted_and_distinct "run-1" w lines Hl)
    as (before & after & sources & Hsplit & Hsorted & Hnd & _).
  exists lines, before, after, sources.
  split; [reflexivity|]. split; [exact Hsplit|]. split; [exact Hsorted|exact Hnd].
Defined.

(** ** One run per query *)

Section OneRun.

Context (env : Env).

Lemma stored_queries_grow w sr sm je evs :
  stored_queries (grow w sr sm je evs) = stored_queries w.
Proof. reflexivity. Qed.



End OneRun.



(** ** [normalize_sub_questions] *)

Lemma normalize_sub_questions_app l1 l2 :
  normalize_sub_questions (l1 ++ l2)
  = normalize_sub_questions l1 ++ normalize_sub_questions l2.
Proof. unfold normalize_sub_questions. by rewrite fmap_app, concat_app. Qed.

(** X15: normalisation keeps a list of plain strings as it is, so it
    changes nothing when applied to its own result; in general it returns
    one question per plain string and one per item of each dictionary, so
    a decomposition whose entries are all empty dictionaries is normalised
    to no sub-question at all. *)
Theorem normalize_sub_questions_keeps_plain_strings (sub_qs : list SubQEntry) :
  (∀ texts, normalize_sub_questions (QText <$> texts) = texts) ∧
  normalize_sub_questions (QText <$> normalize_sub_questions sub_qs)
  = normalize_sub_questions sub_qs ∧
  length (normalize_sub_questions sub_qs)
  = sum_list ((λ e, match e with QText _ => 1 | QDict items => length items end)
                <$> sub_qs).
Proof.
  assert (Hplain : ∀ texts, normalize_sub_questions (QText <$> texts) = texts).
  { intros texts. induction texts as [|t texts IH]; [done|].
    cbn. unfold normalize_sub_questions in IH. by rewrite IH. }
  split_and!; [exact Hplain|apply Hplain|].
  induction sub_qs as [|e sub_qs IH]; [done|].
  change (e :: sub_qs) with ([e] ++ sub_qs).
  rewrite normalize_sub_questions_app, length_app, IH. cbn.
  destruct e as [s|items]; cbn; [done|]. by rewrite app_nil_r, length_fmap.
Qed.

(** ** The sources shown by the interface *)

Lemma upper_ascii_not_h a : Ascii.eqb (Py.upper_ascii a) "h" = false.
Proof. destruct a as [[] [] [] [] [] [] [] []]; vm_compute; reflexivity. Qed.

Lemma upper_has_no_h s : has_h (Py.upper s) = false.
Proof. induction s as [|a s IH]; [done|]. cbn. by rewrite upper_ascii_not_h, IH. Qed.

Lemma strip_prefix_has_h p s rest :
  App.strip_prefix p s = Some rest → has_h s = false → has_h rest = false.
Proof.
  revert s. induction p as [|a p IH]; intros [|b s]; cbn; try done.
  - by intros [= <-].
  - by intros [= <-].
  - destruct (Ascii.eqb a b); [|done]. intros Hp [_ Hs]%orb_false_iff. by apply IH in Hp.
Qed.

Lemma after_first_has_h pat s rest :
  App.after_first pat s = Some rest → has_h s = false → has_h rest = false.
Proof.
  induction s as [|b s IH]; cbn [App.after_first].
  - destruct (App.strip_prefix pat "") eqn:Hp; [|done].
    intros [= <-]. by eapply strip_prefix_has_h.
  - destruct (App.strip_prefix pat (String b s)) eqn:Hp.
    + intros [= <-]. by eapply strip_prefix_has_h.
    + intros Hrest [_ Hs]%orb_false_iff. by apply IH.
Qed.

Lemma match_url_no_h s : has_h s = false → App.match_url s = None.
Proof.
  destruct s as [|b s]; [done|]. cbn [has_h]. intros [Hb _]%orb_false_iff.
  unfold App.match_url, App.match_scheme. cbn [App.strip_prefix].
  rewrite Ascii.eqb_sym in Hb. by rewrite Hb.
Qed.

Lemma findall_from_no_h skip s : has_h s = false → App.findall_from skip s = [].
Proof.
  revert skip. induction s as [|b s IH]; intros skip Hs; [done|].
  cbn [App.findall_from]. rewrite (match_url_no_h _ Hs).
  cbn [has_h] in Hs. apply orb_false_iff in Hs as [_ Hs].
  destruct skip; by apply IH.
Qed.

(** X16: [extract_sources] returns the empty list for every text.  The
    urls are looked for in the upper-cased text, where the lower-case
    pattern [https?://] cannot match, so the interface never lists a
    source. *)
Theorem extract_sources_finds_nothing (md_text : string) :
  App.extract_sources md_text = [].
Proof.
  unfold App.extract_sources.
  destruct (App.after_first "SOURCES" (Py.upper md_text)) as [section|] eqn:Hs; [|done].
  unfold App.findall_urls. rewrite findall_from_no_h; [done|].
  eapply after_first_has_h; [exact Hs|apply upper_has_no_h].
Qed.

(** ** C1: accepted follow-ups stay in memory *)

Lemma merge_verdicts_prefix fu verdicts : fu `prefix_of` merge_verdicts fu verdicts.
Proof.
  revert fu. induction verdicts as [|j verdicts IH]; intros fu; [done|].
  cbn. etrans; [apply add_new_followups_prefix|apply IH].
Qed.

Lemma merge_verdicts_elem fu verdicts j q :
  j ∈ verdicts → q ∈ recommended_follow_up j → q ∈ merge_verdicts fu verdicts.
Proof.
  revert fu. induction verdicts as [|j0 verdicts IH]; intros fu Hj Hq.
  - by apply elem_of_nil in Hj.
  - cbn. apply elem_of_cons in Hj as [->|Hj]; [|by apply IH].
    destruct (merge_verdicts_prefix
                (add_new_followups fu (recommended_follow_up j0)) verdicts) as [k Hk].
    unfold merge_verdicts in Hk. rewrite Hk. apply elem_of_app. left.
    apply add_new_followups_elem. by right.
Qed.

(** C1, amended: an accepted follow-up stays in memory.  When the pass
    loop returns, its follow-up list is the list it started with, merged
    in order with the recommendations of the verdicts that were below the
    threshold; so every question recommended by such a verdict is in the
    list, and one that was not in the starting list stands after the
    starting entries.  No [SubQuestion] record is created: the loop,
    returning or raising, leaves the [sub_questions] table as it found
    it. *)
Theorem C1_follow_ups_kept_in_memory_only
    (env : Env) (query run : string) (base : list string) (passes : list nat)
    (st : LoopState) (w : World) :
  let r := pass_loop env query run base passes st w in
  let verdicts := omap judged (new_events w r.2) in
  sub_questions r.2 = sub_questions w ∧
  ∀ st',
    r.1 = Ok st' →
    follow_up_questions st'
    = merge_verdicts (follow_up_questions st)
        (filter (λ j, threshold_met j = false) verdicts) ∧
    ∀ j q,
      j ∈ verdicts → threshold_met j = false → q ∈ recommended_follow_up j →
      q ∈ follow_up_questions st' ∧
      (q ∉ follow_up_questions st →
       ∃ l1 l2, follow_up_questions st' = follow_up_questions st ++ l1 ++ q :: l2).
Proof.
  destruct (pass_loop_verdicts env query run base passes st w)
    as (res & sr & sm & je & evs & Heq & _ & _ & _ & Hres).
  rewrite Heq. cbn [fst snd]. rewrite new_events_grow. split; [done|].
  intros st' ->. destruct Hres as (_ & Hres).
  assert (Hfu : follow_up_questions st'
                = merge_verdicts (follow_up_questions st)
                    (filter (λ j, threshold_met j = false) (omap judged evs))).
  { destruct Hres as [(Hbelow & _ & Hfu)|(pre & j0 & Hsplit & Hbelow & Hmet & Hfu)].
    - rewrite filter_all; [done|]. intros j Hj.
      by apply (proj1 (Forall_forall _ _) Hbelow).
    - rewrite Hsplit, filter_app, filter_all.
      + rewrite filter_cons_False by (by rewrite Hmet). by rewrite app_nil_r.
      + intros j Hj. by apply (proj1 (Forall_forall _ _) Hbelow). }
  split; [exact Hfu|]. intros j q Hj Hbelow Hq.
  assert (Hin : q ∈ follow_up_questions st').
  { rewrite Hfu. apply (merge_verdicts_elem _ _ j); [|done].
    by apply list_elem_of_filter. }
  split; [exact Hin|]. intros Hnew.
  destruct (merge_verdicts_prefix (follow_up_questions st)
              (filter (λ j, threshold_met j = false) (omap judged evs))) as [k Hk].
  rewrite <- Hfu in Hk. rewrite Hk in Hin. apply elem_of_app in Hin as [Hin|Hin]; [done|].
  apply list_elem_of_split in Hin as (l1 & l2 & ->). by exists l1, l2.
Qed.

Lemma C1_follow_ups_kept_in_memory_only_witness :
  let r := pass_loop Scenario.env_low "query" "run-1" ["Q1"] (seq 0 MAX_PASSES)
             initial_loop_state Scenario.empty_store in
  sub_questions r.2 = sub_questions Scenario.empty_store ∧
  ∃ st', r.1 = Ok st' ∧
         "F1" ∈ follow_up_questions st' ∧
         ∃ l1 l2, follow_up_questions st'
                  = follow_up_questions initial_loop_state ++ l1 ++ "F1" :: l2.
Proof.
  intros r.
  destruct (C1_follow_ups_kept_in_memory_only Scenario.env_low "query" "run-1" ["Q1"]
              (seq 0 MAX_PASSES) initial_loop_state Scenario.empty_store) as [Hrows Hfu].
  split; [exact Hrows|]. fold r in Hfu.
  destruct (r.1) as [st'|e] eqn:Hr; [|vm_compute in Hr; discriminate Hr].
  exists st'. split; [reflexivity|].
  destruct (Hfu st' eq_refl) as [_ Hacc].
  destruct (Hacc (Scenario.verdict 0x1.3333333333333p-1%float ["F1"]) "F1") as [Hin Happ].
  - vm_compute. left.
  - vm_compute. reflexivity.
  - left.
  - split; [exact Hin|]. apply Happ. apply not_elem_of_nil.
Defined.

(** ** C10: summaries are keyed by question text alone *)

(** The first row of a table that satisfies a test. *)
Lemma head_filter_split {A} (P : A → Prop) `{∀ x, Decision (P x)} (l : list A) x :
  head (filter P l) = Some x →
  ∃ before after, l = before ++ x :: after ∧ P x ∧ Forall (λ y, ¬ P y) before.
Proof.
  induction l as [|a l IH]; [done|]. rewrite filter_cons.
  destruct (decide (P a)) as [Ha|Ha].
  - intros [= ->]. by exists [], l.
  - intros Hx. destruct (IH Hx) as (before & after & -> & Hp & Hb).
    exists (a :: before), after. split_and!; [done|done|by constructor].
Qed.

(** C10: [analyze_sub_questions] takes no run identifier: a question is
    resolved to the first row of [sub_questions] that has its text,
    whatever run the row belongs to.  When two runs both own a
    sub-question of text [q], that one row serves both, so it is not a row
    of both runs' own: the analysis done with the evidence of one run
    stores or finds the summary under that row and under no other, and
    the analysis done with the evidence of the other run returns the very
    same bullets, with no completion call and no new summary row. *)
Theorem C10_summary_shared_across_runs
    (env : Env) (q runA runB : string) (dataA dataB : Evidence) (w : World)
    (rA rB : sub_questions_row) :
  runA ≠ runB →
  rA ∈ sub_questions w → sq_research_run_id rA = runA → sq_sub_question rA = q →
  rB ∈ sub_questions w → sq_research_run_id rB = runB → sq_sub_question rB = q →
  ∃ r0 before after,
    sub_questions w = before ++ r0 :: after ∧
    sq_sub_question r0 = q ∧
    Forall (λ r, sq_sub_question r ≠ q) before ∧
    select_sub_question_id q w = Some (sq_id r0) ∧
    (r0 ≠ rA ∨ r0 ≠ rB) ∧
    (sq_research_run_id r0 ≠ runA ∨ sq_research_run_id r0 ≠ runB) ∧
    ∀ resA w1,
      analyze_sub_questions env [(q, dataA)] w = (Ok resA, w1) →
      ∃ bullets new_rows,
        resA = [(q, {| summary := bullets; a_urls := urls dataA |})] ∧
        sub_questions w1 = sub_questions w ∧
        sub_question_summaries w1 = sub_question_summaries w ++ new_rows ∧
        Forall (λ x, sm_sub_question_id x = sq_id r0 ∧ sm_summary_json x = bullets)
          new_rows ∧
        (NoDup (sq_id <$> sub_questions w) →
         ∀ r, r ∈ sub_questions w → r ≠ r0 →
              Forall (λ x, sm_sub_question_id x ≠ sq_id r) new_rows) ∧
        select_summary (sq_id r0) w1 = Some bullets ∧
        (select_summary (sq_id r0) w = None →
         length new_rows = 1%nat ∧
         ∃ response,
           analyzer_llm env (length (trace w)) q (snippets dataA) = Some response ∧
           bullets = extract_summary_from_response env response) ∧
        analyze_sub_questions env [(q, dataB)] w1
        = (Ok [(q, {| summary := bullets; a_urls := urls dataB |})], w1).
Proof.
  intros Hruns HrA HrunA HqA HrB HrunB HqB.
  assert (∃ r0, head (filter (λ r, sq_sub_question r = q) (sub_questions w)) = Some r0)
    as [r0 Hhead].
  { destruct (filter _ (sub_questions w)) as [|r l] eqn:Hf; [|by eexists].
    by destruct (filter_nil_not_elem_of _ _ rA Hf). }
  destruct (head_filter_split _ _ _ Hhead) as (before & after & Hsplit & Hq0 & Hbefore).
  assert (Hsid : select_sub_question_id q w = Some (sq_id r0)).
  { unfold select_sub_question_id. by rewrite Hhead. }
  assert (Hr0 : r0 ∈ sub_questions w).
  { rewrite Hsplit. apply elem_of_app. right. left. }
  assert (Hothers : ∀ new_rows,
            Forall (λ x, sm_sub_question_id x = sq_id r0) new_rows →
            NoDup (sq_id <$> sub_questions w) →
            ∀ r, r ∈ sub_questions w → r ≠ r0 →
                 Forall (λ x, sm_sub_question_id x ≠ sq_id r) new_rows).
  { intros new_rows Hnew Hpk r Hr Hne. eapply Forall_impl; [exact Hnew|].
    intros x Hx Heq. apply Hne.
    apply (NoDup_fmap_eq sq_id (sub_questions w)); congruence. }
  exists r0, before, after. split_and!; [done|done|done|done| | |].
  { destruct (decide (sq_research_run_id r0 = runA)) as [Heq|Hne].
    - right. intros ->. congruence.
    - left. intros ->. congruence. }
  { destruct (decide (sq_research_run_id r0 = runA)) as [Heq|]; [|by left].
    right. congruence. }
  set (sid := sq_id r0) in *.
  intros resA w1.
  unfold analyze_sub_questions. cbn [analyze_items].
  rewrite (bind_Ok _ _ _ _ _ (get_world_eq w)), Hsid.
  destruct (select_summary sid w) as [bullets|] eqn:Hsum.
  - rewrite (bind_Ok _ _ _ _ _ (summary_for_cached env sid q dataA w bullets Hsum)).
    rewrite ret_eq. intros [= <- <-]. exists bullets, [].
    split_and!; [done|done|by rewrite app_nil_r|constructor| |done|done|].
    { intros Hpk r Hr Hne. constructor. }
    rewrite (bind_Ok _ _ _ _ _ (get_world_eq w)), Hsid.
    by rewrite (bind_Ok _ _ _ _ _ (summary_for_cached env sid q dataB w bullets Hsum)).
  - pose proof (summary_for_fresh env sid q dataA w Hsum) as Hfresh.
    destruct (analyzer_llm env (length (trace w)) q (snippets dataA)) as [response|].
    + rewrite (bind_Ok _ _ _ _ _ Hfresh), ret_eq. intros [= <- <-].
      eexists (extract_summary_from_response env response), [_].
      assert (Hnew : select_summary sid
                (grow w []
                   [{| sm_id := next_id (sm_id <$> sub_question_summaries w);
                       sm_sub_question_id := sid;
                       sm_summary_json := extract_summary_from_response env response;
                       sm_created_at := current_timestamp env (S (length (trace w))) |}]
                   [] [EvSummarize q (snippets dataA) (Some response)])
              = Some (extract_summary_from_response env response)).
      { unfold select_summary in *. cbn. rewrite filter_app.
        destruct (filter _ (sub_question_summaries w)); [|done].
        cbn. by rewrite decide_True. }
      split_and!; [done|done|reflexivity|by repeat constructor| |exact Hnew| |].
      * apply Hothers. by repeat constructor.
      * intros _. split; [done|]. by exists response.
      * rewrite (bind_Ok _ _ _ _ _ (get_world_eq _)).
        change (select_sub_question_id q (grow w [] ?sm [] ?evs))
          with (select_sub_question_id q w).
        rewrite Hsid.
        by rewrite (bind_Ok _ _ _ _ _ (summary_for_cached env sid q dataB _ _ Hnew)).
    + rewrite (bind_Raise _ _ _ _ _ Hfresh). done.
Qed.

Lemma C10_summary_shared_across_runs_witness :
  ∃ r0,
    r0 ∈ sub_questions Scenario.shared_store ∧
    select_sub_question_id "Q" Scenario.shared_store = Some (sq_id r0) ∧
    (sq_research_run_id r0 ≠ "run-A" ∨ sq_research_run_id r0 ≠ "run-B") ∧
    ∀ resA w1,
      analyze_sub_questions Scenario.env_low [("Q", {| urls := []; snippets := "a" |})]
        Scenario.shared_store = (Ok resA, w1) →
      ∃ bullets,
        resA = [("Q", {| summary := bullets; a_urls := [] |})] ∧
        analyze_sub_questions Scenario.env_low [("Q", {| urls := ["u"]; snippets := "b" |})] w1
        = (Ok [("Q", {| summary := bullets; a_urls := ["u"] |})], w1).
Proof.
  destruct (C10_summary_shared_across_runs Scenario.env_low "Q" "run-A" "run-B"
              {| urls := []; snippets := "a" |} {| urls := ["u"]; snippets := "b" |}
              Scenario.shared_store
              {| sq_id := 1; sq_research_run_id := "run-A"; sq_sub_question := "Q";
                 sq_position := 1; sq_created_at := 0 |}
              {| sq_id := 2; sq_research_run_id := "run-B"; sq_sub_question := "Q";
                 sq_position := 1; sq_created_at := 5 |})
    as (r0 & before & after & Hsplit & _ & _ & Hsid & _ & Hother & Hshare).
  - discriminate.
  - left.
  - reflexivity.
  - reflexivity.
  - right. left.
  - reflexivity.
  - reflexivity.
  - exists r0. split.
    + rewrite Hsplit. apply elem_of_app. right. left.
    + split; [exact Hsid|]. split; [exact Hother|]. intros resA w1 HA.
      destruct (Hshare resA w1 HA)
        as (bullets & new_rows & Hres & _ & _ & _ & _ & _ & _ & HB).
      exists bullets. split; [exact Hres|exact HB].
Defined.

(** ** C7: failures of classification and decomposition *)



(** ** Stored evidence and the identifiers questions resolve to *)

Lemma stored_for_ext run w w' s :
  sub_questions w' = sub_questions w → stored_for run w' s ↔ stored_for run w s.
Proof. intros H. unfold stored_for, rows_of_run. by rewrite H. Qed.

Section Resolved.

Context (env : Env).

Lemma pass_body_rows query run base pass_idx fu w :
  ∃ sr,
    search_results (pass_body env query run base pass_idx fu w).2
      = search_results w ++ sr ∧
    sub_questions (pass_body env query run base pass_idx fu w).2 = sub_questions w ∧
    Forall (stored_for run w) sr.
Proof.
  unfold pass_body. rewrite (bind_Ok _ _ _ _ _ (log_grow _ w)).
  set (w0 := grow w [] [] [] [EvPassBanner pass_idx]).
  destruct (run_pipeline_grow env query (pass_questions pass_idx base fu).1
              (pass_questions pass_idx base fu).2 run w0)
    as (res1 & rs & sr & sm & evs2 & Hp & _ & Hrows & _).
  exists sr. assert (Hsr : Forall (stored_for run w) sr).
  { eapply Forall_impl; [exact Hrows|]. intros s (_ & Hk & _).
    by exists (sr_search_query s). }
  destruct res1 as [answer|e].
  - rewrite (bind_Ok _ _ _ _ _ Hp).
    pose proof (run_judge_eq env query (base ++ fu) answer run
                  (grow w0 sr sm [] (search_events
                     (missing_questions (pass_questions pass_idx base fu).1
                        (pass_questions pass_idx base fu).2 run w0) 5 rs ++ evs2))) as Hj.
    cbv zeta in Hj. destruct (judge_chain env _ _) as [result|].
    + rewrite (bind_Ok _ _ _ _ _ Hj), ret_eq. cbn. by rewrite !app_nil_r.
    + rewrite (bind_Raise _ _ _ _ _ Hj). cbn. by rewrite !app_nil_r.
  - rewrite (bind_Raise _ _ _ _ _ Hp). cbn. by rewrite !app_nil_r.
Qed.

Lemma pass_loop_rows query run base passes st w :
  ∃ sr,
    search_results (pass_loop env query run base passes st w).2
      = search_results w ++ sr ∧
    sub_questions (pass_loop env query run base passes st w).2 = sub_questions w ∧
    Forall (stored_for run w) sr.
Proof.
  revert st w. induction passes as [|pass_idx rest IH]; intros st w.
  - exists []. cbn [pass_loop]. rewrite ret_eq. cbn. by rewrite app_nil_r.
  - rewrite pass_loop_cons.
    destruct (pass_body_rows query run base pass_idx (follow_up_questions st) w)
      as (sr1 & Hsr1 & Hsq1 & HP1).
    destruct (pass_body env query run base pass_idx (follow_up_questions st) w)
      as [[[answer result]|e] w1]; cbn [snd] in *.
    + destruct (PrimFloat.leb CONFIDENCE_THRESHOLD (confidence_score result)).
      * by exists sr1.
      * destruct (IH (after_pass (add_new_followups (follow_up_questions st)
                                    (recommended_follow_up result)) answer result) w1)
          as (sr2 & Hsr2 & Hsq2 & HP2).
        exists (sr1 ++ sr2). rewrite Hsr2, Hsq2, Hsr1, Hsq1.
        split_and!; [by rewrite app_assoc|done|].
        apply Forall_app. split; [done|].
        eapply Forall_impl; [exact HP2|]. intros s. by apply stored_for_ext.
    + by exists sr1.
Qed.

(** What the resolver leaves in the two tables. *)
Lemma resolver_tables query w :
  let w1 := (research_decomposition_pipeline env query w).2 in
  search_results w1 = search_results w ∧
  (sub_questions w1 = sub_questions w ∨
   ∃ rows,
     sub_questions w1 = sub_questions w ++ rows ∧
     Forall (λ r, sq_research_run_id r = uuid4 env (length (trace w))) rows ∧
     uuid4 env (length (trace w)) ∉ rr_id <$> research_runs w).
Proof.
  cbv zeta.
  destruct (latest_run (filter (λ r, run_original_query r = query) (research_runs w)))
    as [cached|] eqn:Hl.
  { rewrite (resolver_hit env query w cached Hl). cbn. rewrite app_nil_r. by split; [|left]. }
  apply latest_run_None in Hl.
  unfold research_decomposition_pipeline.
  rewrite (bind_Ok _ _ _ _ _ (tick_eq w)), (bind_Ok _ _ _ _ _ (log_grow _ w)).
  rewrite (bind_Ok _ _ _ _ _ (get_world_eq _)). cbn [research_runs grow].
  rewrite Hl. cbn [latest_run foldl].
  set (u := uuid4 env (length (trace w))).
  set (w0 := grow w [] [] [] [EvUuid u]).
  pose proof (classification_phase_eq env query w0) as Hc. cbv zeta in Hc.
  set (c := classify_outcome env query (length (trace w0))) in *.
  rewrite (bind_Ok _ _ _ _ _ Hc).
  pose proof (decomposition_phase_eq env query c.1.1 c.1.2 (grow w0 [] [] [] c.2)) as Hd.
  cbv zeta in Hd.
  set (d := decompose_outcome env query c.1.1 c.1.2 _) in *.
  rewrite (bind_Ok _ _ _ _ _ Hd). rewrite grow_grow. cbn [app].
  set (w2 := grow w0 [] [] [] (c.2 ++ d.2)).
  pose proof (insert_research_run_eq env u query c.1.2 (d_primary_intent d.1)
                (d_relationship d.1) (d_difficulty_level d.1) w2) as Hrun.
  destruct (decide (u ∈ rr_id <$> research_runs w2)) as [Hin|Hfresh].
  - rewrite (bind_Raise _ _ _ _ _ Hrun). cbn. rewrite !app_nil_r. by split; [|left].
  - rewrite (bind_Ok _ _ _ _ _ Hrun).
    match type of Hrun with context [set_research_runs ?l _] => set (runs := l) in * end.
    destruct (insert_sub_questions_spec env u 1 (d_sub_questions d.1)
                (set_research_runs runs w2)) as (rows & Hins & _ & Hrows & _).
    rewrite (bind_Ok _ _ _ _ _ Hins), ret_eq. cbn. rewrite !app_nil_r.
    split; [done|]. right. by exists rows.
Qed.

(** What a whole run leaves in the two tables. *)
Lemma run_tables query w :
  let w1 := (research_decomposition_pipeline env query w).2 in
  ∃ run_id sr,
    sub_questions (run env query w).2 = sub_questions w1 ∧
    search_results (run env query w).2 = search_results w1 ++ sr ∧
    Forall (stored_for run_id w1) sr.
Proof.
  cbv zeta. unfold run, run_passes.
  destruct (research_decomposition_pipeline env query w) as [[out|e] w1] eqn:H1.
  2:{ exists "", []. rewrite (bind_Raise _ _ _ _ _ (bind_Raise _ _ _ _ _ H1)).
      cbn. by rewrite app_nil_r. }
  cbn [snd]. exists (o_run_id out).
  destruct (pass_loop_rows query (o_run_id out) (d_sub_questions (o_decomposition out))
              (seq 0 MAX_PASSES) initial_loop_state w1) as (sr & Hsr & Hsq & HP).
  exists sr.
  destruct (pass_loop env query (o_run_id out) (d_sub_questions (o_decomposition out))
              (seq 0 MAX_PASSES) initial_loop_state w1) as [[st|e] w2] eqn:Hloop;
    cbn [snd] in *.
  2:{ rewrite (bind_Raise _ _ _ _ _
                 (eq_trans (bind_Ok _ _ _ _ _ H1) (bind_Raise _ _ _ _ _ Hloop))).
      by split_and!. }
  set (w3 := match final_answer st with
             | Some (String a s) =>
                 set_research_runs
                   (with_final_answer (String a s) (o_run_id out) <$> research_runs w2) w2
             | _ => w2
             end).
  assert (Hp : (do decomposition_result <- research_decomposition_pipeline env query;
                do st <- pass_loop env query (o_run_id decomposition_result)
                           (d_sub_questions (o_decomposition decomposition_result))
                           (seq 0 MAX_PASSES) initial_loop_state;
                save_final_answer (final_answer st) (o_run_id decomposition_result) ;;;
                ret (o_run_id decomposition_result, st)) w
               = (Ok (o_run_id out, st), w3)).
  { rewrite (bind_Ok _ _ _ _ _ H1), (bind_Ok _ _ _ _ _ Hloop).
    by rewrite (bind_Ok _ _ _ _ _ (save_final_answer_eq _ _ _)), ret_eq. }
  assert (H3 : sub_questions w3 = sub_questions w2 ∧ search_results w3 = search_results w2).
  { unfold w3. by destruct (final_answer st) as [[|a s]|]. }
  destruct H3 as [H3 H3'].
  rewrite (bind_Ok _ _ _ _ _ Hp).
  rewrite (bind_Ok _ _ _ _ _ (tick_eq w3)), (bind_Ok _ _ _ _ _ (log_grow _ w3)).
  destruct (generate_report env _ _) as [md|].
  - rewrite (bind_Ok _ _ _ _ _ (tick_eq _)), (bind_Ok _ _ _ _ _ (log_grow _ _)).
    destruct (store_run_vector env _ _ _); unfold ret, raise; cbn;
      rewrite !app_nil_r, H3, H3'; by split_and!.
  - unfold raise. cbn. rewrite !app_nil_r, H3, H3'. by split_and!.
Qed.

End Resolved.

(** New rows of a fresh run keep the property. *)
Lemma evidence_resolved_new_rows w w1 rows u :
  store_ok w → evidence_resolved w →
  NoDup (sq_id <$> sub_questions w1) →
  search_results w1 = search_results w →
  sub_questions w1 = sub_questions w ++ rows →
  Forall (λ r, sq_research_run_id r = u) rows →
  u ∉ rr_id <$> research_runs w →
  evidence_resolved w1.
Proof.
  intros Hok Hres Hpk Hsr Hsq Hrows Hfresh s r Hs Hr Hid.
  rewrite Hsr in Hs.
  assert (Hold : r ∈ sub_questions w).
  { pose proof (fk_search_results w Hok s Hs) as Hfk.
    apply list_elem_of_fmap in Hfk as (r' & Hid' & Hr').
    assert (r = r') as ->; [|done].
    apply (NoDup_fmap_eq sq_id (sub_questions w1)); [done|done| |congruence].
    rewrite Hsq. apply elem_of_app. by left. }
  rewrite <- (Hres s r Hs Hold Hid). f_equal. f_equal.
  unfold rows_of_run. rewrite Hsq, filter_app, (filter_none _ rows); [by rewrite app_nil_r|].
  intros x Hx Hrun. apply Hfresh.
  apply (proj1 (Forall_forall _ _) Hrows) in Hx. rewrite <- Hx, Hrun.
  by apply (fk_sub_questions w Hok).
Qed.

(** New search rows written under resolved identifiers keep it. *)
Lemma evidence_resolved_new_evidence w w' run sr :
  NoDup (sq_id <$> sub_questions w) → evidence_resolved w →
  sub_questions w' = sub_questions w →
  search_results w' = search_results w ++ sr →
  Forall (stored_for run w) sr →
  evidence_resolved w'.
Proof.
  intros Hpk Hres Hsq Hsr HP s r Hs Hr Hid.
  unfold rows_of_run. rewrite Hsq in *. rewrite Hsr in Hs.
  apply elem_of_app in Hs as [Hs|Hs]; [exact (Hres s r Hs Hr Hid)|].
  apply (proj1 (Forall_forall _ _) HP) in Hs as [q Hq].
  assert (Hrow : ∃ r0, r0 ∈ sub_questions w ∧ sq_research_run_id r0 = run ∧
                       sq_sub_question r0 = q ∧ sq_id r0 = sr_sub_question_id s).
  { revert Hq. unfold known_id.
    destruct (sub_q_map_of _ !! q) as [[|n]|] eqn:Hm; [done| |done].
    intros [= Hn]. apply sub_q_map_of_lookup in Hm as (r0 & Hin & Hx & Hid0).
    unfold rows_of_run in Hin. apply list_elem_of_filter in Hin as [Hrun Hin].
    exists r0. split_and!; [done|done|done|congruence]. }
  destruct Hrow as (r0 & Hr0 & Hrun0 & Hq0 & Hid0).
  assert (r = r0) as ->.
  { apply (NoDup_fmap_eq sq_id (sub_questions w)); [done|done|done|congruence]. }
  rewrite Hrun0, Hq0. fold (rows_of_run run w). rewrite Hq. f_equal. congruence.
Qed.

(** X17: stored evidence stays under resolved identifiers.  If the
    constraints of the schema hold and every [sub_questions] row that a
    [search_results] row refers to is the row its run's text-to-id
    dictionary gives for its text, then the same is true of the store a
    call of [run] leaves, returning or raising.  A store without search
    results has the property, so every store the program builds from an
    empty database has it. *)
Theorem run_keeps_evidence_resolved (env : Env) (query : string) (w : World) :
  store_ok w → evidence_resolved w → evidence_resolved (run env query w).2.
Proof.
  intros Hok Hres.
  set (w1 := (research_decomposition_pipeline env query w).2).
  assert (Hok1 : store_ok w1).
  { pose proof (hoare_resolver env w query w (good_step_refl w)) as H. unfold w1.
    destruct (research_decomposition_pipeline env query w) as [[out|e] w1']; cbn [snd].
    - by apply H.
    - by apply H. }
  assert (Hres1 : evidence_resolved w1).
  { destruct (resolver_tables env query w) as [Hsr [Hsq|(rows & Hsq & Hrows & Hfresh)]].
    - intros s r Hs Hr Hid. fold w1 in Hsr, Hsq. unfold rows_of_run.
      rewrite Hsr in Hs. rewrite Hsq in *. exact (Hres s r Hs Hr Hid).
    - exact (evidence_resolved_new_rows w w1 rows _ Hok Hres (pk_sub_questions w1 Hok1)
               Hsr Hsq Hrows Hfresh). }
  destruct (run_tables env query w) as (run_id & sr & Hsq & Hsr & HP).
  exact (evidence_resolved_new_evidence w1 _ run_id sr (pk_sub_questions w1 Hok1) Hres1
           Hsq Hsr HP).
Qed.

Lemma run_keeps_evidence_resolved_witness :
  store_ok Scenario.empty_store ∧ evidence_resolved Scenario.empty_store ∧
  evidence_resolved (run Scenario.env_low "query" Scenario.empty_store).2.
Proof.
  assert (H : store_ok Scenario.empty_store).
  { constructor; cbn; try apply NoDup_nil_2; intros r Hr; inversion Hr. }
  assert (H' : evidence_resolved Scenario.empty_store).
  { intros s r Hs. cbn in Hs. apply elem_of_nil in Hs. destruct Hs. }
  split; [exact H|]. split; [exact H'|].
  apply (run_keeps_evidence_resolved Scenario.env_low "query" Scenario.empty_store H H').
Defined.

(** ** C4: stored evidence is reused *)

Lemma collect_rows_snippets rows :
  (collect_rows rows).2 = omap (λ x, nonempty (sr_snippet x)) rows.
Proof.
  induction rows as [|x rows IH]; [done|]. cbn.
  destruct (collect_rows rows) as [us ss]. cbn in *. rewrite <- IH.
  destruct (sr_snippet x) as [t|]; cbn; [|done]. by destruct (Py.truthy t).
Qed.

Lemma collect_rows_urls rows u :
  u ∈ (collect_rows rows).1 ↔ ∃ x, x ∈ rows ∧ nonempty (sr_url x) = Some u.
Proof.
  induction rows as [|x rows IH]; cbn.
  - rewrite elem_of_nil. split; [done|]. intros (x & Hx & _). by apply elem_of_nil in Hx.
  - destruct (collect_rows rows) as [us ss]. cbn [fst] in *.
    rewrite elem_of_app, IH. split.
    + intros [Hu|(y & Hy & Hu)].
      * exists x. split; [left|]. destruct (sr_url x) as [t|]; cbn in *.
        -- destruct (Py.truthy t); cbn in Hu.
           ++ apply list_elem_of_singleton in Hu. by rewrite Hu.
           ++ by apply elem_of_nil in Hu.
        -- by apply elem_of_nil in Hu.
      * exists y. split; [by right|done].
    + intros (y & [->|Hy]%elem_of_cons & Hu).
      * left. destruct (sr_url x) as [t|]; cbn in *; [|done].
        destruct (Py.truthy t); cbn; [|done]. injection Hu as ->. left.
      * right. by exists y.
Qed.

(** C4: in a store where stored evidence sits under resolved identifiers
    (a property every run keeps), take a sub-question row of the run and a
    stored "depth" row that refers to it.  One evidence-gathering call
    that contains the question issues no search call for it; the evidence
    it returns for the question has, as urls, the non-empty urls of the
    stored "depth" rows of that sub-question, each once, and as snippets
    the non-empty snippets of those rows in stored order, joined by line
    breaks.  Through a whole pass loop, of any length and from any loop
    state, no search call is issued for it; the rows stay and the question
    is a cache hit at the end. *)
Theorem C4_stored_evidence_reused
    (env : Env) (query run q : string) (w : World)
    (r : sub_questions_row) (s : search_results_row) :
  evidence_resolved w →
  r ∈ sub_questions w → sq_research_run_id r = run → sq_sub_question r = q →
  s ∈ search_results w → sr_sub_question_id s = sq_id r → sr_search_type s = "depth" →
  let stored :=
    filter (λ x, sr_sub_question_id x = sq_id r ∧ sr_search_type x = "depth")
      (search_results w) in
  (∀ base fu,
     q ∈ base ++ fu →
     count_events (is_search_call_for q)
       (new_events w (gather_evidence env base fu run w).2) = 0%nat ∧
     ∀ sr, (gather_evidence env base fu run w).1 = Ok sr →
           ∃ ev,
             Py.dict_get sr q = Some ev ∧
             NoDup (urls ev) ∧
             (∀ u, u ∈ urls ev ↔ ∃ x, x ∈ stored ∧ nonempty (sr_url x) = Some u) ∧
             snippets ev
             = Py.join Py.nl (omap (λ x, nonempty (sr_snippet x)) stored)) ∧
  (∀ base passes st,
     let w' := (pass_loop env query run base passes st w).2 in
     count_events (is_search_call_for q) (new_events w w') = 0%nat ∧
     sub_questions w' = sub_questions w ∧
     search_results w `prefix_of` search_results w' ∧
     hit run q w').
Proof.
  intros Hinv Hr Hrun Hq Hs Hid Hty stored.
  assert (Hk : known_id (sub_q_map_of (rows_of_run run w)) q = Some (sq_id r)).
  { rewrite <- Hrun, <- Hq. exact (Hinv s r Hs Hr Hid). }
  assert (Hrows : depth_rows (sq_id r) (search_results w) ≠ []).
  { intros Hnil. apply (filter_nil_not_elem_of _ _ s Hnil); [by split|done]. }
  assert (Hhit : cache_hit (sub_q_map_of (rows_of_run run w)) (search_results w) q
                 = Some (evidence_of_rows (depth_rows (sq_id r) (search_results w)))).
  { unfold cache_hit. rewrite Hk. by destruct (depth_rows (sq_id r) (search_results w)). }
  split.
  - intros base fu Hin. split.
    + by rewrite gather_evidence_search_count, Hhit.
    + destruct (gather_evidence_grow env base fu run w)
        as (rs & rows & Hlen & _ & Hg & _).
      rewrite Hg. cbn [fst]. intros sr Hsr.
      destruct (all_responses rs) as [responses|] eqn:Hall; [|done].
      injection Hsr as <-.
      exists (evidence_of_rows (depth_rows (sq_id r) (search_results w))). split.
      * rewrite dict_merge_get_l.
        -- apply search_cache_check_cached; [by apply dedup_keys_elem|done].
        -- intros Hq'. apply keys_results_by_question in Hq';
             [|apply all_responses_length in Hall; lia].
           fold (missing_questions base fu run w) in Hq'.
           apply missing_questions_elem in Hq' as [_ Hq']. congruence.
      * unfold evidence_of_rows. fold stored.
        change (depth_rows (sq_id r) (search_results w)) with stored.
        pose proof (collect_rows_urls stored) as Hu.
        pose proof (collect_rows_snippets stored) as Hsn.
        destruct (collect_rows stored) as [us ss]. cbn [urls snippets fst snd] in *.
        unfold list_set. split_and!; [apply NoDup_elements| |by rewrite Hsn].
        intros u. rewrite elem_of_elements, elem_of_list_to_set. apply Hu.
  - intros base passes st w'. unfold w'.
    destruct (pass_loop_grow env query run base passes st w)
      as (res & sr & sm & je & evs & Heq & _ & Hsearch & _).
    rewrite Heq. cbn [snd]. rewrite new_events_grow. split_and!.
    + apply Hsearch. unfold hit. by rewrite Hhit.
    + done.
    + by apply prefix_app_r.
    + unfold hit, cache_hit. rewrite rows_of_run_grow, Hk.
      cbn [search_results grow]. rewrite depth_rows_app.
      destruct (depth_rows (sq_id r) (search_results w)); [done|]. by eexists.
Qed.

Lemma C4_stored_evidence_reused_witness :
  let w := (run Scenario.env_low "query" Scenario.empty_store).2 in
  let r := {| sq_id := 1; sq_research_run_id := "run-1"; sq_sub_question := "Q1";
              sq_position := 1; sq_created_at := 4 |} in
  let s := {| sr_id := 1; sr_sub_question_id := 1; sr_search_query := "Q1";
              sr_search_type := "depth"; sr_url := None; sr_title := None;
              sr_snippet := Some "- T | C"; sr_score := None;
              sr_source_engine := "tavily"; sr_fetched_at := 7 |} in
  evidence_resolved w ∧ r ∈ sub_questions w ∧ s ∈ search_results w ∧
  count_events (is_search_call_for "Q1")
    (new_events w (gather_evidence Scenario.env_low ["Q1"] ["F1"] "run-1" w).2)
  = 0%nat ∧
  count_events (is_search_call_for "Q1")
    (new_events w
       (pass_loop Scenario.env_low "query" "run-1" ["Q1"] (seq 0 MAX_PASSES)
          initial_loop_state w).2)
  = 0%nat.
Proof.
  intros w r s.
  assert (Hinv : evidence_resolved w).
  { intros x y _ Hy _. vm_compute in Hy.
    apply elem_of_cons in Hy as [->|Hy]; [vm_compute; reflexivity|].
    apply elem_of_cons in Hy as [->|Hy]; [vm_compute; reflexivity|].
    apply elem_of_nil in Hy. destruct Hy. }
  assert (Hr : r ∈ sub_questions w) by (vm_compute; left).
  assert (Hs : s ∈ search_results w) by (vm_compute; left).
  destruct (C4_stored_evidence_reused Scenario.env_low "query" "run-1" "Q1" w r s
              Hinv Hr eq_refl eq_refl Hs eq_refl eq_refl) as [Hcall Hloop].
  split; [exact Hinv|]. split; [exact Hr|]. split; [exact Hs|]. split.
  - apply (Hcall ["Q1"] ["F1"]). left.
  - apply (Hloop ["Q1"] (seq 0 MAX_PASSES) initial_loop_state).
Defined.
